(** * expo-audio-stream: the jitter-buffer core, embedded and verified

    A shallow embedding of the TypeScript sources
    - [RingBuffer]          (audio/RingBuffer.ts),
    - [FrameProcessor]      (audio/FrameProcessor.ts),
    - [RetryHandler]        (audio/RetryHandler.ts),
    - [AudioBufferManager]  (audio/BufferManagerCore.ts),
    - [TelemetryManager]    (audio/TelemetryManager.ts),
    followed by the properties of the specification that concern them
    and by further properties that the code itself shows.

    Conventions of the embedding.
    - A JavaScript number that holds an index, a counter, a size or a
      time in milliseconds is a [Z]; a number obtained by a division or
      a fractional factor is a [Q], and [Math.round] is
      [fun x => Qfloor (x + 1/2)]. The arithmetic of [Q] is exact: the
      rounding of doubles, their infinities and NaN are not modelled,
      and a property that gives a number computed with fractions is
      stated where both arithmetics agree, or up to the rounding.
    - The remainder operator [%] is [Z.rem] (sign of the dividend).
    - An array of nullable frames is a [gmap Z IAudioFrame]: a slot that
      is absent from the map holds [null] (or was never written), which
      is what reading, writing and [if (frame)] observe in JavaScript
      at any integer index.
    - A string is the list of its UTF-16 code units.
    - A method that mutates [this] takes the state and returns the new
      state, next to its result when it has one; a method that reads
      [Date.now()] takes the time as its argument [now].
    - What the sources import from elsewhere is a parameter: the class
      QualityMonitor behind its interface [IQualityMonitor], the global
      [btoa] and the native [playSound] in a [platform]; pending
      timeouts and intervals are kept in the state of the manager that
      sets them, and the calls of an operation and of [Math.random] are
      replayed from the sequence of their results. *)

From Stdlib Require Import ZArith QArith Qround Qabs Qminmax Qpower Lia Lqa.
From Stdlib Require Import List String Ascii Bool DecimalString.
From Stdlib.Strings Require Import Byte.
From stdpp Require Import base option list gmap.

Local Open Scope Z_scope.

(** ** types.ts *)

(** A UTF-16 code unit, and a JavaScript string. *)
Definition jschar := N.
Definition jsstring := list jschar.

(** A Rocq string literal as a JavaScript string. *)
Definition str (s : string) : jsstring :=
  List.map N_of_ascii (list_ascii_of_string s).

(** [AudioDataType = string | Uint8Array | ArrayBuffer]. *)
Inductive AudioDataType :=
| AVString (s : jsstring)
| AVUint8Array (bytes : list Byte.byte)
| AVArrayBuffer (bytes : list Byte.byte).

(** [IAudioPlayPayload]; an optional flag is [None] when undefined. *)
Record IAudioPlayPayload := {
  audioData : AudioDataType;
  isFirst : option bool;
  isFinal : option bool
}.

(** What a caller can pass at run time where the type checker expects an
    [IAudioPlayPayload]: [_isValidPayload] tests for all of it.
    [JSOther truthy] is a value of [audioData] of any other type than
    the three of [AudioDataType] ([truthy] tells whether [!value] is
    false); [JSNotObject] is [null], [undefined] or a primitive. *)
Inductive js_audio :=
| JSAudio (d : AudioDataType)
| JSOther (truthy : bool).

Inductive js_payload :=
| JSNotObject
| JSObject (audio : js_audio) (first final : option bool).

(** The outcome of a call that can throw. *)
Inductive completion (A : Type) :=
| Return (a : A)
| Throw (message : string).
Arguments Return {A} a.
Arguments Throw {A} message.

(** [Math.round]: the nearest integer, halves upwards. *)
Definition Math_round (x : Q) : Z := Qfloor (x + (1 # 2)).

(** [IAudioFrame]. *)
Record IAudioFrame := {
  sequenceNumber : Z;
  data : IAudioPlayPayload;
  duration : Z;
  timestamp : Z
}.

(** A list read at an integer position, as an array or a string is:
    nothing is found at a negative position or beyond the end. *)
Definition lookupZ {A : Type} (q : list A) (k : Z) : option A :=
  if k <? 0 then None else q !! Z.to_nat k.

(** ** RingBuffer.ts *)

Module RingBuffer.

Record t := {
  _buffer : gmap Z IAudioFrame;
  _capacity : Z;
  _head : Z;  (* next write position *)
  _tail : Z;  (* next read position *)
  _size : Z
}.

(** [constructor(capacity)]: [new Array(capacity).fill(null)]. *)
Definition new (capacity : Z) : t :=
  {| _buffer := ∅; _capacity := capacity;
     _head := 0; _tail := 0; _size := 0 |}.

(** [push(frame)]. *)
Definition push (frame : IAudioFrame) (rb : t) : bool * t :=
  let '(tail, size) :=
    if _size rb >=? _capacity rb
    then (Z.rem (_tail rb + 1) (_capacity rb), _size rb - 1)
    else (_tail rb, _size rb) in
  (true,
   {| _buffer := <[_head rb := frame]> (_buffer rb);
      _capacity := _capacity rb;
      _head := Z.rem (_head rb + 1) (_capacity rb);
      _tail := tail;
      _size := size + 1 |}).

(** [shift()]: [None] is [null]. *)
Definition shift (rb : t) : option IAudioFrame * t :=
  if _size rb =? 0 then (None, rb)
  else
    (_buffer rb !! _tail rb,
     {| _buffer := delete (_tail rb) (_buffer rb);
        _capacity := _capacity rb;
        _head := _head rb;
        _tail := Z.rem (_tail rb + 1) (_capacity rb);
        _size := _size rb - 1 |}).

(** [peek()]. *)
Definition peek (rb : t) : option IAudioFrame :=
  if _size rb =? 0 then None else _buffer rb !! _tail rb.

(** [unshift(frame)]. *)
Definition unshift (frame : IAudioFrame) (rb : t) : t :=
  let '(buffer, head, size) :=
    if _size rb >=? _capacity rb
    then
      let head := Z.rem (_head rb - 1 + _capacity rb) (_capacity rb) in
      (delete head (_buffer rb), head, _size rb - 1)
    else (_buffer rb, _head rb, _size rb) in
  let tail := Z.rem (_tail rb - 1 + _capacity rb) (_capacity rb) in
  {| _buffer := <[tail := frame]> buffer;
     _capacity := _capacity rb;
     _head := head;
     _tail := tail;
     _size := size + 1 |}.

(** The loop [for (i = 0; i < n; i++) buffer[i] = null] of [clear]. *)
Fixpoint clear_slots (n : nat) (i : Z) (buffer : gmap Z IAudioFrame)
  : gmap Z IAudioFrame :=
  match n with
  | O => buffer
  | S n' => clear_slots n' (i + 1) (delete i buffer)
  end.

(** [clear()]. *)
Definition clear (rb : t) : t :=
  {| _buffer := clear_slots (Z.to_nat (_capacity rb)) 0 (_buffer rb);
     _capacity := _capacity rb;
     _head := 0; _tail := 0; _size := 0 |}.

(** The getters [length], [capacity], [isEmpty], [isFull]. *)
Definition length (rb : t) : Z := _size rb.
Definition capacity (rb : t) : Z := _capacity rb.
Definition isEmpty (rb : t) : bool := _size rb =? 0.
Definition isFull (rb : t) : bool := _size rb >=? _capacity rb.

(** The loop of [getTotalDurationMs]: [n] iterations are left to run
    ([n] is [_size - count]), at slot [index], with [totalMs] summed
    so far. *)
Fixpoint total_loop (buffer : gmap Z IAudioFrame) (capacity : Z)
    (n : nat) (index totalMs : Z) : Z :=
  match n with
  | O => totalMs
  | S n' =>
      let totalMs :=
        match buffer !! index with
        | Some frame => totalMs + duration frame
        | None => totalMs
        end in
      total_loop buffer capacity n' (Z.rem (index + 1) capacity) totalMs
  end.

(** [getTotalDurationMs()]. *)
Definition getTotalDurationMs (rb : t) : Z :=
  if _size rb =? 0 then 0
  else total_loop (_buffer rb) (_capacity rb)
         (Z.to_nat (_size rb)) (_tail rb) 0.

(** The loop of [dropOldest]: [n] iterations left. *)
Fixpoint drop_loop (capacity : Z) (n : nat)
    (buffer : gmap Z IAudioFrame) (tail : Z)
  : gmap Z IAudioFrame * Z :=
  match n with
  | O => (buffer, tail)
  | S n' =>
      drop_loop capacity n' (delete tail buffer) (Z.rem (tail + 1) capacity)
  end.

(** [dropOldest(count)], for an integer [count]. *)
Definition dropOldest (count : Z) (rb : t) : Z * t :=
  let toDrop := Z.min count (_size rb) in
  let '(buffer, tail) :=
    drop_loop (_capacity rb) (Z.to_nat toDrop) (_buffer rb) (_tail rb) in
  (toDrop,
   {| _buffer := buffer;
      _capacity := _capacity rb;
      _head := _head rb;
      _tail := tail;
      _size := _size rb - toDrop |}).

(** The loop of [forEach], returning the arguments of the successive
    calls of the callback. *)
Fixpoint forEach_loop (buffer : gmap Z IAudioFrame) (capacity : Z)
    (n : nat) (index count : Z) : list (IAudioFrame * Z) :=
  match n with
  | O => []
  | S n' =>
      let rest :=
        forEach_loop buffer capacity n'
          (Z.rem (index + 1) capacity) (count + 1) in
      match buffer !! index with
      | Some frame => (frame, count) :: rest
      | None => rest
      end
  end.

(** [forEach(callback)]. *)
Definition forEach (rb : t) : list (IAudioFrame * Z) :=
  forEach_loop (_buffer rb) (_capacity rb)
    (Z.to_nat (_size rb)) (_tail rb) 0.

(** The frames of the buffer, oldest first, as [forEach] visits them. *)
Definition frames (rb : t) : list IAudioFrame := (forEach rb).*1.

(** One call on a buffer, for reasoning about interleavings; the
    count of [DropOldest] is a number of frames. *)
Inductive op :=
| Push (frame : IAudioFrame)
| Shift
| Unshift (frame : IAudioFrame)
| DropOldest (count : nat)
| Clear.

Definition step (rb : t) (o : op) : t :=
  match o with
  | Push frame => (push frame rb).2
  | Shift => (shift rb).2
  | Unshift frame => unshift frame rb
  | DropOldest count => (dropOldest (Z.of_nat count) rb).2
  | Clear => clear rb
  end.

(** The buffer after a sequence of calls, first call first. *)
Definition run (ops : list op) (rb : t) : t := foldl step rb ops.

(** The same calls on a plain queue of at most [capacity] frames,
    oldest first: the reference the buffer is compared with. *)
Definition queue_step (capacity : Z) (q : list IAudioFrame) (o : op)
  : list IAudioFrame :=
  match o with
  | Push frame =>
      (if Z.of_nat (List.length q) >=? capacity then drop 1 q else q)
        ++ [frame]
  | Shift => drop 1 q
  | Unshift frame =>
      frame :: (if Z.of_nat (List.length q) >=? capacity
                then take (List.length q - 1) q else q)
  | DropOldest count => drop count q
  | Clear => []
  end.

Definition queue_run (capacity : Z) (ops : list op) (q : list IAudioFrame)
  : list IAudioFrame := foldl (queue_step capacity) q ops.

(** Sum of the durations of a list of frames, in list order. *)
Definition durations (q : list IAudioFrame) : Z :=
  foldl (fun acc frame => acc + duration frame) 0 q.

(** Sum of a weight over the frames held by the slots
    [0 .. capacity-1] of the array, whatever the read and write
    positions are: the sum of their durations, and their number. *)
Definition occupied_sum (weight : IAudioFrame -> Z) (rb : t) : Z :=
  foldl (fun acc i =>
           match _buffer rb !! i with
           | Some frame => acc + weight frame
           | None => acc
           end)
        0 (seqZ 0 (_capacity rb)).

Definition occupied_total (rb : t) : Z := occupied_sum duration rb.

Definition occupied_count (rb : t) : Z := occupied_sum (fun _ => 1) rb.

(** [getUtilization()]: a percentage. *)
Definition getUtilization (rb : t) : Q :=
  (inject_Z (_size rb) / inject_Z (_capacity rb) * 100)%Q.

(** [n] calls of [shift] in a row: what they return, in order, and the
    buffer afterwards. *)
Fixpoint shifts (n : nat) (rb : t) : list (option IAudioFrame) * t :=
  match n with
  | O => ([], rb)
  | S n' =>
      let '(frame, rb1) := shift rb in
      let '(rest, rb2) := shifts n' rb1 in
      (frame :: rest, rb2)
  end.

End RingBuffer.

(** ** FrameProcessor.ts *)

Module FrameProcessor.

Definition _maxReasonableChunkSizeBytes : Z := 64 * 1024.

(** The character classes of the two regular expressions: the class
    [[A-Za-z0-9+/]], the sign [=], and [\s] (the white space and line
    terminators of ECMAScript). *)
Definition is_base64_char (c : jschar) : bool :=
  ((65 <=? c) && (c <=? 90) || (97 <=? c) && (c <=? 122)
   || (48 <=? c) && (c <=? 57) || (c =? 43) || (c =? 47))%N.

Definition is_padding_char (c : jschar) : bool := (c =? 61)%N.

Definition is_whitespace (c : jschar) : bool :=
  ((9 <=? c) && (c <=? 13) || (c =? 32) || (c =? 160) || (c =? 5760)
   || (8192 <=? c) && (c <=? 8202) || (c =? 8232) || (c =? 8233)
   || (c =? 8239) || (c =? 8287) || (c =? 12288) || (c =? 65279))%N.

(** The rest of a string after its longest prefix in [[A-Za-z0-9+/]]. *)
Fixpoint skip_base64_chars (s : jsstring) : jsstring :=
  match s with
  | c :: s' => if is_base64_char c then skip_base64_chars s' else s
  | [] => []
  end.

(** [_validBase64Regex.test(s)] for [/^[A-Za-z0-9+/]*={0,2}$/]: the
    class does not contain [=], so a match takes the whole prefix in
    the class and is left with at most two [=] up to the end. *)
Definition _validBase64Regex_test (s : jsstring) : bool :=
  match skip_base64_chars s with
  | [] => true
  | [c1] => is_padding_char c1
  | [c1; c2] => is_padding_char c1 && is_padding_char c2
  | _ => false
  end.

(** [(s.match(/=/g) || []).length]. *)
Definition count_padding (s : jsstring) : Z :=
  Z.of_nat (List.length (List.filter is_padding_char s)).

Record t := {
  _sequenceNumber : Z;
  _frameIntervalMs : Z;
  _sampleRate : Z;
  _bytesPerSample : Z
}.

(** [constructor(frameIntervalMs = 20, sampleRate = 16000,
    bytesPerSample = 2)]. *)
Definition new (frameIntervalMs sampleRate bytesPerSample : Z) : t :=
  {| _sequenceNumber := 0;
     _frameIntervalMs := frameIntervalMs;
     _sampleRate := sampleRate;
     _bytesPerSample := bytesPerSample |}.

Definition new_default : t := new 20 16000 2.

Definition setBytesPerSample (bytes : Z) (fp : t) : t :=
  {| _sequenceNumber := _sequenceNumber fp;
     _frameIntervalMs := _frameIntervalMs fp;
     _sampleRate := _sampleRate fp;
     _bytesPerSample := bytes |}.

(** [reset()]. *)
Definition reset (fp : t) : t :=
  {| _sequenceNumber := 0;
     _frameIntervalMs := _frameIntervalMs fp;
     _sampleRate := _sampleRate fp;
     _bytesPerSample := _bytesPerSample fp |}.

(** *** Binary data to base64 *)

(** The value of [bytes[i]] in a bitwise expression: the byte, or 0
    for [undefined] beyond the end. *)
Definition byte_at (bytes : list Byte.byte) (i : Z) : Z :=
  match lookupZ bytes i with
  | Some b => Z.of_N (Byte.to_N b)
  | None => 0
  end.

Definition chars : jsstring :=
  str "ABCDEFGHIJKLMNOPQRSTUVWXYZabcdefghijklmnopqrstuvwxyz0123456789+/".

(** [s.charAt(i)]: one character, or the empty string. *)
Definition charAt (s : jsstring) (i : Z) : jsstring :=
  match lookupZ s i with
  | Some c => [c]
  | None => []
  end.

(** The fallback loop [for (i = 0; i < len; i += 3)], with [n]
    iterations left to run. *)
Fixpoint base64_loop (bytes : list Byte.byte) (len : Z) (n : nat)
    (i : Z) (result : jsstring) : jsstring :=
  match n with
  | O => result
  | S n' =>
      let a := byte_at bytes i in
      let b := if i + 1 <? len then byte_at bytes (i + 1) else 0 in
      let c := if i + 2 <? len then byte_at bytes (i + 2) else 0 in
      let bitmap := Z.lor (Z.lor (Z.shiftl a 16) (Z.shiftl b 8)) c in
      let result := result ++ charAt chars (Z.land (Z.shiftr bitmap 18) 63) in
      let result := result ++ charAt chars (Z.land (Z.shiftr bitmap 12) 63) in
      let result :=
        result ++ (if i + 1 <? len
                   then charAt chars (Z.land (Z.shiftr bitmap 6) 63)
                   else str "=") in
      let result :=
        result ++ (if i + 2 <? len
                   then charAt chars (Z.land bitmap 63)
                   else str "=") in
      base64_loop bytes len n' (i + 3) result
  end.

(** The number of turns of a loop [for (i = 0; i < len; i += step)]. *)
Definition turns (len step : Z) : nat := Z.to_nat ((len + step - 1) / step).

(** The loop that builds [binaryString] in slices of [chunkSize]
    bytes, with [n] iterations left to run. *)
Fixpoint binaryString_loop (bytes : list Byte.byte) (len chunkSize : Z)
    (n : nat) (i : Z) (binaryString : jsstring) : jsstring :=
  match n with
  | O => binaryString
  | S n' =>
      let chunk :=
        take (Z.to_nat (Z.min (i + chunkSize) len - i))
             (drop (Z.to_nat i) bytes) in
      let binaryString :=
        foldl (fun acc b => acc ++ [Byte.to_N b]) binaryString chunk in
      binaryString_loop bytes len chunkSize n' (i + chunkSize) binaryString
  end.

(** [_binaryToBase64(bytes)]. The global [btoa] belongs to the
    platform: it is [None] when undefined. *)
Definition _binaryToBase64 (btoa : option (jsstring -> jsstring))
    (bytes : list Byte.byte) : jsstring :=
  let len := Z.of_nat (List.length bytes) in
  match btoa with
  | Some btoa =>
      let chunkSize := 8192 in
      btoa (binaryString_loop bytes len chunkSize (turns len chunkSize) 0 [])
  | None => base64_loop bytes len (turns len 3) 0 []
  end.

(** *** Validation *)

(** [_getByteSize(data)]. *)
Definition _getByteSize (data : AudioDataType) : Q :=
  match data with
  | AVString s =>
      let paddingCount := count_padding s in
      (inject_Z (Z.of_nat (List.length s)) * 3 / 4 - inject_Z paddingCount)%Q
  | AVArrayBuffer bytes => inject_Z (Z.of_nat (List.length bytes))
  | AVUint8Array bytes => inject_Z (Z.of_nat (List.length bytes))
  end.

(** [!data]: among the three accepted types only the empty string is
    falsy. *)
Definition falsy (audio : js_audio) : bool :=
  match audio with
  | JSAudio (AVString []) => true
  | JSAudio _ => false
  | JSOther truthy => negb truthy
  end.

(** [_isValidPayload(payload)]. *)
Definition _isValidPayload (payload : js_payload) : bool :=
  match payload with
  | JSNotObject => false
  | JSObject audio _ _ =>
      if falsy audio then false
      else
        match audio with
        | JSOther _ => false
        | JSAudio d =>
            let byteSize := _getByteSize d in
            if Qeq_bool byteSize 0 then false
            else if negb (Qle_bool byteSize
                            (inject_Z _maxReasonableChunkSizeBytes))
                 then false
                 else true
        end
  end.

(** [_sanitizeBase64(base64Data)]. *)
Definition _sanitizeBase64 (base64Data : jsstring) : completion jsstring :=
  match base64Data with
  | [] => Throw "Empty base64 data"
  | _ =>
      let cleaned :=
        List.filter (fun c => negb (is_whitespace c)) base64Data in
      if negb (_validBase64Regex_test cleaned)
      then Throw "Invalid base64 format"
      else
        let remainder := Z.rem (Z.of_nat (List.length cleaned)) 4 in
        if remainder =? 2 then Return (cleaned ++ str "==")
        else if remainder =? 3 then Return (cleaned ++ str "=")
        else Return cleaned
  end.

(** [_normalizeAudioData(data)]. *)
Definition _normalizeAudioData (btoa : option (jsstring -> jsstring))
    (data : AudioDataType) : completion jsstring :=
  match data with
  | AVString s => _sanitizeBase64 s
  | AVArrayBuffer bytes => Return (_binaryToBase64 btoa bytes)
  | AVUint8Array bytes => Return (_binaryToBase64 btoa bytes)
  end.

(** *** Duration *)

(** The decoded byte count that [_calculateDuration] estimates. *)
Definition estimatedBytes (base64Data : jsstring) : Q :=
  let paddingCount := count_padding base64Data in
  (inject_Z (Z.of_nat (List.length base64Data)) * 3 / 4
   - inject_Z paddingCount)%Q.

(** The duration in milliseconds before the sanity check. *)
Definition durationMs (fp : t) (base64Data : jsstring) : Q :=
  let sampleCount :=
    (estimatedBytes base64Data / inject_Z (_bytesPerSample fp))%Q in
  (sampleCount / inject_Z (_sampleRate fp) * 1000)%Q.

(** [_calculateDuration(base64Data)]; nothing throws inside its [try].
    The numbers are rationals and the operations exact. A zero
    [_bytesPerSample] or [_sampleRate], for which JavaScript computes
    an infinity or a NaN, is outside of this model; so is the rounding
    that each division and the product make on doubles, by which a
    duration within 10^-12 of a half may be rounded by [Math.round] to
    the other neighbour. What is proved of a duration is stated for
    non-zero rates and sizes, and off these half-way values where it
    gives the number. *)
Definition _calculateDuration (fp : t) (base64Data : jsstring) : Z :=
  let durationMs := durationMs fp base64Data in
  if Qle_bool durationMs 0 || negb (Qle_bool durationMs 1000)
  then _frameIntervalMs fp
  else Math_round durationMs.

(** *** Chunks to frames *)

(** [parseChunk(payload)], called at time [now] ([Date.now()]). The
    result is the array returned and the processor afterwards. *)
Definition parseChunk (btoa : option (jsstring -> jsstring))
    (payload : js_payload) (now : Z) (fp : t) : list IAudioFrame * t :=
  if negb (_isValidPayload payload) then ([], fp)
  else
    match payload with
    | JSObject (JSAudio d) first final =>
        match _normalizeAudioData btoa d with
        | Return normalizedData =>
            let estimatedDuration := _calculateDuration fp normalizedData in
            let frame :=
              {| sequenceNumber := _sequenceNumber fp;
                 data := {| audioData := AVString normalizedData;
                            isFirst := Some (default false first);
                            isFinal := Some (default false final) |};
                 duration := estimatedDuration;
                 timestamp := now |} in
            ([frame],
             {| _sequenceNumber := _sequenceNumber fp + 1;
                _frameIntervalMs := _frameIntervalMs fp;
                _sampleRate := _sampleRate fp;
                _bytesPerSample := _bytesPerSample fp |})
        | Throw _ => ([], fp)  (* catch: console.warn, return [] *)
        end
    | _ => ([], fp)  (* not reached: _isValidPayload is false *)
    end.

(** One call on a processor: [parseChunk] at some time, or [reset]. *)
Inductive op :=
| ParseChunk (payload : js_payload) (now : Z)
| Reset.

(** The frames returned by a sequence of calls, in order, and the
    processor afterwards. *)
Fixpoint run (btoa : option (jsstring -> jsstring)) (ops : list op)
    (fp : t) : list IAudioFrame * t :=
  match ops with
  | [] => ([], fp)
  | ParseChunk payload now :: ops' =>
      let '(frames, fp1) := parseChunk btoa payload now fp in
      let '(rest, fp2) := run btoa ops' fp1 in
      (frames ++ rest, fp2)
  | Reset :: ops' => run btoa ops' (reset fp)
  end.

End FrameProcessor.

(** ** RetryHandler.ts *)

Module RetryHandler.

(** [IRetryConfig]; [maxRetries] is a number of attempts: a negative
    or fractional [maxRetries] is outside of this model. *)
Record IRetryConfig := {
  maxRetries : nat;
  initialDelayMs : Q;
  maxDelayMs : Q;
  backoffMultiplier : Q;
  useJitter : bool
}.

Definition DEFAULT_RETRY_CONFIG : IRetryConfig :=
  {| maxRetries := 3; initialDelayMs := 50; maxDelayMs := 1000;
     backoffMultiplier := 2; useJitter := true |}.

(** [Partial<IRetryConfig>]: a key is absent ([None]) or present. *)
Record PartialRetryConfig := {
  p_maxRetries : option nat;
  p_initialDelayMs : option Q;
  p_maxDelayMs : option Q;
  p_backoffMultiplier : option Q;
  p_useJitter : option bool
}.

(** [{ ...base, ...config }]. *)
Definition spread (base : IRetryConfig) (config : PartialRetryConfig)
  : IRetryConfig :=
  {| maxRetries := default (maxRetries base) (p_maxRetries config);
     initialDelayMs := default (initialDelayMs base) (p_initialDelayMs config);
     maxDelayMs := default (maxDelayMs base) (p_maxDelayMs config);
     backoffMultiplier :=
       default (backoffMultiplier base) (p_backoffMultiplier config);
     useJitter := default (useJitter base) (p_useJitter config) |}.

Record t := { _config : IRetryConfig }.

(** [constructor(config?)]. *)
Definition new (config : option PartialRetryConfig) : t :=
  {| _config :=
       match config with
       | Some config => spread DEFAULT_RETRY_CONFIG config
       | None => DEFAULT_RETRY_CONFIG
       end |}.

Definition updateConfig (config : PartialRetryConfig) (rh : t) : t :=
  {| _config := spread (_config rh) config |}.

Definition getConfig (rh : t) : IRetryConfig := _config rh.

(** A value thrown by the operation: an [Error] with its message, or
    any other value, with the text [String(value)]. *)
Inductive thrown :=
| ThrownError (message : string)
| ThrownValue (text : string).

(** An [Error] object, by its message. *)
Record Error := { message : string }.

(** [error instanceof Error ? error : new Error(String(error))]. *)
Definition toError (error : thrown) : Error :=
  match error with
  | ThrownError message => {| message := message |}
  | ThrownValue text => {| message := text |}
  end.

(** What a run has done so far: the number of calls of the operation,
    the number of calls of [Math.random], and the delays slept, the
    first one first. The k-th call of the operation (from 0) has the
    outcome [operation k], the k-th call of [Math.random] returns
    [random k]. Logging is not modelled. *)
Record effects := {
  calls : nat;
  draws : nat;
  sleeps : list Q
}.

Definition no_effects : effects := {| calls := 0; draws := 0; sleeps := [] |}.

(** [_calculateDelay(attempt)]. The numbers are rationals and the
    operations exact: the rounding that each operation on doubles makes
    is not modelled, so that a product within 2^-52 of a half may be
    rounded by [Math.round] to the other neighbour. What is proved of a
    jittered delay is stated up to that. *)
Definition _calculateDelay (rh : t) (random : nat -> Q) (attempt : nat)
    (e : effects) : Q * effects :=
  let delay :=
    (initialDelayMs (_config rh)
     * backoffMultiplier (_config rh) ^ Z.of_nat attempt)%Q in
  let delay := Qmin delay (maxDelayMs (_config rh)) in
  if useJitter (_config rh)
  then
    let jitterFactor := ((75 # 100) + random (draws e) * (5 # 10))%Q in
    (inject_Z (Math_round (delay * jitterFactor)),
     {| calls := calls e; draws := S (draws e); sleeps := sleeps e |})
  else (delay, e).

(** [_sleep(ms)], awaited. *)
Definition _sleep (ms : Q) (e : effects) : effects :=
  {| calls := calls e; draws := draws e; sleeps := sleeps e ++ [ms] |}.

(** How an awaited promise settles; [Rejected None] is [throw null]. *)
Inductive outcome (T : Type) :=
| Resolved (value : T)
| Rejected (error : option Error).
Arguments Resolved {T} value.
Arguments Rejected {T} error.

(** The loop [for (attempt = 0; attempt <= maxRetries; attempt++)] of
    [execute], with [n] iterations left to run, and the [throw] that
    follows it. *)
Fixpoint execute_loop {T : Type} (rh : t)
    (operation : nat -> thrown + T) (random : nat -> Q)
    (n attempt : nat) (lastError : option Error) (e : effects)
  : outcome T * effects :=
  match n with
  | O => (Rejected lastError, e)
  | S n' =>
      let e1 := {| calls := S (calls e); draws := draws e;
                   sleeps := sleeps e |} in
      match operation (calls e) with
      | inr value => (Resolved value, e1)
      | inl error =>
          let lastError := Some (toError error) in
          let e2 :=
            if (attempt <? maxRetries (_config rh))%nat
            then
              let '(delay, e2) := _calculateDelay rh random attempt e1 in
              _sleep delay e2
            else e1 in
          execute_loop rh operation random n' (S attempt) lastError e2
      end
  end.

(** [execute(operation)]. *)
Definition execute {T : Type} (rh : t)
    (operation : nat -> thrown + T) (random : nat -> Q)
  : outcome T * effects :=
  execute_loop rh operation random
    (S (maxRetries (_config rh))) 0 None no_effects.

(** [executeSafe(operation)]: [None] is [null]. *)
Definition executeSafe {T : Type} (rh : t)
    (operation : nat -> thrown + T) (random : nat -> Q)
  : option T * effects :=
  match execute rh operation random with
  | (Resolved value, e) => (Some value, e)
  | (Rejected _, e) => (None, e)
  end.

End RetryHandler.

(** ** BufferManagerCore.ts *)

Inductive Encoding := PCM_F32LE | PCM_S16LE.

Inductive BufferHealthState := idle | healthy | degraded | critical.

(** [IAudioBufferConfig], and [Partial<IAudioBufferConfig>] where a key
    is absent ([None]) or present with a number. *)
Module IAudioBufferConfig.
Record t := {
  targetBufferMs : Z;
  minBufferMs : Z;
  maxBufferMs : Z;
  frameIntervalMs : Z;
  sampleRate : option Z
}.

Record partial := {
  p_targetBufferMs : option Z;
  p_minBufferMs : option Z;
  p_maxBufferMs : option Z;
  p_frameIntervalMs : option Z;
  p_sampleRate : option Z
}.

Definition no_change : partial :=
  {| p_targetBufferMs := None; p_minBufferMs := None;
     p_maxBufferMs := None; p_frameIntervalMs := None;
     p_sampleRate := None |}.

(** [{ ...base, ...config }]. *)
Definition spread (base : t) (config : partial) : t :=
  {| targetBufferMs := default (targetBufferMs base) (p_targetBufferMs config);
     minBufferMs := default (minBufferMs base) (p_minBufferMs config);
     maxBufferMs := default (maxBufferMs base) (p_maxBufferMs config);
     frameIntervalMs :=
       default (frameIntervalMs base) (p_frameIntervalMs config);
     sampleRate :=
       match p_sampleRate config with
       | Some rate => Some rate
       | None => sampleRate base
       end |}.

(** [minBufferMs <= targetBufferMs <= maxBufferMs]. *)
Definition ordered (config : t) : Prop :=
  minBufferMs config <= targetBufferMs config <= maxBufferMs config.
End IAudioBufferConfig.

(** [IBufferHealthMetrics]. *)
Module IBufferHealthMetrics.
Record t := {
  currentBufferMs : Z;
  targetBufferMs : Z;
  underrunCount : Z;
  overrunCount : Z;
  averageJitter : Q;
  bufferHealthState : BufferHealthState;
  adaptiveAdjustmentsCount : Z
}.
End IBufferHealthMetrics.

(** [IQualityMonitor], the interface of types.ts, with the constructor
    of the class. The class QualityMonitor itself is a parameter of
    the buffer manager: a method takes the monitor and returns it next
    to its result. *)
Class IQualityMonitor (QM : Type) := {
  newQualityMonitor : Z -> QM;
  recordFrameArrival : Z -> QM -> QM;
  recordUnderrun : QM -> QM;
  recordOverrun : QM -> QM;
  updateBufferLevel : Z -> QM -> QM;
  getMetrics : QM -> IBufferHealthMetrics.t * QM;
  getBufferHealthState : bool -> Z -> QM -> BufferHealthState * QM;
  getRecommendedAdjustment : QM -> Z * QM;
  resetQualityMonitor : QM -> QM
}.

(** What the manager needs from the platform: the global [btoa] when
    there is one, and whether a call of the native
    [ExpoPlayAudioStreamModule.playSound] returns ([true]) or throws. *)
Record platform := {
  btoa : option (jsstring -> jsstring);
  playSound : AudioDataType -> jsstring -> Encoding -> bool
}.

Module AudioBufferManager.

Definition _bufferCheckIntervalMs : Z := 50.
Definition _defaultRingBufferCapacity : Z := 150.

(** A callback passed to [setTimeout]. *)
Inductive callback :=
| checkBuffer (targetMs : Z)
| playbackLoop.

Record timeout := {
  timer_id : Z;
  timer_delay : Z;
  timer_callback : callback
}.

(** The fields of the class, then what it has asked of the platform:
    the timeouts that are pending, the identifier that the next
    [setTimeout] returns (identifiers are positive), and the calls of
    [playSound] made, the first one first. *)
Record t (QM : Type) := {
  _buffer : RingBuffer.t;
  _config : IAudioBufferConfig.t;
  _frameProcessor : option FrameProcessor.t;
  _qualityMonitor : option QM;
  _playbackTimer : option Z;
  _isActive : bool;
  _lastPlaybackTime : Z;
  _nextSequenceNumber : Z;
  _currentTurnId : option jsstring;
  _encoding : Encoding;
  pending : list timeout;
  next_timer_id : Z;
  played : list (AudioDataType * jsstring * Encoding)
}.
Arguments _buffer {QM} _.
Arguments _config {QM} _.
Arguments _frameProcessor {QM} _.
Arguments _qualityMonitor {QM} _.
Arguments _playbackTimer {QM} _.
Arguments _isActive {QM} _.
Arguments _lastPlaybackTime {QM} _.
Arguments _nextSequenceNumber {QM} _.
Arguments _currentTurnId {QM} _.
Arguments _encoding {QM} _.
Arguments pending {QM} _.
Arguments next_timer_id {QM} _.
Arguments played {QM} _.

Section Methods.
Context {QM : Type} `{IQualityMonitor QM}.
Variable env : platform.

(** Field updates. *)
Definition set_buffer (b : RingBuffer.t) (m : t QM) : t QM :=
  {| _buffer := b; _config := _config m;
     _frameProcessor := _frameProcessor m;
     _qualityMonitor := _qualityMonitor m;
     _playbackTimer := _playbackTimer m; _isActive := _isActive m;
     _lastPlaybackTime := _lastPlaybackTime m;
     _nextSequenceNumber := _nextSequenceNumber m;
     _currentTurnId := _currentTurnId m; _encoding := _encoding m;
     pending := pending m; next_timer_id := next_timer_id m;
     played := played m |}.

Definition set_config (c : IAudioBufferConfig.t) (m : t QM) : t QM :=
  {| _buffer := _buffer m; _config := c;
     _frameProcessor := _frameProcessor m;
     _qualityMonitor := _qualityMonitor m;
     _playbackTimer := _playbackTimer m; _isActive := _isActive m;
     _lastPlaybackTime := _lastPlaybackTime m;
     _nextSequenceNumber := _nextSequenceNumber m;
     _currentTurnId := _currentTurnId m; _encoding := _encoding m;
     pending := pending m; next_timer_id := next_timer_id m;
     played := played m |}.

Definition set_frameProcessor (fp : option FrameProcessor.t) (m : t QM)
  : t QM :=
  {| _buffer := _buffer m; _config := _config m;
     _frameProcessor := fp;
     _qualityMonitor := _qualityMonitor m;
     _playbackTimer := _playbackTimer m; _isActive := _isActive m;
     _lastPlaybackTime := _lastPlaybackTime m;
     _nextSequenceNumber := _nextSequenceNumber m;
     _currentTurnId := _currentTurnId m; _encoding := _encoding m;
     pending := pending m; next_timer_id := next_timer_id m;
     played := played m |}.

Definition set_qualityMonitor (qm : option QM) (m : t QM) : t QM :=
  {| _buffer := _buffer m; _config := _config m;
     _frameProcessor := _frameProcessor m;
     _qualityMonitor := qm;
     _playbackTimer := _playbackTimer m; _isActive := _isActive m;
     _lastPlaybackTime := _lastPlaybackTime m;
     _nextSequenceNumber := _nextSequenceNumber m;
     _currentTurnId := _currentTurnId m; _encoding := _encoding m;
     pending := pending m; next_timer_id := next_timer_id m;
     played := played m |}.

Definition set_isActive (b : bool) (m : t QM) : t QM :=
  {| _buffer := _buffer m; _config := _config m;
     _frameProcessor := _frameProcessor m;
     _qualityMonitor := _qualityMonitor m;
     _playbackTimer := _playbackTimer m; _isActive := b;
     _lastPlaybackTime := _lastPlaybackTime m;
     _nextSequenceNumber := _nextSequenceNumber m;
     _currentTurnId := _currentTurnId m; _encoding := _encoding m;
     pending := pending m; next_timer_id := next_timer_id m;
     played := played m |}.

Definition set_lastPlaybackTime (time : Z) (m : t QM) : t QM :=
  {| _buffer := _buffer m; _config := _config m;
     _frameProcessor := _frameProcessor m;
     _qualityMonitor := _qualityMonitor m;
     _playbackTimer := _playbackTimer m; _isActive := _isActive m;
     _lastPlaybackTime := time;
     _nextSequenceNumber := _nextSequenceNumber m;
     _currentTurnId := _currentTurnId m; _encoding := _encoding m;
     pending := pending m; next_timer_id := next_timer_id m;
     played := played m |}.

Definition set_nextSequenceNumber (n : Z) (m : t QM) : t QM :=
  {| _buffer := _buffer m; _config := _config m;
     _frameProcessor := _frameProcessor m;
     _qualityMonitor := _qualityMonitor m;
     _playbackTimer := _playbackTimer m; _isActive := _isActive m;
     _lastPlaybackTime := _lastPlaybackTime m;
     _nextSequenceNumber := n;
     _currentTurnId := _currentTurnId m; _encoding := _encoding m;
     pending := pending m; next_timer_id := next_timer_id m;
     played := played m |}.

Definition set_played (log : list (AudioDataType * jsstring * Encoding))
    (m : t QM) : t QM :=
  {| _buffer := _buffer m; _config := _config m;
     _frameProcessor := _frameProcessor m;
     _qualityMonitor := _qualityMonitor m;
     _playbackTimer := _playbackTimer m; _isActive := _isActive m;
     _lastPlaybackTime := _lastPlaybackTime m;
     _nextSequenceNumber := _nextSequenceNumber m;
     _currentTurnId := _currentTurnId m; _encoding := _encoding m;
     pending := pending m; next_timer_id := next_timer_id m;
     played := log |}.

(** [setTimeout(cb, delay)]: the timeout is pending; its identifier
    is returned. *)
Definition setTimeout (cb : callback) (delay : Z) (m : t QM) : Z * t QM :=
  (next_timer_id m,
   {| _buffer := _buffer m; _config := _config m;
      _frameProcessor := _frameProcessor m;
      _qualityMonitor := _qualityMonitor m;
      _playbackTimer := _playbackTimer m; _isActive := _isActive m;
      _lastPlaybackTime := _lastPlaybackTime m;
      _nextSequenceNumber := _nextSequenceNumber m;
      _currentTurnId := _currentTurnId m; _encoding := _encoding m;
      pending :=
        pending m ++ [{| timer_id := next_timer_id m;
                         timer_delay := delay;
                         timer_callback := cb |}];
      next_timer_id := next_timer_id m + 1;
      played := played m |}).

(** [_playbackTimer = id] (or [null]), and [clearTimeout(id)]. *)
Definition set_playbackTimer (id : option Z) (m : t QM) : t QM :=
  {| _buffer := _buffer m; _config := _config m;
     _frameProcessor := _frameProcessor m;
     _qualityMonitor := _qualityMonitor m;
     _playbackTimer := id; _isActive := _isActive m;
     _lastPlaybackTime := _lastPlaybackTime m;
     _nextSequenceNumber := _nextSequenceNumber m;
     _currentTurnId := _currentTurnId m; _encoding := _encoding m;
     pending := pending m; next_timer_id := next_timer_id m;
     played := played m |}.

Definition clearTimeout (id : Z) (m : t QM) : t QM :=
  {| _buffer := _buffer m; _config := _config m;
     _frameProcessor := _frameProcessor m;
     _qualityMonitor := _qualityMonitor m;
     _playbackTimer := _playbackTimer m; _isActive := _isActive m;
     _lastPlaybackTime := _lastPlaybackTime m;
     _nextSequenceNumber := _nextSequenceNumber m;
     _currentTurnId := _currentTurnId m; _encoding := _encoding m;
     pending :=
       List.filter (fun timer => negb (timer_id timer =? id)) (pending m);
     next_timer_id := next_timer_id m;
     played := played m |}.

(** [if (this._qualityMonitor) this._qualityMonitor.f()]. *)
Definition with_monitor (f : QM -> QM) (m : t QM) : t QM :=
  match _qualityMonitor m with
  | Some qm => set_qualityMonitor (Some (f qm)) m
  | None => m
  end.

(** [_getBytesPerSample()]. *)
Definition _getBytesPerSample (m : t QM) : Z :=
  match _encoding m with
  | PCM_F32LE => 4
  | PCM_S16LE => 2
  end.

(** [setTurnId(turnId)]. *)
Definition setTurnId (turnId : jsstring) (m : t QM) : t QM :=
  {| _buffer := _buffer m; _config := _config m;
     _frameProcessor := _frameProcessor m;
     _qualityMonitor := _qualityMonitor m;
     _playbackTimer := _playbackTimer m; _isActive := _isActive m;
     _lastPlaybackTime := _lastPlaybackTime m;
     _nextSequenceNumber := _nextSequenceNumber m;
     _currentTurnId := Some turnId; _encoding := _encoding m;
     pending := pending m; next_timer_id := next_timer_id m;
     played := played m |}.

(** [setEncoding(encoding)]. *)
Definition setEncoding (encoding : Encoding) (m : t QM) : t QM :=
  let m :=
    {| _buffer := _buffer m; _config := _config m;
       _frameProcessor := _frameProcessor m;
       _qualityMonitor := _qualityMonitor m;
       _playbackTimer := _playbackTimer m; _isActive := _isActive m;
       _lastPlaybackTime := _lastPlaybackTime m;
       _nextSequenceNumber := _nextSequenceNumber m;
       _currentTurnId := _currentTurnId m; _encoding := encoding;
       pending := pending m; next_timer_id := next_timer_id m;
       played := played m |} in
  match _frameProcessor m with
  | Some fp =>
      set_frameProcessor
        (Some (FrameProcessor.setBytesPerSample (_getBytesPerSample m) fp))
        m
  | None => m
  end.

(** [getCurrentBufferMs()]. *)
Definition getCurrentBufferMs (m : t QM) : Z :=
  RingBuffer.getTotalDurationMs (_buffer m).

(** [getBufferUtilization()]. *)
Definition getBufferUtilization (m : t QM) : Q :=
  RingBuffer.getUtilization (_buffer m).

(** [isPlaying()]. *)
Definition isPlaying (m : t QM) : bool := _isActive m.

(** [updateConfig(config)]. *)
Definition updateConfig (config : IAudioBufferConfig.partial) (m : t QM)
  : t QM :=
  set_config (IAudioBufferConfig.spread (_config m) config) m.

(** [applyAdaptiveAdjustments()]. *)
Definition applyAdaptiveAdjustments (m : t QM) : t QM :=
  match _qualityMonitor m with
  | None => m
  | Some qm =>
      let '(adjustment, qm) := getRecommendedAdjustment qm in
      let m := set_qualityMonitor (Some qm) m in
      if negb (adjustment =? 0)
      then
        let newTargetMs :=
          Z.max (IAudioBufferConfig.minBufferMs (_config m))
            (Z.min (IAudioBufferConfig.maxBufferMs (_config m))
               (IAudioBufferConfig.targetBufferMs (_config m)
                + adjustment)) in
        if negb (newTargetMs
                 =? IAudioBufferConfig.targetBufferMs (_config m))
        then
          updateConfig
            {| IAudioBufferConfig.p_targetBufferMs := Some newTargetMs;
               IAudioBufferConfig.p_minBufferMs := None;
               IAudioBufferConfig.p_maxBufferMs := None;
               IAudioBufferConfig.p_frameIntervalMs := None;
               IAudioBufferConfig.p_sampleRate := None |} m
        else m
      else m
  end.

(** [_calculateNextInterval()], at time [now] ([Date.now()]). *)
Definition _calculateNextInterval (now : Z) (m : t QM) : Z :=
  let expectedTime :=
    _lastPlaybackTime m + IAudioBufferConfig.frameIntervalMs (_config m) in
  let currentTime := now in
  let drift := currentTime - expectedTime in
  Z.max 1 (IAudioBufferConfig.frameIntervalMs (_config m) - drift).

(** The loop [while (i < binaryString.length)] of
    [_arrayBufferToBase64], with [n] iterations left to run. *)
Fixpoint silence_loop (binaryString : jsstring) (n : nat) (i : Z)
    (result : jsstring) : jsstring :=
  match n with
  | O => result
  | S n' =>
      let len := Z.of_nat (List.length binaryString) in
      let charCodeAt k := Z.of_N (default 0%N (lookupZ binaryString k)) in
      let a := charCodeAt i in
      let i := i + 1 in
      let '(b, i) := if i <? len then (charCodeAt i, i + 1) else (0, i) in
      let '(c, i) := if i <? len then (charCodeAt i, i + 1) else (0, i) in
      let bitmap := Z.lor (Z.lor (Z.shiftl a 16) (Z.shiftl b 8)) c in
      let chars := FrameProcessor.chars in
      let result :=
        result ++ FrameProcessor.charAt chars (Z.land (Z.shiftr bitmap 18) 63) in
      let result :=
        result ++ FrameProcessor.charAt chars (Z.land (Z.shiftr bitmap 12) 63) in
      let result :=
        result ++ FrameProcessor.charAt chars (Z.land (Z.shiftr bitmap 6) 63) in
      let result :=
        result ++ FrameProcessor.charAt chars (Z.land bitmap 63) in
      silence_loop binaryString n' i result
  end.

(** [_arrayBufferToBase64(buffer)]. *)
Definition _arrayBufferToBase64 (buffer : list Byte.byte) : jsstring :=
  let binaryString := foldl (fun acc b => acc ++ [Byte.to_N b]) [] buffer in
  match btoa env with
  | Some btoa => btoa binaryString
  | None =>
      let len := Z.of_nat (List.length binaryString) in
      let result :=
        silence_loop binaryString (FrameProcessor.turns len 3) 0 [] in
      let padding := Z.rem (3 - Z.rem len 3) 3 in
      let finalResult :=
        take (Z.to_nat (Z.of_nat (List.length result) - padding)) result in
      finalResult ++ List.concat (repeat (str "=") (Z.to_nat padding))
  end.

(** [_insertSilenceFrame()], at time [now]: [new ArrayBuffer(n)]
    throws a RangeError for a negative [n] (the largest size that an
    engine accepts is not modelled). *)
Definition _insertSilenceFrame (now : Z) (m : t QM) : completion (t QM) :=
  let samplesNeeded :=
    (IAudioBufferConfig.frameIntervalMs (_config m)
     * default 16000 (IAudioBufferConfig.sampleRate (_config m))) / 1000 in
  let bytesNeeded := samplesNeeded * _getBytesPerSample m in
  if bytesNeeded <? 0 then Throw "RangeError: Invalid array buffer length"
  else
    let silenceBuffer := repeat "000"%byte (Z.to_nat bytesNeeded) in
    let silenceBase64 := _arrayBufferToBase64 silenceBuffer in
    let silenceFrame :=
      {| sequenceNumber := _nextSequenceNumber m;
         data := {| audioData := AVString silenceBase64;
                    isFirst := Some false; isFinal := Some false |};
         duration := IAudioBufferConfig.frameIntervalMs (_config m);
         timestamp := now |} in
    let m := set_nextSequenceNumber (_nextSequenceNumber m + 1) m in
    Return (set_buffer (RingBuffer.unshift silenceFrame (_buffer m)) m).

(** [_handleUnderrun()]. *)
Definition _handleUnderrun (now : Z) (m : t QM) : completion (t QM) :=
  _insertSilenceFrame now (with_monitor recordUnderrun m).

(** [_handleOverrun()]. A zero [frameIntervalMs] makes
    [framesToDrop] infinite, and [dropOldest] then drops [_size]
    frames. *)
Definition _handleOverrun (m : t QM) : t QM :=
  let m := with_monitor recordOverrun m in
  let excessMs :=
    getCurrentBufferMs m - IAudioBufferConfig.maxBufferMs (_config m) in
  if 100 <? excessMs
  then
    let framesToDrop :=
      if IAudioBufferConfig.frameIntervalMs (_config m) =? 0
      then RingBuffer._size (_buffer m)
      else excessMs / IAudioBufferConfig.frameIntervalMs (_config m) in
    set_buffer (RingBuffer.dropOldest framesToDrop (_buffer m)).2 m
  else m.

(** The text of an integer in a template string. *)
Definition number_text (n : Z) : jsstring :=
  str (NilZero.string_of_int (Z.to_int n)).

(** [_playNextFrame()], at time [now]. *)
Definition _playNextFrame (now : Z) (m : t QM) : t QM :=
  let '(frame, buffer) := RingBuffer.shift (_buffer m) in
  let m := set_buffer buffer m in
  match frame with
  | None => m
  | Some frame =>
      let playbackId :=
        match _currentTurnId m with
        | Some (c :: turnId) =>
            (c :: turnId) ++ str "-frame-"
              ++ number_text (sequenceNumber frame)
        | _ => str "buffered-frame-" ++ number_text (sequenceNumber frame)
        end in
      let m :=
        set_played
          (played m
           ++ [(audioData (data frame), playbackId, _encoding m)]) m in
      if playSound env (audioData (data frame)) playbackId (_encoding m)
      then set_lastPlaybackTime now m
      else m  (* catch: no-op *)
  end.

(** The loop of [_scheduleNextFrames], with at most [n] frames left
    to schedule ([maxScheduledFrames - scheduledCount]). *)
Fixpoint schedule_loop (now : Z) (n : nat) (m : t QM) : t QM :=
  match n with
  | O => m
  | S n' =>
      if RingBuffer.isEmpty (_buffer m) then m
      else schedule_loop now n' (_playNextFrame now m)
  end.

(** [_scheduleNextFrames()]. *)
Definition _scheduleNextFrames (now : Z) (m : t QM) : t QM :=
  let currentBufferMs := getCurrentBufferMs m in
  let maxScheduledFrames :=
    if IAudioBufferConfig.targetBufferMs (_config m) <? currentBufferMs
    then 3%nat
    else if negb (Qle_bool
                    (inject_Z (IAudioBufferConfig.minBufferMs (_config m))
                     * (15 # 10))
                    (inject_Z currentBufferMs))
         then 1%nat
         else 2%nat in
  schedule_loop now maxScheduledFrames m.

(** [_startPlaybackLoop()], at time [now]. *)
Definition _startPlaybackLoop (now : Z) (m : t QM) : t QM :=
  if negb (_isActive m) then m
  else
    let currentBufferMs := getCurrentBufferMs m in
    let m := with_monitor (updateBufferLevel currentBufferMs) m in
    let m :=
      if currentBufferMs <? IAudioBufferConfig.minBufferMs (_config m)
      then
        match _handleUnderrun now m with
        | Return m' => m'
        | Throw _ =>  (* catch: no-op *)
            with_monitor recordUnderrun m
        end
      else _scheduleNextFrames now m in
    let nextInterval := _calculateNextInterval now m in
    let '(id, m) := setTimeout playbackLoop nextInterval m in
    set_playbackTimer (Some id) m.

(** The function [checkBuffer] of [_waitForBufferFill(targetMs)],
    with the continuation that [startPlayback] gives it. *)
Definition run_checkBuffer (targetMs now : Z) (m : t QM) : t QM :=
  if (targetMs <=? getCurrentBufferMs m) || negb (_isActive m)
  then if _isActive m then _startPlaybackLoop now m else m
  else (setTimeout (checkBuffer targetMs) _bufferCheckIntervalMs m).2.

(** [startPlayback()], at time [now]. *)
Definition startPlayback (now : Z) (m : t QM) : t QM :=
  if _isActive m then m
  else
    let m := set_isActive true m in
    let m := set_lastPlaybackTime now m in
    let initialWaitMs :=
      Z.min (IAudioBufferConfig.targetBufferMs (_config m)) 200 in
    run_checkBuffer initialWaitMs now m.

(** [stopPlayback()]. *)
Definition stopPlayback (m : t QM) : t QM :=
  let m := set_isActive false m in
  let m :=
    match _playbackTimer m with
    | Some id =>
        if id =? 0 then m  (* a falsy identifier *)
        else set_playbackTimer None (clearTimeout id m)
    | None => m
    end in
  let m := set_buffer (RingBuffer.clear (_buffer m)) m in
  let m := set_nextSequenceNumber 0 m in
  match _frameProcessor m with
  | Some fp => set_frameProcessor (Some (FrameProcessor.reset fp)) m
  | None => m
  end.

(** [destroy()]. *)
Definition destroy (m : t QM) : t QM :=
  let m := stopPlayback m in
  let m := set_buffer (RingBuffer.clear (_buffer m)) m in
  let m := set_nextSequenceNumber 0 m in
  let m := set_qualityMonitor None m in
  set_frameProcessor None m.

(** The loop [for (const frame of frames)] of [enqueueFrames]. *)
Definition enqueue_loop (frames : list IAudioFrame)
    (buffer : RingBuffer.t) (qm : QM) : RingBuffer.t * QM :=
  foldl (fun '(buffer, qm) frame =>
           ((RingBuffer.push frame buffer).2,
            recordFrameArrival (timestamp frame) qm))
        (buffer, qm) frames.

(** [enqueueFrames(audioData)], at time [now]. *)
Definition enqueueFrames (audioData : js_payload) (now : Z) (m : t QM)
  : t QM :=
  match _frameProcessor m, _qualityMonitor m with
  | Some fp, Some qm =>
      let '(frames, fp) :=
        FrameProcessor.parseChunk (btoa env) audioData now fp in
      let '(buffer, qm) := enqueue_loop frames (_buffer m) qm in
      let m := set_frameProcessor (Some fp) (set_buffer buffer m) in
      let currentBufferMs := getCurrentBufferMs m in
      let m :=
        set_qualityMonitor
          (Some (updateBufferLevel currentBufferMs qm)) m in
      if IAudioBufferConfig.maxBufferMs (_config m) <? currentBufferMs
      then _handleOverrun m
      else m
  | _, _ => m
  end.

(** [getHealthMetrics()]. *)
Definition getHealthMetrics (m : t QM) : IBufferHealthMetrics.t * t QM :=
  match _qualityMonitor m with
  | None =>
      ({| IBufferHealthMetrics.currentBufferMs := getCurrentBufferMs m;
          IBufferHealthMetrics.targetBufferMs :=
            IAudioBufferConfig.targetBufferMs (_config m);
          IBufferHealthMetrics.underrunCount := 0;
          IBufferHealthMetrics.overrunCount := 0;
          IBufferHealthMetrics.averageJitter := 0;
          IBufferHealthMetrics.bufferHealthState := idle;
          IBufferHealthMetrics.adaptiveAdjustmentsCount := 0 |}, m)
  | Some qm =>
      let '(metrics, qm) := getMetrics qm in
      let '(state, qm) := getBufferHealthState (_isActive m) 0 qm in
      ({| IBufferHealthMetrics.currentBufferMs := getCurrentBufferMs m;
          IBufferHealthMetrics.targetBufferMs :=
            IBufferHealthMetrics.targetBufferMs metrics;
          IBufferHealthMetrics.underrunCount :=
            IBufferHealthMetrics.underrunCount metrics;
          IBufferHealthMetrics.overrunCount :=
            IBufferHealthMetrics.overrunCount metrics;
          IBufferHealthMetrics.averageJitter :=
            IBufferHealthMetrics.averageJitter metrics;
          IBufferHealthMetrics.bufferHealthState := state;
          IBufferHealthMetrics.adaptiveAdjustmentsCount :=
            IBufferHealthMetrics.adaptiveAdjustmentsCount metrics |},
       set_qualityMonitor (Some qm) m)
  end.

(** A pending timeout fires at time [now]. *)
Definition fire (timer : timeout) (now : Z) (m : t QM) : t QM :=
  let m := clearTimeout (timer_id timer) m in
  match timer_callback timer with
  | checkBuffer targetMs => run_checkBuffer targetMs now m
  | playbackLoop => _startPlaybackLoop now m
  end.

(** [constructor(config?)]. The capacity of the buffer is
    [Math.max(Math.ceil(maxBufferMs / frameIntervalMs * 1.5), 150)];
    [new Array(capacity)] throws a RangeError when it is not a
    32-bit length, as for a zero [frameIntervalMs] and a
    non-negative [maxBufferMs]. *)
Definition new (config : IAudioBufferConfig.partial) : completion (t QM) :=
  let config :=
    IAudioBufferConfig.spread
      {| IAudioBufferConfig.targetBufferMs := 240;
         IAudioBufferConfig.minBufferMs := 120;
         IAudioBufferConfig.maxBufferMs := 480;
         IAudioBufferConfig.frameIntervalMs := 20;
         IAudioBufferConfig.sampleRate := Some 16000 |}
      config in
  let frameIntervalMs := IAudioBufferConfig.frameIntervalMs config in
  let maxBufferMs := IAudioBufferConfig.maxBufferMs config in
  let capacity :=
    if frameIntervalMs =? 0
    then if maxBufferMs <? 0 then Some _defaultRingBufferCapacity else None
    else
      let estimatedMaxFrames :=
        Qceiling (inject_Z maxBufferMs / inject_Z frameIntervalMs
                  * (15 # 10)) in
      let capacity := Z.max estimatedMaxFrames _defaultRingBufferCapacity in
      if capacity <? 2 ^ 32 then Some capacity else None in
  match capacity with
  | None => Throw "RangeError: Invalid array length"
  | Some capacity =>
      Return
        {| _buffer := RingBuffer.new capacity;
           _config := config;
           _frameProcessor :=
             Some (FrameProcessor.new frameIntervalMs
                     (default 16000 (IAudioBufferConfig.sampleRate config))
                     2);
           _qualityMonitor := Some (newQualityMonitor frameIntervalMs);
           _playbackTimer := None;
           _isActive := false;
           _lastPlaybackTime := 0;
           _nextSequenceNumber := 0;
           _currentTurnId := None;
           _encoding := PCM_S16LE;
           pending := [];
           next_timer_id := 1;
           played := [] |}
  end.

End Methods.

(** One call of the interface [IAudioBufferManager] other than
    [destroy], at some time. *)
Inductive call :=
| EnqueueFrames (audioData : js_payload)
| StartPlayback
| StopPlayback
| IsPlaying
| GetHealthMetrics
| UpdateConfig (config : IAudioBufferConfig.partial)
| ApplyAdaptiveAdjustments
| GetCurrentBufferMs.

(** The manager after a call. *)
Definition after {QM : Type} `{IQualityMonitor QM} (env : platform)
    (c : call) (now : Z) (m : t QM) : t QM :=
  match c with
  | EnqueueFrames audioData => enqueueFrames env audioData now m
  | StartPlayback => startPlayback env now m
  | StopPlayback => stopPlayback m
  | IsPlaying => m
  | GetHealthMetrics => (getHealthMetrics m).2
  | UpdateConfig config => updateConfig config m
  | ApplyAdaptiveAdjustments => applyAdaptiveAdjustments m
  | GetCurrentBufferMs => m
  end.

(** Something that happens to a manager at some time: a call of its
    interface, a call of [setTurnId], [setEncoding] or [destroy], or
    the pending timeout of some identifier that fires (nothing happens
    when no such timeout is pending). *)
Inductive event :=
| Called (c : call)
| TurnIdSet (turnId : jsstring)
| EncodingSet (encoding : Encoding)
| Destroyed
| Fires (id : Z).

Definition happen {QM : Type} `{IQualityMonitor QM} (env : platform)
    (ev : event) (now : Z) (m : t QM) : t QM :=
  match ev with
  | Called c => after env c now m
  | TurnIdSet turnId => setTurnId turnId m
  | EncodingSet encoding => setEncoding encoding m
  | Destroyed => destroy m
  | Fires id =>
      match List.find (fun timer => timer_id timer =? id) (pending m) with
      | Some timer => fire env timer now m
      | None => m
      end
  end.

(** The manager after a sequence of events, each with its time. *)
Definition run {QM : Type} `{IQualityMonitor QM} (env : platform)
    (events : list (event * Z)) (m : t QM) : t QM :=
  foldl (fun m '(ev, now) => happen env ev now m) m events.

End AudioBufferManager.

(** A quality monitor that records nothing and recommends a given
    adjustment: enough to run a manager in examples. *)
Definition fixed_monitor (adjustment : Z) : IQualityMonitor unit :=
  {| newQualityMonitor := fun _ => tt;
     recordFrameArrival := fun _ qm => qm;
     recordUnderrun := fun qm => qm;
     recordOverrun := fun qm => qm;
     updateBufferLevel := fun _ qm => qm;
     getMetrics := fun qm =>
       ({| IBufferHealthMetrics.currentBufferMs := 0;
           IBufferHealthMetrics.targetBufferMs := 0;
           IBufferHealthMetrics.underrunCount := 0;
           IBufferHealthMetrics.overrunCount := 0;
           IBufferHealthMetrics.averageJitter := 0;
           IBufferHealthMetrics.bufferHealthState := idle;
           IBufferHealthMetrics.adaptiveAdjustmentsCount := 0 |}, qm);
     getBufferHealthState := fun isPlaying _ qm =>
       (if isPlaying then healthy else idle, qm);
     getRecommendedAdjustment := fun qm => (adjustment, qm);
     resetQualityMonitor := fun qm => qm |}.

(** A platform without [btoa] whose [playSound] always returns. *)
Definition plain_platform : platform :=
  {| btoa := None; playSound := fun _ _ _ => true |}.

(** ** TelemetryManager.ts *)

(** [IAudioTelemetry]. Counters and times are integers; latencies,
    jitters and their averages are rationals. *)
Module IAudioTelemetry.
Record t := {
  sessionId : jsstring;
  chunksPlayed : Z;
  chunksDropped : Z;
  bufferUnderruns : Z;
  bufferOverruns : Z;
  averageLatencyMs : Q;
  peakLatencyMs : Q;
  averageJitterMs : Q;
  totalPlaybackDurationMs : Z;
  streamRestarts : Z;
  bufferHealthState : BufferHealthState;
  lastUpdatedAt : Z
}.
End IAudioTelemetry.

Module TelemetryManager.

Definition MAX_HISTORY_SIZE : Z := 100.
Definition DEFAULT_REPORT_INTERVAL_MS : Z := 5000.

(** An interval set with [setInterval]. *)
Record interval := {
  interval_id : Z;
  interval_ms : Z
}.

(** The fields of the class, then what it has asked of the platform:
    the intervals that are set, the identifier that the next
    [setInterval] returns (identifiers are positive), and the
    snapshots handed to callbacks, the first one first. A callback is
    known by a name of type [CB]; what it does with the snapshot is
    its own business, and a callback that calls back into the manager
    is not modelled. *)
Record t (CB : Type) := {
  _sessionId : jsstring;
  _chunksPlayed : Z;
  _chunksDropped : Z;
  _bufferUnderruns : Z;
  _bufferOverruns : Z;
  _latencyHistory : list Q;
  _peakLatencyMs : Q;
  _jitterHistory : list Q;
  _playbackStartTime : Z;
  _totalPlaybackDurationMs : Z;
  _streamRestarts : Z;
  _bufferHealthState : BufferHealthState;
  _lastUpdatedAt : Z;
  _callback : option CB;
  _reportIntervalId : option Z;
  intervals : list interval;
  next_interval_id : Z;
  reported : list (CB * IAudioTelemetry.t)
}.
Arguments _sessionId {CB} _.
Arguments _chunksPlayed {CB} _.
Arguments _chunksDropped {CB} _.
Arguments _bufferUnderruns {CB} _.
Arguments _bufferOverruns {CB} _.
Arguments _latencyHistory {CB} _.
Arguments _peakLatencyMs {CB} _.
Arguments _jitterHistory {CB} _.
Arguments _playbackStartTime {CB} _.
Arguments _totalPlaybackDurationMs {CB} _.
Arguments _streamRestarts {CB} _.
Arguments _bufferHealthState {CB} _.
Arguments _lastUpdatedAt {CB} _.
Arguments _callback {CB} _.
Arguments _reportIntervalId {CB} _.
Arguments intervals {CB} _.
Arguments next_interval_id {CB} _.
Arguments reported {CB} _.

Section Methods.
Context {CB : Type}.

(** [constructor(sessionId?)], at time [now]. The text that
    [_generateSessionId] makes of the time and of a random number is
    given: [generated]. *)
Definition new (sessionId : option jsstring) (generated : jsstring)
    (now : Z) : t CB :=
  {| _sessionId :=
       match sessionId with
       | Some (c :: s) => c :: s
       | _ => generated
       end;
     _chunksPlayed := 0;
     _chunksDropped := 0;
     _bufferUnderruns := 0;
     _bufferOverruns := 0;
     _latencyHistory := [];
     _peakLatencyMs := 0;
     _jitterHistory := [];
     _playbackStartTime := 0;
     _totalPlaybackDurationMs := 0;
     _streamRestarts := 0;
     _bufferHealthState := idle;
     _lastUpdatedAt := now;
     _callback := None;
     _reportIntervalId := None;
     intervals := [];
     next_interval_id := 1;
     reported := [] |}.

(** [history.push(value); if (history.length > MAX_HISTORY_SIZE)
    history.shift()]. *)
Definition push_capped (history : list Q) (value : Q) : list Q :=
  let history := history ++ [value] in
  if MAX_HISTORY_SIZE <? Z.of_nat (List.length history)
  then drop 1 history
  else history.

(** [_lastUpdatedAt = Date.now()]. *)
Definition touch (now : Z) (tm : t CB) : t CB :=
  {| _sessionId := _sessionId tm;
     _chunksPlayed := _chunksPlayed tm;
     _chunksDropped := _chunksDropped tm;
     _bufferUnderruns := _bufferUnderruns tm;
     _bufferOverruns := _bufferOverruns tm;
     _latencyHistory := _latencyHistory tm;
     _peakLatencyMs := _peakLatencyMs tm;
     _jitterHistory := _jitterHistory tm;
     _playbackStartTime := _playbackStartTime tm;
     _totalPlaybackDurationMs := _totalPlaybackDurationMs tm;
     _streamRestarts := _streamRestarts tm;
     _bufferHealthState := _bufferHealthState tm;
     _lastUpdatedAt := now;
     _callback := _callback tm;
     _reportIntervalId := _reportIntervalId tm;
     intervals := intervals tm;
     next_interval_id := next_interval_id tm;
     reported := reported tm |}.

(** [_recordLatency(latencyMs)]. *)
Definition _recordLatency (latencyMs : Q) (tm : t CB) : t CB :=
  {| _sessionId := _sessionId tm;
     _chunksPlayed := _chunksPlayed tm;
     _chunksDropped := _chunksDropped tm;
     _bufferUnderruns := _bufferUnderruns tm;
     _bufferOverruns := _bufferOverruns tm;
     _latencyHistory := push_capped (_latencyHistory tm) latencyMs;
     _peakLatencyMs := if negb (Qle_bool latencyMs (_peakLatencyMs tm))
       then latencyMs else _peakLatencyMs tm;
     _jitterHistory := _jitterHistory tm;
     _playbackStartTime := _playbackStartTime tm;
     _totalPlaybackDurationMs := _totalPlaybackDurationMs tm;
     _streamRestarts := _streamRestarts tm;
     _bufferHealthState := _bufferHealthState tm;
     _lastUpdatedAt := _lastUpdatedAt tm;
     _callback := _callback tm;
     _reportIntervalId := _reportIntervalId tm;
     intervals := intervals tm;
     next_interval_id := next_interval_id tm;
     reported := reported tm |}.

(** [recordChunkPlayed(latencyMs)], at time [now]. *)
Definition recordChunkPlayed (latencyMs : Q) (now : Z) (tm : t CB) : t CB :=
  let tm :=
    {| _sessionId := _sessionId tm;
       _chunksPlayed := _chunksPlayed tm + 1;
       _chunksDropped := _chunksDropped tm;
       _bufferUnderruns := _bufferUnderruns tm;
       _bufferOverruns := _bufferOverruns tm;
       _latencyHistory := _latencyHistory tm;
       _peakLatencyMs := _peakLatencyMs tm;
       _jitterHistory := _jitterHistory tm;
       _playbackStartTime := _playbackStartTime tm;
       _totalPlaybackDurationMs := _totalPlaybackDurationMs tm;
       _streamRestarts := _streamRestarts tm;
       _bufferHealthState := _bufferHealthState tm;
       _lastUpdatedAt := _lastUpdatedAt tm;
       _callback := _callback tm;
       _reportIntervalId := _reportIntervalId tm;
       intervals := intervals tm;
       next_interval_id := next_interval_id tm;
       reported := reported tm |} in
  touch now (_recordLatency latencyMs tm).

(** [recordChunkDropped()]. *)
Definition recordChunkDropped (now : Z) (tm : t CB) : t CB :=
  touch now
    {| _sessionId := _sessionId tm;
       _chunksPlayed := _chunksPlayed tm;
       _chunksDropped := _chunksDropped tm + 1;
       _bufferUnderruns := _bufferUnderruns tm;
       _bufferOverruns := _bufferOverruns tm;
       _latencyHistory := _latencyHistory tm;
       _peakLatencyMs := _peakLatencyMs tm;
       _jitterHistory := _jitterHistory tm;
       _playbackStartTime := _playbackStartTime tm;
       _totalPlaybackDurationMs := _totalPlaybackDurationMs tm;
       _streamRestarts := _streamRestarts tm;
       _bufferHealthState := _bufferHealthState tm;
       _lastUpdatedAt := _lastUpdatedAt tm;
       _callback := _callback tm;
       _reportIntervalId := _reportIntervalId tm;
       intervals := intervals tm;
       next_interval_id := next_interval_id tm;
       reported := reported tm |}.

(** [recordUnderrun()]. *)
Definition recordUnderrun (now : Z) (tm : t CB) : t CB :=
  touch now
    {| _sessionId := _sessionId tm;
       _chunksPlayed := _chunksPlayed tm;
       _chunksDropped := _chunksDropped tm;
       _bufferUnderruns := _bufferUnderruns tm + 1;
       _bufferOverruns := _bufferOverruns tm;
       _latencyHistory := _latencyHistory tm;
       _peakLatencyMs := _peakLatencyMs tm;
       _jitterHistory := _jitterHistory tm;
       _playbackStartTime := _playbackStartTime tm;
       _totalPlaybackDurationMs := _totalPlaybackDurationMs tm;
       _streamRestarts := _streamRestarts tm;
       _bufferHealthState := _bufferHealthState tm;
       _lastUpdatedAt := _lastUpdatedAt tm;
       _callback := _callback tm;
       _reportIntervalId := _reportIntervalId tm;
       intervals := intervals tm;
       next_interval_id := next_interval_id tm;
       reported := reported tm |}.

(** [recordOverrun()]. *)
Definition recordOverrun (now : Z) (tm : t CB) : t CB :=
  touch now
    {| _sessionId := _sessionId tm;
       _chunksPlayed := _chunksPlayed tm;
       _chunksDropped := _chunksDropped tm;
       _bufferUnderruns := _bufferUnderruns tm;
       _bufferOverruns := _bufferOverruns tm + 1;
       _latencyHistory := _latencyHistory tm;
       _peakLatencyMs := _peakLatencyMs tm;
       _jitterHistory := _jitterHistory tm;
       _playbackStartTime := _playbackStartTime tm;
       _totalPlaybackDurationMs := _totalPlaybackDurationMs tm;
       _streamRestarts := _streamRestarts tm;
       _bufferHealthState := _bufferHealthState tm;
       _lastUpdatedAt := _lastUpdatedAt tm;
       _callback := _callback tm;
       _reportIntervalId := _reportIntervalId tm;
       intervals := intervals tm;
       next_interval_id := next_interval_id tm;
       reported := reported tm |}.

(** [recordJitter(jitterMs)]. *)
Definition recordJitter (jitterMs : Q) (now : Z) (tm : t CB) : t CB :=
  touch now
    {| _sessionId := _sessionId tm;
       _chunksPlayed := _chunksPlayed tm;
       _chunksDropped := _chunksDropped tm;
       _bufferUnderruns := _bufferUnderruns tm;
       _bufferOverruns := _bufferOverruns tm;
       _latencyHistory := _latencyHistory tm;
       _peakLatencyMs := _peakLatencyMs tm;
       _jitterHistory := push_capped (_jitterHistory tm) jitterMs;
       _playbackStartTime := _playbackStartTime tm;
       _totalPlaybackDurationMs := _totalPlaybackDurationMs tm;
       _streamRestarts := _streamRestarts tm;
       _bufferHealthState := _bufferHealthState tm;
       _lastUpdatedAt := _lastUpdatedAt tm;
       _callback := _callback tm;
       _reportIntervalId := _reportIntervalId tm;
       intervals := intervals tm;
       next_interval_id := next_interval_id tm;
       reported := reported tm |}.

(** [recordPlaybackStart()]; its two calls of [Date.now()] return the
    same time. *)
Definition recordPlaybackStart (now : Z) (tm : t CB) : t CB :=
  touch now
    {| _sessionId := _sessionId tm;
       _chunksPlayed := _chunksPlayed tm;
       _chunksDropped := _chunksDropped tm;
       _bufferUnderruns := _bufferUnderruns tm;
       _bufferOverruns := _bufferOverruns tm;
       _latencyHistory := _latencyHistory tm;
       _peakLatencyMs := _peakLatencyMs tm;
       _jitterHistory := _jitterHistory tm;
       _playbackStartTime := now;
       _totalPlaybackDurationMs := _totalPlaybackDurationMs tm;
       _streamRestarts := _streamRestarts tm;
       _bufferHealthState := _bufferHealthState tm;
       _lastUpdatedAt := _lastUpdatedAt tm;
       _callback := _callback tm;
       _reportIntervalId := _reportIntervalId tm;
       intervals := intervals tm;
       next_interval_id := next_interval_id tm;
       reported := reported tm |}.

(** [recordPlaybackStop()]. *)
Definition recordPlaybackStop (now : Z) (tm : t CB) : t CB :=
  let tm :=
    if 0 <? _playbackStartTime tm
    then
      {| _sessionId := _sessionId tm;
         _chunksPlayed := _chunksPlayed tm;
         _chunksDropped := _chunksDropped tm;
         _bufferUnderruns := _bufferUnderruns tm;
         _bufferOverruns := _bufferOverruns tm;
         _latencyHistory := _latencyHistory tm;
         _peakLatencyMs := _peakLatencyMs tm;
         _jitterHistory := _jitterHistory tm;
         _playbackStartTime := 0;
         _totalPlaybackDurationMs := _totalPlaybackDurationMs tm
            + (now - _playbackStartTime tm);
         _streamRestarts := _streamRestarts tm;
         _bufferHealthState := _bufferHealthState tm;
         _lastUpdatedAt := _lastUpdatedAt tm;
         _callback := _callback tm;
         _reportIntervalId := _reportIntervalId tm;
         intervals := intervals tm;
         next_interval_id := next_interval_id tm;
         reported := reported tm |}
    else tm in
  touch now tm.

(** [recordStreamRestart()]. *)
Definition recordStreamRestart (now : Z) (tm : t CB) : t CB :=
  touch now
    {| _sessionId := _sessionId tm;
       _chunksPlayed := _chunksPlayed tm;
       _chunksDropped := _chunksDropped tm;
       _bufferUnderruns := _bufferUnderruns tm;
       _bufferOverruns := _bufferOverruns tm;
       _latencyHistory := _latencyHistory tm;
       _peakLatencyMs := _peakLatencyMs tm;
       _jitterHistory := _jitterHistory tm;
       _playbackStartTime := _playbackStartTime tm;
       _totalPlaybackDurationMs := _totalPlaybackDurationMs tm;
       _streamRestarts := _streamRestarts tm + 1;
       _bufferHealthState := _bufferHealthState tm;
       _lastUpdatedAt := _lastUpdatedAt tm;
       _callback := _callback tm;
       _reportIntervalId := _reportIntervalId tm;
       intervals := intervals tm;
       next_interval_id := next_interval_id tm;
       reported := reported tm |}.

(** [updateBufferHealthState(state)]. *)
Definition updateBufferHealthState (state : BufferHealthState) (now : Z)
    (tm : t CB) : t CB :=
  touch now
    {| _sessionId := _sessionId tm;
       _chunksPlayed := _chunksPlayed tm;
       _chunksDropped := _chunksDropped tm;
       _bufferUnderruns := _bufferUnderruns tm;
       _bufferOverruns := _bufferOverruns tm;
       _latencyHistory := _latencyHistory tm;
       _peakLatencyMs := _peakLatencyMs tm;
       _jitterHistory := _jitterHistory tm;
       _playbackStartTime := _playbackStartTime tm;
       _totalPlaybackDurationMs := _totalPlaybackDurationMs tm;
       _streamRestarts := _streamRestarts tm;
       _bufferHealthState := state;
       _lastUpdatedAt := _lastUpdatedAt tm;
       _callback := _callback tm;
       _reportIntervalId := _reportIntervalId tm;
       intervals := intervals tm;
       next_interval_id := next_interval_id tm;
       reported := reported tm |}.

(** [_calculateAverage(values)]. The sum and the quotient are those
    of the rationals: the rounding that each addition and the division
    make on doubles is not modelled, and nothing is proved here of the
    value of an average. *)
Definition _calculateAverage (values : list Q) : Q :=
  match values with
  | [] => 0
  | _ =>
      (foldl (fun sum val => sum + val) 0 values
       / inject_Z (Z.of_nat (List.length values)))%Q
  end.

(** [getTelemetry()], at time [now]. The two averages are rounded to a
    hundredth in exact arithmetic, as [_calculateAverage] computes them
    here; the counters, the peak and the times are the fields read. *)
Definition getTelemetry (now : Z) (tm : t CB) : IAudioTelemetry.t :=
  let avgLatency := _calculateAverage (_latencyHistory tm) in
  let avgJitter := _calculateAverage (_jitterHistory tm) in
  let totalDuration := _totalPlaybackDurationMs tm in
  let totalDuration :=
    if 0 <? _playbackStartTime tm
    then totalDuration + (now - _playbackStartTime tm)
    else totalDuration in
  {| IAudioTelemetry.sessionId := _sessionId tm;
     IAudioTelemetry.chunksPlayed := _chunksPlayed tm;
     IAudioTelemetry.chunksDropped := _chunksDropped tm;
     IAudioTelemetry.bufferUnderruns := _bufferUnderruns tm;
     IAudioTelemetry.bufferOverruns := _bufferOverruns tm;
     IAudioTelemetry.averageLatencyMs :=
       (inject_Z (Math_round (avgLatency * 100)) / 100)%Q;
     IAudioTelemetry.peakLatencyMs := _peakLatencyMs tm;
     IAudioTelemetry.averageJitterMs :=
       (inject_Z (Math_round (avgJitter * 100)) / 100)%Q;
     IAudioTelemetry.totalPlaybackDurationMs := totalDuration;
     IAudioTelemetry.streamRestarts := _streamRestarts tm;
     IAudioTelemetry.bufferHealthState := _bufferHealthState tm;
     IAudioTelemetry.lastUpdatedAt := _lastUpdatedAt tm |}.

(** [stopReporting()]. *)
Definition stopReporting (tm : t CB) : t CB :=
  match _reportIntervalId tm with
  | Some id =>
      if id =? 0 then tm  (* a falsy identifier *)
      else
        {| _sessionId := _sessionId tm;
           _chunksPlayed := _chunksPlayed tm;
           _chunksDropped := _chunksDropped tm;
           _bufferUnderruns := _bufferUnderruns tm;
           _bufferOverruns := _bufferOverruns tm;
           _latencyHistory := _latencyHistory tm;
           _peakLatencyMs := _peakLatencyMs tm;
           _jitterHistory := _jitterHistory tm;
           _playbackStartTime := _playbackStartTime tm;
           _totalPlaybackDurationMs := _totalPlaybackDurationMs tm;
           _streamRestarts := _streamRestarts tm;
           _bufferHealthState := _bufferHealthState tm;
           _lastUpdatedAt := _lastUpdatedAt tm;
           _callback := _callback tm;
           _reportIntervalId := None;
           intervals := List.filter (fun i => negb (interval_id i =? id))
             (intervals tm);
           next_interval_id := next_interval_id tm;
           reported := reported tm |}
  | None => tm
  end.

(** [startReporting(callback, intervalMs = 5000)]. *)
Definition startReporting (callback : CB) (intervalMs : option Z)
    (tm : t CB) : t CB :=
  let intervalMs := default DEFAULT_REPORT_INTERVAL_MS intervalMs in
  let tm :=
    {| _sessionId := _sessionId tm;
       _chunksPlayed := _chunksPlayed tm;
       _chunksDropped := _chunksDropped tm;
       _bufferUnderruns := _bufferUnderruns tm;
       _bufferOverruns := _bufferOverruns tm;
       _latencyHistory := _latencyHistory tm;
       _peakLatencyMs := _peakLatencyMs tm;
       _jitterHistory := _jitterHistory tm;
       _playbackStartTime := _playbackStartTime tm;
       _totalPlaybackDurationMs := _totalPlaybackDurationMs tm;
       _streamRestarts := _streamRestarts tm;
       _bufferHealthState := _bufferHealthState tm;
       _lastUpdatedAt := _lastUpdatedAt tm;
       _callback := Some callback;
       _reportIntervalId := _reportIntervalId tm;
       intervals := intervals tm;
       next_interval_id := next_interval_id tm;
       reported := reported tm |} in
  let tm := stopReporting tm in
  {| _sessionId := _sessionId tm;
     _chunksPlayed := _chunksPlayed tm;
     _chunksDropped := _chunksDropped tm;
     _bufferUnderruns := _bufferUnderruns tm;
     _bufferOverruns := _bufferOverruns tm;
     _latencyHistory := _latencyHistory tm;
     _peakLatencyMs := _peakLatencyMs tm;
     _jitterHistory := _jitterHistory tm;
     _playbackStartTime := _playbackStartTime tm;
     _totalPlaybackDurationMs := _totalPlaybackDurationMs tm;
     _streamRestarts := _streamRestarts tm;
     _bufferHealthState := _bufferHealthState tm;
     _lastUpdatedAt := _lastUpdatedAt tm;
     _callback := _callback tm;
     _reportIntervalId := Some (next_interval_id tm);
     intervals := intervals tm
       ++ [{| interval_id := next_interval_id tm;
              interval_ms := intervalMs |}];
     next_interval_id := next_interval_id tm + 1;
     reported := reported tm |}.

(** The function given to [setInterval] runs at time [now]. *)
Definition report (now : Z) (tm : t CB) : t CB :=
  match _callback tm with
  | Some callback =>
      {| _sessionId := _sessionId tm;
         _chunksPlayed := _chunksPlayed tm;
         _chunksDropped := _chunksDropped tm;
         _bufferUnderruns := _bufferUnderruns tm;
         _bufferOverruns := _bufferOverruns tm;
         _latencyHistory := _latencyHistory tm;
         _peakLatencyMs := _peakLatencyMs tm;
         _jitterHistory := _jitterHistory tm;
         _playbackStartTime := _playbackStartTime tm;
         _totalPlaybackDurationMs := _totalPlaybackDurationMs tm;
         _streamRestarts := _streamRestarts tm;
         _bufferHealthState := _bufferHealthState tm;
         _lastUpdatedAt := _lastUpdatedAt tm;
         _callback := _callback tm;
         _reportIntervalId := _reportIntervalId tm;
         intervals := intervals tm;
         next_interval_id := next_interval_id tm;
         reported := reported tm ++ [(callback, getTelemetry now tm)] |}
  | None => tm
  end.

(** The interval of identifier [id] elapses at time [now]: nothing
    happens when no such interval is set. *)
Definition tick (id : Z) (now : Z) (tm : t CB) : t CB :=
  if existsb (fun i => interval_id i =? id) (intervals tm)
  then report now tm
  else tm.

(** [reset()], at time [now]. *)
Definition reset (now : Z) (tm : t CB) : t CB :=
  {| _sessionId := _sessionId tm;
     _chunksPlayed := 0;
     _chunksDropped := 0;
     _bufferUnderruns := 0;
     _bufferOverruns := 0;
     _latencyHistory := [];
     _peakLatencyMs := 0;
     _jitterHistory := [];
     _playbackStartTime := 0;
     _totalPlaybackDurationMs := 0;
     _streamRestarts := 0;
     _bufferHealthState := idle;
     _lastUpdatedAt := now;
     _callback := _callback tm;
     _reportIntervalId := _reportIntervalId tm;
     intervals := intervals tm;
     next_interval_id := next_interval_id tm;
     reported := reported tm |}.

(** [destroy()]. *)
Definition destroy (tm : t CB) : t CB :=
  let tm := stopReporting tm in
  {| _sessionId := _sessionId tm;
     _chunksPlayed := _chunksPlayed tm;
     _chunksDropped := _chunksDropped tm;
     _bufferUnderruns := _bufferUnderruns tm;
     _bufferOverruns := _bufferOverruns tm;
     _latencyHistory := _latencyHistory tm;
     _peakLatencyMs := _peakLatencyMs tm;
     _jitterHistory := _jitterHistory tm;
     _playbackStartTime := _playbackStartTime tm;
     _totalPlaybackDurationMs := _totalPlaybackDurationMs tm;
     _streamRestarts := _streamRestarts tm;
     _bufferHealthState := _bufferHealthState tm;
     _lastUpdatedAt := _lastUpdatedAt tm;
     _callback := None;
     _reportIntervalId := _reportIntervalId tm;
     intervals := intervals tm;
     next_interval_id := next_interval_id tm;
     reported := reported tm |}.

End Methods.

(** One thing that happens to a telemetry manager at some time: a call
    of a method, or an interval that elapses. *)
Inductive op (CB : Type) :=
| RecordChunkPlayed (latencyMs : Q)
| RecordChunkDropped
| RecordUnderrun
| RecordOverrun
| RecordJitter (jitterMs : Q)
| RecordPlaybackStart
| RecordPlaybackStop
| RecordStreamRestart
| UpdateBufferHealthState (state : BufferHealthState)
| StartReporting (callback : CB) (intervalMs : option Z)
| StopReporting
| Reset
| Destroy
| Tick (id : Z).
Arguments RecordChunkPlayed {CB} latencyMs.
Arguments RecordChunkDropped {CB}.
Arguments RecordUnderrun {CB}.
Arguments RecordOverrun {CB}.
Arguments RecordJitter {CB} jitterMs.
Arguments RecordPlaybackStart {CB}.
Arguments RecordPlaybackStop {CB}.
Arguments RecordStreamRestart {CB}.
Arguments UpdateBufferHealthState {CB} state.
Arguments StartReporting {CB} callback intervalMs.
Arguments StopReporting {CB}.
Arguments Reset {CB}.
Arguments Destroy {CB}.
Arguments Tick {CB} id.

Definition step {CB : Type} (o : op CB) (now : Z) (tm : t CB) : t CB :=
  match o with
  | RecordChunkPlayed latencyMs => recordChunkPlayed latencyMs now tm
  | RecordChunkDropped => recordChunkDropped now tm
  | RecordUnderrun => recordUnderrun now tm
  | RecordOverrun => recordOverrun now tm
  | RecordJitter jitterMs => recordJitter jitterMs now tm
  | RecordPlaybackStart => recordPlaybackStart now tm
  | RecordPlaybackStop => recordPlaybackStop now tm
  | RecordStreamRestart => recordStreamRestart now tm
  | UpdateBufferHealthState state => updateBufferHealthState state now tm
  | StartReporting callback intervalMs =>
      startReporting callback intervalMs tm
  | StopReporting => stopReporting tm
  | Reset => reset now tm
  | Destroy => destroy tm
  | Tick id => tick id now tm
  end.

(** The manager after a sequence of such things, each with its time. *)
Definition run {CB : Type} (ops : list (op CB * Z)) (tm : t CB) : t CB :=
  foldl (fun tm '(o, now) => step o now tm) tm ops.

End TelemetryManager.

(** * Notions used to state the properties *)



(** The decoded byte size of a payload as the specification estimates
    it: the number of bytes of binary data; for a string, the length of
    its base64 text, the string without its white space, times 3/4
    minus the number of padding signs. *)
Definition decoded_size (d : AudioDataType) : Q :=
  match d with
  | AVString s =>
      FrameProcessor.estimatedBytes
        (List.filter (fun c => negb (FrameProcessor.is_whitespace c)) s)
  | AVArrayBuffer bytes => inject_Z (Z.of_nat (List.length bytes))
  | AVUint8Array bytes => inject_Z (Z.of_nat (List.length bytes))
  end.


(** The character of the base64 alphabet for six bits. *)
Definition sextet (k : N) : jschar :=
  nth (N.to_nat k) FrameProcessor.chars 0%N.

(** The global [btoa] as the HTML standard defines it on a binary
    string, the base64 encoding of RFC 4648: three bytes give four
    characters, and a last group of one or two bytes is completed with
    the sign [=]. *)
Fixpoint standard_btoa (s : jsstring) : jsstring :=
  match s with
  | [] => []
  | [a] => [sextet (a / 4); sextet (a mod 4 * 16); 61; 61]%N
  | [a; b] =>
      [sextet (a / 4); sextet (a mod 4 * 16 + b / 16);
       sextet (b mod 16 * 4); 61]%N
  | a :: b :: c :: rest =>
      [sextet (a / 4); sextet (a mod 4 * 16 + b / 16);
       sextet (b mod 16 * 4 + c / 64); sextet (c mod 64)]%N
      ++ standard_btoa rest
  end.

(** The platform's [btoa], when there is one, is the standard one on
    binary strings, those of characters below 256. *)
Definition btoa_is_standard (btoa : option (jsstring -> jsstring)) : Prop :=
  forall f, btoa = Some f ->
  forall s, Forall (fun c => (c < 256)%N) s -> f s = standard_btoa s.

(** The sequence numbers of a list of frames. *)
Definition sequenceNumbers (frames : list IAudioFrame) : list Z :=
  sequenceNumber <$> frames.

(** The calls [parseChunk(payload)] at the times given, in order. *)
Definition parse_calls (calls : list (js_payload * Z))
  : list FrameProcessor.op :=
  (fun c => FrameProcessor.ParseChunk c.1 c.2) <$> calls.

(** The delay before retry [k] (from 1) as the specification writes it:
    [min(maxDelayMs, initialDelayMs x backoffMultiplier^(k-1))]. *)
Definition backoff_delay (config : RetryHandler.IRetryConfig) (k : nat) : Q :=
  Qmin (RetryHandler.maxDelayMs config)
       (RetryHandler.initialDelayMs config
        * RetryHandler.backoffMultiplier config ^ (Z.of_nat k - 1))%Q.

(** The delay that [_calculateDelay(attempt)] returns when
    [Math.random()], if called, returns [r]. *)
Definition delay_of (rh : RetryHandler.t) (r : Q) (attempt : nat) : Q :=
  (RetryHandler._calculateDelay rh (fun _ => r) attempt
     RetryHandler.no_effects).1.

(** The operation fails at each of its calls up to the [n]-th. *)
Definition fails_through {T : Type}
    (operation : nat -> RetryHandler.thrown + T) (n : nat) : Prop :=
  forall k, (k <= n)%nat -> exists error, operation k = inl error.

(** What a run of [execute] has done when it settles with [out]: it
    called the operation at least once and at most [maxRetries + 1]
    times; every call but the last failed and was followed by a sleep of
    the delay computed for that attempt; the last call returned the
    value resolved, or was call number [maxRetries + 1] and threw the
    error rejected, made an [Error]. *)
Definition execute_post {T : Type} (rh : RetryHandler.t)
    (operation : nat -> RetryHandler.thrown + T) (random : nat -> Q)
    (out : RetryHandler.outcome T) (e : RetryHandler.effects) : Prop :=
  let maxRetries := RetryHandler.maxRetries (RetryHandler._config rh) in
  (1 <= RetryHandler.calls e <= S maxRetries)%nat
  /\ RetryHandler.sleeps e
     = (fun k => delay_of rh (random k) k)
         <$> seq 0 (RetryHandler.calls e - 1)
  /\ (forall k, (k < RetryHandler.calls e - 1)%nat ->
        exists error, operation k = inl error)
  /\ match out with
     | RetryHandler.Resolved value =>
         operation (RetryHandler.calls e - 1)%nat = inr value
     | RetryHandler.Rejected error =>
         RetryHandler.calls e = S maxRetries
         /\ exists last, operation maxRetries = inl last
                         /\ error = Some (RetryHandler.toError last)
     end.

(** A manager without processor nor monitor, inactive, with a cleared
    buffer and no timer: what [destroy] leaves. *)
Definition destroyed {QM : Type} (m : AudioBufferManager.t QM) : Prop :=
  AudioBufferManager._isActive m = false
  /\ AudioBufferManager._frameProcessor m = None
  /\ AudioBufferManager._qualityMonitor m = None
  /\ AudioBufferManager._buffer m
     = RingBuffer.clear (AudioBufferManager._buffer m)
  /\ AudioBufferManager._nextSequenceNumber m = 0
  /\ (AudioBufferManager._playbackTimer m = None
      \/ AudioBufferManager._playbackTimer m = Some 0).

(** Two managers have the same configuration and the same activity. *)
Definition same_setup {QM : Type} (m1 m2 : AudioBufferManager.t QM) : Prop :=
  AudioBufferManager._config m1 = AudioBufferManager._config m2
  /\ AudioBufferManager._isActive m1 = AudioBufferManager._isActive m2.

(** A frame for examples: sequence number [n], [d] milliseconds of
    the payload [AAAA]. *)
Definition sample_frame (n d : Z) : IAudioFrame :=
  {| sequenceNumber := n;
     data := {| audioData := AVString (str "AAAA");
                isFirst := Some false; isFinal := Some false |};
     duration := d;
     timestamp := 1000 + n |}.

(** [x % capacity] for an index at most one lap beyond the array. *)
Definition wrap (capacity x : Z) : Z :=
  if x <? capacity then x else x - capacity.

(** Sum of a list of integers. *)
Definition Zsum (l : list Z) : Z := foldr Z.add 0 l.

(** The weight of an optional frame; [null] counts for nothing. *)
Definition slot_weight (weight : IAudioFrame -> Z)
    (slot : option IAudioFrame) : Z :=
  from_option weight 0 slot.

(** The position in the queue of the frame held by slot [i], when the
    oldest frame is in slot [tail]. *)
Definition slot_pos (capacity tail i : Z) : Z :=
  if tail <=? i then i - tail else i - tail + capacity.

(** [repr capacity rb q]: the buffer [rb], of capacity [capacity], holds
    exactly the frames of the queue [q], oldest first, from slot [_tail]
    on, and [null] in every other slot. *)
Record repr (capacity : Z) (rb : RingBuffer.t) (q : list IAudioFrame)
  : Prop := {
  repr_capacity : RingBuffer._capacity rb = capacity;
  repr_tail : 0 <= RingBuffer._tail rb < capacity;
  repr_size : RingBuffer._size rb = Z.of_nat (List.length q);
  repr_bound : RingBuffer._size rb <= capacity;
  repr_head :
    RingBuffer._head rb =
      wrap capacity (RingBuffer._tail rb + RingBuffer._size rb);
  repr_slots : forall i,
    RingBuffer._buffer rb !! i =
      if (0 <=? i) && (i <? capacity)
      then lookupZ q (slot_pos capacity (RingBuffer._tail rb) i)
      else None
}.

(** A manager for examples: the default configuration, a buffer of 150
    slots that holds given frames, no timer. *)
Definition sample_manager (active : bool) (frames : list IAudioFrame)
  : AudioBufferManager.t unit :=
  {| AudioBufferManager._buffer :=
       RingBuffer.run (RingBuffer.Push <$> frames) (RingBuffer.new 150);
     AudioBufferManager._config :=
       {| IAudioBufferConfig.targetBufferMs := 240;
          IAudioBufferConfig.minBufferMs := 120;
          IAudioBufferConfig.maxBufferMs := 480;
          IAudioBufferConfig.frameIntervalMs := 20;
          IAudioBufferConfig.sampleRate := Some 16000 |};
     AudioBufferManager._frameProcessor := Some FrameProcessor.new_default;
     AudioBufferManager._qualityMonitor := Some tt;
     AudioBufferManager._playbackTimer := None;
     AudioBufferManager._isActive := active;
     AudioBufferManager._lastPlaybackTime := 0;
     AudioBufferManager._nextSequenceNumber := 0;
     AudioBufferManager._currentTurnId := None;
     AudioBufferManager._encoding := PCM_S16LE;
     AudioBufferManager.pending := [];
     AudioBufferManager.next_timer_id := 1;
     AudioBufferManager.played := [] |}.

(** The identifier under which [_playNextFrame] plays a frame. *)
Definition playback_id (turnId : option jsstring) (frame : IAudioFrame)
  : jsstring :=
  match turnId with
  | Some (c :: turnId) =>
      (c :: turnId) ++ str "-frame-"
        ++ AudioBufferManager.number_text (sequenceNumber frame)
  | _ =>
      str "buffered-frame-"
        ++ AudioBufferManager.number_text (sequenceNumber frame)
  end.

(** What [_playNextFrame] hands to [playSound] for a frame. *)
Definition playback_of {QM : Type} (m : AudioBufferManager.t QM)
    (frame : IAudioFrame) : AudioDataType * jsstring * Encoding :=
  (audioData (data frame),
   playback_id (AudioBufferManager._currentTurnId m) frame,
   AudioBufferManager._encoding m).

(** The frame of silence that [_insertSilenceFrame] builds at time
    [now]. *)
Definition silence_of {QM : Type} (env : platform) (now : Z)
    (m : AudioBufferManager.t QM) : IAudioFrame :=
  {| sequenceNumber := AudioBufferManager._nextSequenceNumber m;
     data :=
       {| audioData :=
            AVString
              (FrameProcessor._binaryToBase64 (btoa env)
                 (repeat "000"%byte
                    (Z.to_nat
                       (IAudioBufferConfig.frameIntervalMs
                          (AudioBufferManager._config m)
                        * default 16000
                            (IAudioBufferConfig.sampleRate
                               (AudioBufferManager._config m))
                        / 1000 * AudioBufferManager._getBytesPerSample m))));
          isFirst := Some false; isFinal := Some false |};
     duration :=
       IAudioBufferConfig.frameIntervalMs (AudioBufferManager._config m);
     timestamp := now |}.



(** The events [Fires id] for identifiers and times given. *)
Definition firings (timers : list (Z * Z))
  : list (AudioBufferManager.event * Z) :=
  (fun t => (AudioBufferManager.Fires t.1, t.2)) <$> timers.

(** The last [n] elements of a list. *)
Definition last_n {A : Type} (n : nat) (l : list A) : list A :=
  drop (List.length l - n) l.

(** The latencies that a sequence of events has recorded since the
    last [reset], the first one first. *)
Definition latencies {CB : Type} (ops : list (TelemetryManager.op CB * Z))
  : list Q :=
  foldl (fun acc '(o, _) =>
           match o with
           | TelemetryManager.Reset => []
           | TelemetryManager.RecordChunkPlayed latencyMs =>
               acc ++ [latencyMs]
           | _ => acc
           end) [] ops.

(** The jitters recorded since the last [reset]. *)
Definition jitters {CB : Type} (ops : list (TelemetryManager.op CB * Z))
  : list Q :=
  foldl (fun acc '(o, _) =>
           match o with
           | TelemetryManager.Reset => []
           | TelemetryManager.RecordJitter jitterMs => acc ++ [jitterMs]
           | _ => acc
           end) [] ops.

(** The number of events of some kind since the last [reset]. *)
Definition count_since_reset {CB : Type}
    (kind : TelemetryManager.op CB -> bool)
    (ops : list (TelemetryManager.op CB * Z)) : Z :=
  foldl (fun acc '(o, _) =>
           match o with
           | TelemetryManager.Reset => 0
           | _ => if kind o then acc + 1 else acc
           end) 0 ops.

(** An event that does not make the frame interval negative. *)
Definition keeps_interval (ev : AudioBufferManager.event) : bool :=
  match ev with
  | AudioBufferManager.Called (AudioBufferManager.UpdateConfig config) =>
      match IAudioBufferConfig.p_frameIntervalMs config with
      | Some frameIntervalMs => 0 <=? frameIntervalMs
      | None => true
      end
  | _ => true
  end.

(** What holds of a manager all along: its buffer holds a queue of
    frames of capacity [capacity], no frame has a negative duration,
    and no frame interval is negative. *)
Definition manager_inv {QM : Type} (capacity : Z)
    (m : AudioBufferManager.t QM) : Prop :=
  (exists q, repr capacity (AudioBufferManager._buffer m) q
             /\ Forall (fun frame => 0 <= duration frame) q)
  /\ 0 <= IAudioBufferConfig.frameIntervalMs (AudioBufferManager._config m)
  /\ match AudioBufferManager._frameProcessor m with
     | Some fp => 0 <= FrameProcessor._frameIntervalMs fp
     | None => True
     end.

(** * Properties *)

(** ** Arithmetic of wrapped indices *)

Lemma rem_wrap (c x : Z) : 0 < c -> 0 <= x < 2 * c -> Z.rem x c = wrap c x.
Proof.
  intros Hc Hx. unfold wrap. rewrite Z.rem_mod_nonneg by lia.
  destruct (Z.ltb_spec x c).
  - apply Z.mod_small. lia.
  - replace x with ((x - c) + 1 * c) at 1 by lia.
    rewrite Z_mod_plus_full. apply Z.mod_small. lia.
Qed.

(** ** Lists read at an integer position *)

Section LookupZ.
Context {A : Type}.
Implicit Types (q : list A) (k : Z).

Lemma lookupZ_ge q k : Z.of_nat (List.length q) <= k -> lookupZ q k = None.
Proof.
  intros H. unfold lookupZ. destruct (Z.ltb_spec k 0); [done|].
  apply lookup_ge_None. lia.
Qed.

Lemma lookupZ_neg q k : k < 0 -> lookupZ q k = None.
Proof. intros H. unfold lookupZ. destruct (Z.ltb_spec k 0); [done|lia]. Qed.

Lemma lookupZ_snoc q x k :
  lookupZ (q ++ [x]) k =
    if k =? Z.of_nat (List.length q) then Some x else lookupZ q k.
Proof.
  unfold lookupZ. destruct (Z.ltb_spec k 0), (Z.eqb_spec k (Z.of_nat (List.length q)));
    try done; try lia.
  - subst k. rewrite Nat2Z.id. by rewrite list_lookup_middle.
  - destruct (decide (Z.to_nat k < List.length q)%nat).
    + by rewrite lookup_app_l.
    + rewrite !lookup_ge_None_2; [done|lia|].
      rewrite length_app. simpl. lia.
Qed.

Lemma lookupZ_drop q (n : nat) k :
  lookupZ (drop n q) k = if k <? 0 then None else lookupZ q (k + Z.of_nat n).
Proof.
  unfold lookupZ. destruct (Z.ltb_spec k 0); [done|].
  destruct (Z.ltb_spec (k + Z.of_nat n) 0); [lia|].
  rewrite lookup_drop. f_equal. lia.
Qed.

Lemma lookupZ_cons q x k :
  lookupZ (x :: q) k = if k =? 0 then Some x else lookupZ q (k - 1).
Proof.
  unfold lookupZ. destruct (Z.eqb_spec k 0) as [->|]; [done|].
  destruct (Z.ltb_spec k 0), (Z.ltb_spec (k - 1) 0); try done; try lia.
  replace (Z.to_nat k) with (S (Z.to_nat (k - 1))) by lia. done.
Qed.

Lemma lookupZ_take q (n : nat) k :
  lookupZ (take n q) k = if k <? Z.of_nat n then lookupZ q k else None.
Proof.
  unfold lookupZ. destruct (Z.ltb_spec k 0), (Z.ltb_spec k (Z.of_nat n));
    try done.
  - rewrite lookup_take_lt; [done|lia].
  - apply lookup_take_ge. lia.
Qed.
End LookupZ.

(** ** The ring buffer refines a bounded queue *)

(** Case analysis on every integer comparison of the goal. *)
Ltac split_cmp :=
  repeat match goal with
    | |- context [Z.geb ?a ?b] => rewrite (Z.geb_leb a b)
    | H : context [Z.geb ?a ?b] |- _ => rewrite (Z.geb_leb a b) in H
    | |- context [Z.ltb ?a ?b] => destruct (Z.ltb_spec a b)
    | |- context [Z.leb ?a ?b] => destruct (Z.leb_spec a b)
    | |- context [Z.eqb ?a ?b] => destruct (Z.eqb_spec a b)
    | H : context [Z.ltb ?a ?b] |- _ => destruct (Z.ltb_spec a b)
    | H : context [Z.leb ?a ?b] |- _ => destruct (Z.leb_spec a b)
    | H : context [Z.eqb ?a ?b] |- _ => destruct (Z.eqb_spec a b)
    end.

(** Reads of a queue at positions that [lia] can compare. *)
Ltac read_queue :=
  rewrite ?lookupZ_snoc, ?lookupZ_cons, ?lookupZ_take, ?lookupZ_drop;
  unfold slot_pos, wrap in *; simpl; split_cmp;
  rewrite ?length_app, ?length_drop, ?length_take in *; simpl in *;
  first
    [ done
    | lia
    | f_equal; lia
    | apply lookupZ_ge; lia
    | symmetry; apply lookupZ_ge; lia
    | apply lookupZ_neg; lia
    | symmetry; apply lookupZ_neg; lia ].

Section RingBufferRefinement.
Variable capacity : Z.
Hypothesis capacity_pos : 0 < capacity.

Lemma repr_new : repr capacity (RingBuffer.new capacity) [].
Proof.
  constructor; simpl; try lia.
  - unfold wrap. split_cmp; lia.
  - intros i. rewrite lookup_empty. unfold lookupZ.
    repeat case_match; by rewrite ?lookup_nil.
Qed.

Lemma repr_push frame rb q :
  repr capacity rb q ->
  repr capacity (RingBuffer.push frame rb).2
    (RingBuffer.queue_step capacity q (RingBuffer.Push frame)).
Proof.
  intros [Hc Ht Hs Hb Hh Hsl]. unfold RingBuffer.push. simpl.
  rewrite Hc, Hs, Hh, Hs.
  assert (Hlen : Z.of_nat (List.length q) <= capacity) by lia.
  clear Hb Hh Hs Hc.
  rewrite !rem_wrap by (unfold wrap; split_cmp; lia).
  rewrite Z.geb_leb.
  destruct (Z.leb_spec capacity (Z.of_nat (List.length q))) as [Hfull|Hfree];
    constructor; simpl; rewrite ?length_app, ?length_drop; simpl;
    try (unfold wrap; split_cmp; lia).
  - intros i. rewrite lookup_insert, Hsl. case_decide; subst.
    + read_queue.
    + destruct (Z.leb_spec 0 i), (Z.ltb_spec i capacity); simpl; try done.
      read_queue.
  - intros i. rewrite lookup_insert, Hsl. case_decide; subst.
    + read_queue.
    + destruct (Z.leb_spec 0 i), (Z.ltb_spec i capacity); simpl; try done.
      read_queue.
Qed.

(** Dropping the oldest frame: the step shared by [shift] and by the
    loop of [dropOldest]. *)
Lemma repr_advance rb q :
  repr capacity rb q -> (0 < List.length q)%nat ->
  repr capacity
    {| RingBuffer._buffer :=
         delete (RingBuffer._tail rb) (RingBuffer._buffer rb);
       RingBuffer._capacity := RingBuffer._capacity rb;
       RingBuffer._head := RingBuffer._head rb;
       RingBuffer._tail :=
         Z.rem (RingBuffer._tail rb + 1) (RingBuffer._capacity rb);
       RingBuffer._size := RingBuffer._size rb - 1 |}
    (drop 1 q).
Proof.
  intros [Hc Ht Hs Hb Hh Hsl] Hq.
  constructor; simpl; rewrite ?Hc, ?Hs, ?Hh, ?length_drop;
    rewrite ?rem_wrap by lia; try (unfold wrap; split_cmp; lia).
  assert (Hlen : Z.of_nat (List.length q) <= capacity) by lia.
  clear Hc Hs Hh Hb.
  intros i. rewrite lookup_delete, Hsl. case_decide; subst.
  - read_queue.
  - destruct (Z.leb_spec 0 i), (Z.ltb_spec i capacity); simpl; try done.
    read_queue.
Qed.

Lemma repr_nil_size rb q :
  repr capacity rb q -> RingBuffer._size rb = 0 -> q = [].
Proof.
  intros H Hz. rewrite (repr_size _ _ _ H) in Hz. destruct q; [done|].
  simpl in Hz. lia.
Qed.

Lemma repr_shift rb q :
  repr capacity rb q ->
  repr capacity (RingBuffer.shift rb).2
    (RingBuffer.queue_step capacity q RingBuffer.Shift).
Proof.
  intros H. unfold RingBuffer.shift.
  destruct (Z.eqb_spec (RingBuffer._size rb) 0) as [Hz|Hz]; simpl.
  - by pose proof (repr_nil_size _ _ H Hz) as ->.
  - apply repr_advance; [done|]. rewrite (repr_size _ _ _ H) in Hz. lia.
Qed.

(** [shift] returns the oldest frame, or [null] on an empty buffer. *)
Lemma shift_result rb q :
  repr capacity rb q -> (RingBuffer.shift rb).1 = head q.
Proof.
  intros H. unfold RingBuffer.shift.
  destruct (Z.eqb_spec (RingBuffer._size rb) 0) as [Hz|Hz]; simpl.
  - by pose proof (repr_nil_size _ _ H Hz) as ->.
  - destruct H as [Hc Ht Hs Hb Hh Hsl]. rewrite Hsl.
    destruct (Z.leb_spec 0 (RingBuffer._tail rb)),
      (Z.ltb_spec (RingBuffer._tail rb) capacity); try lia. simpl.
    unfold slot_pos. rewrite Z.leb_refl, Z.sub_diag.
    by destruct q.
Qed.

Lemma repr_unshift frame rb q :
  repr capacity rb q ->
  repr capacity (RingBuffer.unshift frame rb)
    (RingBuffer.queue_step capacity q (RingBuffer.Unshift frame)).
Proof.
  intros [Hc Ht Hs Hb Hh Hsl]. unfold RingBuffer.unshift. simpl.
  rewrite Hc, Hs, Hh, Hs.
  assert (Hlen : Z.of_nat (List.length q) <= capacity) by lia.
  clear Hb Hh Hs Hc.
  rewrite !rem_wrap by (unfold wrap; split_cmp; lia).
  rewrite Z.geb_leb.
  destruct (Z.leb_spec capacity (Z.of_nat (List.length q))) as [Hfull|Hfree];
    constructor; simpl; rewrite ?length_take; simpl;
    try (unfold wrap; split_cmp; lia).
  - intros i. rewrite lookup_insert, lookup_delete, Hsl.
    repeat case_decide; subst;
      try (destruct (Z.leb_spec 0 i), (Z.ltb_spec i capacity); simpl;
           try done);
      read_queue.
  - intros i. rewrite lookup_insert, Hsl. case_decide; subst.
    + read_queue.
    + destruct (Z.leb_spec 0 i), (Z.ltb_spec i capacity); simpl; try done.
      read_queue.
Qed.

Lemma repr_drop_loop (n : nat) : forall rb q,
  repr capacity rb q -> (n <= List.length q)%nat ->
  repr capacity
    {| RingBuffer._buffer :=
         (RingBuffer.drop_loop (RingBuffer._capacity rb) n
            (RingBuffer._buffer rb) (RingBuffer._tail rb)).1;
       RingBuffer._capacity := RingBuffer._capacity rb;
       RingBuffer._head := RingBuffer._head rb;
       RingBuffer._tail :=
         (RingBuffer.drop_loop (RingBuffer._capacity rb) n
            (RingBuffer._buffer rb) (RingBuffer._tail rb)).2;
       RingBuffer._size := RingBuffer._size rb - Z.of_nat n |}
    (drop n q).
Proof.
  induction n as [|n IH]; intros rb q H Hn.
  - simpl. rewrite Z.sub_0_r, drop_0. by destruct rb.
  - pose proof (repr_advance rb q H ltac:(lia)) as H1.
    specialize (IH _ _ H1). simpl in IH.
    rewrite length_drop, drop_drop in IH. specialize (IH ltac:(lia)).
    cbn [RingBuffer.drop_loop].
    replace (RingBuffer._size rb - Z.of_nat (S n))
      with (RingBuffer._size rb - 1 - Z.of_nat n) by lia.
    exact IH.
Qed.

Lemma repr_dropOldest (count : nat) rb q :
  repr capacity rb q ->
  repr capacity (RingBuffer.dropOldest (Z.of_nat count) rb).2
    (RingBuffer.queue_step capacity q (RingBuffer.DropOldest count)).
Proof.
  intros H. unfold RingBuffer.dropOldest.
  pose proof (repr_size _ _ _ H) as Hs.
  set (toDrop := Z.min (Z.of_nat count) (RingBuffer._size rb)).
  pose proof (repr_drop_loop (Z.to_nat toDrop) rb q H ltac:(lia)) as HL.
  destruct (RingBuffer.drop_loop _ _ _ _) as [buffer tail]. simpl in *.
  rewrite Z2Nat.id in HL by lia.
  replace (drop count q) with (drop (Z.to_nat toDrop) q); [done|].
  destruct (decide (count <= List.length q)%nat).
  - f_equal. lia.
  - rewrite !drop_ge; [done|lia|lia].
Qed.

Lemma dropOldest_result (count : nat) rb q :
  repr capacity rb q ->
  (RingBuffer.dropOldest (Z.of_nat count) rb).1
  = Z.of_nat (Nat.min count (List.length q)).
Proof.
  intros H. unfold RingBuffer.dropOldest.
  destruct (RingBuffer.drop_loop _ _ _ _). simpl.
  rewrite (repr_size _ _ _ H). lia.
Qed.

Lemma lookup_clear_slots (n : nat) : forall i buffer j,
  RingBuffer.clear_slots n i buffer !! j =
    if (i <=? j) && (j <? i + Z.of_nat n) then None else buffer !! j.
Proof.
  induction n as [|n IH]; intros i buffer j; simpl RingBuffer.clear_slots.
  - split_cmp; simpl; try done; lia.
  - rewrite IH, lookup_delete. case_decide; split_cmp; simpl; try done; lia.
Qed.

Lemma repr_clear rb q :
  repr capacity rb q -> repr capacity (RingBuffer.clear rb) [].
Proof.
  intros [Hc Ht Hs Hb Hh Hsl].
  constructor; simpl; try lia.
  - unfold wrap. split_cmp; lia.
  - intros i. rewrite lookup_clear_slots, Hsl, Hc.
    rewrite Z2Nat.id, Z.add_0_l by lia.
    destruct ((0 <=? i) && (i <? capacity)); [|done].
    unfold lookupZ. case_match; by rewrite ?lookup_nil.
Qed.

Lemma repr_step rb q o :
  repr capacity rb q ->
  repr capacity (RingBuffer.step rb o) (RingBuffer.queue_step capacity q o).
Proof.
  destruct o; simpl RingBuffer.step.
  - apply repr_push.
  - apply repr_shift.
  - apply repr_unshift.
  - apply repr_dropOldest.
  - apply repr_clear.
Qed.

(** Every sequence of calls keeps the buffer in step with the queue. *)
Lemma repr_run ops : forall rb q,
  repr capacity rb q ->
  repr capacity (RingBuffer.run ops rb) (RingBuffer.queue_run capacity ops q).
Proof.
  induction ops as [|o ops IH]; intros rb q H; [done|].
  apply IH, repr_step, H.
Qed.
End RingBufferRefinement.

(** ** What the reading loops of the ring buffer compute *)

Lemma Zsum_cons (x : Z) (l : list Z) : Zsum (x :: l) = x + Zsum l.
Proof. done. Qed.

Lemma Zsum_app (l k : list Z) : Zsum (l ++ k) = Zsum l + Zsum k.
Proof. induction l as [|x l IH]; simpl; [done|]. rewrite IH. lia. Qed.

Lemma Zsum_zero (l : list Z) : Forall (fun x => x = 0) l -> Zsum l = 0.
Proof. induction 1 as [|x l -> _ IH]; simpl; [done|]. by rewrite IH. Qed.

Lemma Zsum_seqZ_shift (h : Z -> Z) (a n : Z) :
  Zsum (h <$> seqZ a n) = Zsum ((fun k => h (a + k)) <$> seqZ 0 n).
Proof.
  rewrite <- (Z.add_0_r a) at 1. rewrite <- fmap_add_seqZ.
  by rewrite <- list_fmap_compose.
Qed.

Lemma Zsum_seqZ_ext (h1 h2 : Z -> Z) (a n : Z) :
  (forall k, a <= k < a + n -> h1 k = h2 k) ->
  Zsum (h1 <$> seqZ a n) = Zsum (h2 <$> seqZ a n).
Proof.
  intros H. f_equal. apply list_fmap_ext. intros i k Hk.
  apply H. apply elem_of_seqZ. by eapply list_elem_of_lookup_2.
Qed.

Lemma weights_Zsum (weight : IAudioFrame -> Z) (q : list IAudioFrame)
    (acc : Z) :
  foldl (fun a frame => a + weight frame) acc q
  = acc + Zsum (weight <$> q).
Proof.
  revert acc. induction q as [|f q IH]; intros acc.
  - cbn. lia.
  - cbn [foldl]. rewrite IH, fmap_cons, Zsum_cons. lia.
Qed.

(** Summing the weights of a queue position by position. *)
Lemma Zsum_lookupZ (weight : IAudioFrame -> Z) (q : list IAudioFrame) :
  Zsum ((fun k => slot_weight weight (lookupZ q k))
          <$> seqZ 0 (Z.of_nat (List.length q)))
  = Zsum (weight <$> q).
Proof.
  induction q as [|f q IH]; [done|].
  rewrite seqZ_cons by (simpl; lia). rewrite !fmap_cons, !Zsum_cons, <- IH.
  f_equal. replace (Z.pred (Z.of_nat (List.length (f :: q))))
    with (Z.of_nat (List.length q)) by (simpl; lia).
  rewrite Zsum_seqZ_shift. apply Zsum_seqZ_ext. intros k Hk.
  rewrite lookupZ_cons. split_cmp; [lia|]. do 2 f_equal. lia.
Qed.

Lemma Zsum_ones {A : Type} (q : list A) :
  Zsum ((fun _ => 1) <$> q) = Z.of_nat (List.length q).
Proof.
  induction q as [|x q IH]; [done|].
  rewrite fmap_cons, Zsum_cons, IH. simpl List.length. lia.
Qed.

Section RingBufferReads.
Variable capacity : Z.
Hypothesis capacity_pos : 0 < capacity.

(** The slot that holds the frame at position [j] of the queue. *)
Lemma repr_window rb q j :
  repr capacity rb q -> 0 <= j < Z.of_nat (List.length q) ->
  RingBuffer._buffer rb !! wrap capacity (RingBuffer._tail rb + j)
  = lookupZ q j.
Proof.
  intros [Hc Ht Hs Hb Hh Hsl] Hj. rewrite Hsl.
  assert (Hlen : Z.of_nat (List.length q) <= capacity) by lia.
  unfold wrap, slot_pos. split_cmp; simpl; try lia; f_equal; lia.
Qed.

Lemma total_loop_window buffer (q : list IAudioFrame) :
  forall index acc,
  0 <= index < capacity -> Z.of_nat (List.length q) <= capacity ->
  (forall j, 0 <= j < Z.of_nat (List.length q) ->
     buffer !! wrap capacity (index + j) = lookupZ q j) ->
  RingBuffer.total_loop buffer capacity (List.length q) index acc
  = foldl (fun a frame => a + duration frame) acc q.
Proof.
  induction q as [|f q IH]; intros index acc Hi Hlen H; [done|].
  simpl List.length in *. cbn [RingBuffer.total_loop foldl].
  pose proof (H 0 ltac:(lia)) as H0. rewrite Z.add_0_r in H0.
  unfold wrap in H0 at 1. destruct (Z.ltb_spec index capacity); [|lia].
  rewrite H0. cbn [lookupZ Z.ltb Z.compare Z.to_nat lookup list_lookup].
  rewrite rem_wrap by lia. apply IH.
  - unfold wrap. split_cmp; lia.
  - lia.
  - intros j Hj. specialize (H (j + 1) ltac:(lia)).
    rewrite lookupZ_cons in H.
    destruct (Z.eqb_spec (j + 1) 0); [lia|].
    replace (j + 1 - 1) with j in H by lia. rewrite <- H.
    f_equal. unfold wrap. split_cmp; lia.
Qed.

Lemma forEach_loop_window buffer (q : list IAudioFrame) :
  forall index count,
  0 <= index < capacity -> Z.of_nat (List.length q) <= capacity ->
  (forall j, 0 <= j < Z.of_nat (List.length q) ->
     buffer !! wrap capacity (index + j) = lookupZ q j) ->
  RingBuffer.forEach_loop buffer capacity (List.length q) index count
  = zip q (seqZ count (Z.of_nat (List.length q))).
Proof.
  induction q as [|f q IH]; intros index count Hi Hlen H; [done|].
  rewrite seqZ_cons by (simpl; lia).
  simpl List.length in *. cbn [RingBuffer.forEach_loop zip zip_with].
  pose proof (H 0 ltac:(lia)) as H0. rewrite Z.add_0_r in H0.
  unfold wrap in H0 at 1. destruct (Z.ltb_spec index capacity); [|lia].
  rewrite H0. cbn [lookupZ Z.ltb Z.compare Z.to_nat lookup list_lookup].
  rewrite rem_wrap by lia. f_equal.
  replace (Z.pred (Z.of_nat (S (List.length q))))
    with (Z.of_nat (List.length q)) by lia.
  apply IH.
  - unfold wrap. split_cmp; lia.
  - lia.
  - intros j Hj. specialize (H (j + 1) ltac:(lia)).
    rewrite lookupZ_cons in H.
    destruct (Z.eqb_spec (j + 1) 0); [lia|].
    replace (j + 1 - 1) with j in H by lia. rewrite <- H.
    f_equal. unfold wrap. split_cmp; lia.
Qed.

(** [getTotalDurationMs] sums the queue, oldest frame first. *)
Lemma getTotalDurationMs_repr rb q :
  repr capacity rb q ->
  RingBuffer.getTotalDurationMs rb = RingBuffer.durations q.
Proof.
  intros H. unfold RingBuffer.getTotalDurationMs, RingBuffer.durations.
  pose proof (repr_size _ _ _ H) as Hs.
  destruct (Z.eqb_spec (RingBuffer._size rb) 0) as [Hz|Hz].
  - destruct q; [done|]. simpl in Hs. lia.
  - rewrite Hs, Nat2Z.id, (repr_capacity _ _ _ H).
    apply total_loop_window.
    + apply (repr_tail _ _ _ H).
    + pose proof (repr_bound _ _ _ H). lia.
    + intros j Hj. by apply repr_window.
Qed.

(** [forEach] visits the queue, oldest frame first, numbering from 0. *)
Lemma forEach_repr rb q :
  repr capacity rb q ->
  RingBuffer.forEach rb = zip q (seqZ 0 (Z.of_nat (List.length q))).
Proof.
  intros H. unfold RingBuffer.forEach.
  pose proof (repr_size _ _ _ H) as Hs.
  rewrite Hs, Nat2Z.id, (repr_capacity _ _ _ H).
  apply forEach_loop_window.
  - apply (repr_tail _ _ _ H).
  - pose proof (repr_bound _ _ _ H). lia.
  - intros j Hj. by apply repr_window.
Qed.

Lemma frames_repr rb q : repr capacity rb q -> RingBuffer.frames rb = q.
Proof.
  intros H. unfold RingBuffer.frames. rewrite (forEach_repr _ _ H).
  apply fst_zip. rewrite length_seqZ. lia.
Qed.

Lemma occupied_sum_slots (weight : IAudioFrame -> Z)
    (buffer : gmap Z IAudioFrame) (l : list Z) :
  forall acc,
  foldl (fun a i => match buffer !! i with
                    | Some frame => a + weight frame
                    | None => a
                    end) acc l
  = acc + Zsum ((fun i => slot_weight weight (buffer !! i)) <$> l).
Proof.
  induction l as [|i l IH]; intros acc.
  - cbn. lia.
  - cbn [foldl]. rewrite IH, fmap_cons, Zsum_cons.
    destruct (buffer !! i); simpl; lia.
Qed.

(** The frames found in the array are those of the queue. *)
Lemma occupied_sum_repr (weight : IAudioFrame -> Z) rb q :
  repr capacity rb q ->
  RingBuffer.occupied_sum weight rb = Zsum (weight <$> q).
Proof.
  intros [Hc Ht Hs Hb Hh Hsl].
  unfold RingBuffer.occupied_sum.
  rewrite occupied_sum_slots, Hc, Z.add_0_l.
  rewrite <- Zsum_lookupZ.
  set (dq := fun k => slot_weight weight (lookupZ q k)).
  set (tail := RingBuffer._tail rb) in *.
  set (len := Z.of_nat (List.length q)) in *.
  replace capacity with (tail + (capacity - tail)) at 1 by lia.
  rewrite seqZ_app, fmap_app, Zsum_app by lia.
  rewrite (Zsum_seqZ_ext _ (fun i => dq (i - tail + capacity)) 0 tail).
  2:{ intros i Hi. rewrite Hsl. unfold slot_pos. split_cmp; try lia. done. }
  rewrite Z.add_0_l.
  rewrite (Zsum_seqZ_ext _ (fun i => dq (i - tail)) tail (capacity - tail)).
  2:{ intros i Hi. rewrite Hsl. unfold slot_pos. split_cmp; try lia. done. }
  rewrite (Zsum_seqZ_shift _ tail).
  rewrite (Zsum_seqZ_ext _ dq 0 (capacity - tail))
    by (intros k Hk; f_equal; lia).
  rewrite (Zsum_seqZ_ext (fun i => dq (i - tail + capacity))
             (fun i => dq ((capacity - tail) + i)) 0 tail)
    by (intros k Hk; f_equal; lia).
  rewrite <- (Zsum_seqZ_shift dq (capacity - tail) tail).
  rewrite Z.add_comm, <- Zsum_app, <- fmap_app.
  rewrite <- (Z.add_0_l (capacity - tail)) at 2.
  rewrite <- seqZ_app by lia.
  replace (capacity - tail + tail) with (len + (capacity - len)) by lia.
  rewrite seqZ_app, fmap_app, Zsum_app by lia.
  rewrite (Zsum_zero (dq <$> seqZ (0 + len) (capacity - len))); [lia|].
  apply Forall_fmap, Forall_seqZ. intros k Hk. unfold dq, compose.
  rewrite lookupZ_ge; [done|]. fold len. lia.
Qed.

Lemma occupied_total_repr rb q :
  repr capacity rb q ->
  RingBuffer.occupied_total rb = RingBuffer.durations q.
Proof.
  intros H. unfold RingBuffer.occupied_total, RingBuffer.durations.
  by rewrite (occupied_sum_repr _ _ _ H), weights_Zsum.
Qed.

Lemma occupied_count_repr rb q :
  repr capacity rb q ->
  RingBuffer.occupied_count rb = Z.of_nat (List.length q).
Proof.
  intros H. unfold RingBuffer.occupied_count.
  by rewrite (occupied_sum_repr _ _ _ H), Zsum_ones.
Qed.

(** No frame is kept outside of the slots [0 .. capacity-1]. *)
Lemma repr_slot_range rb q i :
  repr capacity rb q -> is_Some (RingBuffer._buffer rb !! i) ->
  0 <= i < capacity.
Proof.
  intros H [f Hf]. rewrite (repr_slots _ _ _ H) in Hf.
  destruct (Z.leb_spec 0 i), (Z.ltb_spec i capacity); simpl in Hf; done.
Qed.
End RingBufferReads.

(** ** Claims on the ring buffer *)

Lemma queue_run_pushes (capacity : Z) (pushed : list IAudioFrame) :
  0 < capacity ->
  RingBuffer.queue_run capacity (RingBuffer.Push <$> pushed) []
  = drop (List.length pushed - Z.to_nat capacity) pushed.
Proof.
  intros Hc. unfold RingBuffer.queue_run.
  induction pushed as [|f fs IH] using rev_ind; [done|].
  rewrite fmap_app, foldl_app, IH. simpl.
  rewrite length_drop, length_app, Z.geb_leb. simpl.
  destruct (Z.leb_spec capacity
              (Z.of_nat (List.length fs - (List.length fs - Z.to_nat capacity)))).
  - rewrite drop_drop, drop_app_le by lia. do 2 f_equal. lia.
  - replace (List.length fs - Z.to_nat capacity)%nat with 0%nat by lia.
    replace (List.length fs + 1 - Z.to_nat capacity)%nat with 0%nat by lia.
    done.
Qed.

Lemma push_result frame rb : (RingBuffer.push frame rb).1 = true.
Proof. unfold RingBuffer.push. by destruct (_ >=? _). Qed.

(** Some sequences of calls run on a buffer of two slots. *)
Example push_overwrites_oldest :
  RingBuffer.frames
    (RingBuffer.run
       [RingBuffer.Push (sample_frame 0 20); RingBuffer.Push (sample_frame 1 20);
        RingBuffer.Push (sample_frame 2 20)]
       (RingBuffer.new 2))
  = [sample_frame 1 20; sample_frame 2 20].
Proof. vm_compute. reflexivity. Qed.

Example total_after_interleaving :
  RingBuffer.getTotalDurationMs
    (RingBuffer.run
       [RingBuffer.Push (sample_frame 0 20); RingBuffer.Push (sample_frame 1 30);
        RingBuffer.Shift; RingBuffer.Push (sample_frame 2 40);
        RingBuffer.Push (sample_frame 3 50); RingBuffer.DropOldest 1]
       (RingBuffer.new 2))
  = 50.
Proof. vm_compute. reflexivity. Qed.

(** C1. On a buffer of positive capacity, in any state that calls of
    [push], [shift], [unshift], [dropOldest] and [clear] can reach,
    [push] returns [true]; the buffer then holds at most [capacity]
    frames, as counted by [length], by [forEach] and slot by slot in
    the array; if it was full the oldest frame is gone and the other frames
    are followed by the new one, otherwise the new frame follows all the
    frames held before. In particular, after pushing the frames [pushed]
    on a new buffer, it holds the last [capacity] of them, in order. *)
Theorem C1_push_succeeds_bounded_fifo_eviction
    (capacity : Z) (ops : list RingBuffer.op) (frame : IAudioFrame)
    (pushed : list IAudioFrame) :
  0 < capacity ->
  let rb := RingBuffer.run ops (RingBuffer.new capacity) in
  let rb' := (RingBuffer.push frame rb).2 in
  (RingBuffer.push frame rb).1 = true
  /\ 0 <= RingBuffer.length rb' <= capacity
  /\ RingBuffer.length rb' = Z.of_nat (List.length (RingBuffer.frames rb'))
  /\ RingBuffer.occupied_count rb' = RingBuffer.length rb'
  /\ (forall i, is_Some (RingBuffer._buffer rb' !! i) -> 0 <= i < capacity)
  /\ RingBuffer.frames rb'
     = (if RingBuffer.isFull rb
        then drop 1 (RingBuffer.frames rb) else RingBuffer.frames rb)
       ++ [frame]
  /\ RingBuffer.frames
       (RingBuffer.run (RingBuffer.Push <$> pushed) (RingBuffer.new capacity))
     = drop (List.length pushed - Z.to_nat capacity) pushed.
Proof.
  intros Hc rb rb'.
  pose proof (repr_run capacity Hc ops _ _ (repr_new capacity Hc)) as H.
  fold rb in H.
  pose proof (repr_push capacity Hc frame _ _ H) as H'. fold rb' in H'.
  rewrite (frames_repr capacity Hc _ _ H), (frames_repr capacity Hc _ _ H').
  split; [apply push_result|]. split.
  { pose proof (repr_size _ _ _ H'). pose proof (repr_bound _ _ _ H').
    unfold RingBuffer.length. lia. }
  split; [apply (repr_size _ _ _ H')|].
  split.
  { rewrite (occupied_count_repr _ _ _ H'). symmetry.
    apply (repr_size _ _ _ H'). }
  split; [intros i; apply (repr_slot_range _ _ _ _ H')|].
  split.
  - unfold RingBuffer.isFull. simpl.
    by rewrite (repr_size _ _ _ H), (repr_capacity _ _ _ H).
  - rewrite <- queue_run_pushes by done.
    apply (frames_repr capacity Hc), repr_run, repr_new; done.
Qed.

Lemma C1_push_witness :
  0 < 2 /\
  let rb :=
    RingBuffer.run
      [RingBuffer.Push (sample_frame 0 20); RingBuffer.Push (sample_frame 1 20)]
      (RingBuffer.new 2) in
  let rb' := (RingBuffer.push (sample_frame 2 20) rb).2 in
  (RingBuffer.push (sample_frame 2 20) rb).1 = true
  /\ 0 <= RingBuffer.length rb' <= 2
  /\ RingBuffer.length rb' = Z.of_nat (List.length (RingBuffer.frames rb'))
  /\ RingBuffer.occupied_count rb' = RingBuffer.length rb'
  /\ (forall i, is_Some (RingBuffer._buffer rb' !! i) -> 0 <= i < 2)
  /\ RingBuffer.frames rb'
     = (if RingBuffer.isFull rb
        then drop 1 (RingBuffer.frames rb) else RingBuffer.frames rb)
       ++ [sample_frame 2 20]
  /\ RingBuffer.frames
       (RingBuffer.run
          (RingBuffer.Push <$> [sample_frame 0 20; sample_frame 1 20;
                                sample_frame 2 20])
          (RingBuffer.new 2))
     = drop (List.length [sample_frame 0 20; sample_frame 1 20;
                          sample_frame 2 20] - Z.to_nat 2)
         [sample_frame 0 20; sample_frame 1 20; sample_frame 2 20].
Proof.
  split; [lia|].
  apply (C1_push_succeeds_bounded_fifo_eviction 2
           [RingBuffer.Push (sample_frame 0 20);
            RingBuffer.Push (sample_frame 1 20)]
           (sample_frame 2 20)
           [sample_frame 0 20; sample_frame 1 20; sample_frame 2 20]).
  lia.
Defined.

(** C3. On a buffer of positive capacity, after any sequence of calls
    of [push], [shift] and [dropOldest] (and of [unshift] and [clear]),
    [getTotalDurationMs] returns the sum of the [duration] fields of the
    frames held by the slots of the array, which is also the sum over
    the frames that [forEach] visits and over the queue that the same
    calls build; it returns 0 when the buffer is empty. *)
Theorem C3_total_duration_sums_occupied_slots
    (capacity : Z) (ops : list RingBuffer.op) :
  0 < capacity ->
  let rb := RingBuffer.run ops (RingBuffer.new capacity) in
  RingBuffer.getTotalDurationMs rb = RingBuffer.occupied_total rb
  /\ RingBuffer.getTotalDurationMs rb
     = RingBuffer.durations (RingBuffer.frames rb)
  /\ RingBuffer.getTotalDurationMs rb
     = RingBuffer.durations (RingBuffer.queue_run capacity ops [])
  /\ (RingBuffer.isEmpty rb = true -> RingBuffer.getTotalDurationMs rb = 0).
Proof.
  intros Hc rb.
  pose proof (repr_run capacity Hc ops _ _ (repr_new capacity Hc)) as H.
  fold rb in H.
  rewrite (frames_repr capacity Hc _ _ H),
    (occupied_total_repr capacity _ _ H),
    (getTotalDurationMs_repr capacity Hc _ _ H).
  repeat split. intros He. unfold RingBuffer.isEmpty in He.
  apply Z.eqb_eq in He. by rewrite (repr_nil_size capacity rb _ H He).
Qed.

Lemma C3_total_duration_witness :
  0 < 2 /\
  let rb :=
    RingBuffer.run
      [RingBuffer.Push (sample_frame 0 20); RingBuffer.Push (sample_frame 1 30);
       RingBuffer.Shift; RingBuffer.Push (sample_frame 2 40);
       RingBuffer.Push (sample_frame 3 50); RingBuffer.DropOldest 1]
      (RingBuffer.new 2) in
  RingBuffer.getTotalDurationMs rb = RingBuffer.occupied_total rb
  /\ RingBuffer.getTotalDurationMs rb
     = RingBuffer.durations (RingBuffer.frames rb)
  /\ RingBuffer.getTotalDurationMs rb
     = RingBuffer.durations
         (RingBuffer.queue_run 2
            [RingBuffer.Push (sample_frame 0 20);
             RingBuffer.Push (sample_frame 1 30);
             RingBuffer.Shift; RingBuffer.Push (sample_frame 2 40);
             RingBuffer.Push (sample_frame 3 50); RingBuffer.DropOldest 1] [])
  /\ (RingBuffer.isEmpty rb = true -> RingBuffer.getTotalDurationMs rb = 0).
Proof.
  split; [lia|].
  apply (C3_total_duration_sums_occupied_slots 2
           [RingBuffer.Push (sample_frame 0 20);
            RingBuffer.Push (sample_frame 1 30);
            RingBuffer.Shift; RingBuffer.Push (sample_frame 2 40);
            RingBuffer.Push (sample_frame 3 50); RingBuffer.DropOldest 1]).
  lia.
Defined.

(** ** The frame processor *)

Section FrameProcessorFacts.
Import FrameProcessor.
Variable btoa : option (jsstring -> jsstring).

(** A payload that passes validation carries data of an accepted type. *)
Lemma valid_payload_shape payload :
  _isValidPayload payload = true ->
  exists d first final, payload = JSObject (JSAudio d) first final.
Proof.
  destruct payload as [|[d|truthy] first final]; simpl; try done.
  - eauto.
  - by destruct (negb truthy).
Qed.

(** One call of [parseChunk]: no frame and the processor unchanged,
    or one frame that takes the current sequence number. *)
Lemma parseChunk_cases payload now fp :
  parseChunk btoa payload now fp = ([], fp)
  \/ exists frame,
       parseChunk btoa payload now fp
       = ([frame],
          {| _sequenceNumber := _sequenceNumber fp + 1;
             _frameIntervalMs := _frameIntervalMs fp;
             _sampleRate := _sampleRate fp;
             _bytesPerSample := _bytesPerSample fp |})
       /\ sequenceNumber frame = _sequenceNumber fp
       /\ timestamp frame = now.
Proof.
  unfold parseChunk. destruct (_isValidPayload payload); simpl; [|by left].
  destruct payload as [|[d|truthy] first final]; try by left.
  destruct (_normalizeAudioData btoa d); [|by left].
  right. eexists. split; [reflexivity|]. done.
Qed.



(** The characters that the regular expression accepts. *)
Lemma regex_test_chars s :
  _validBase64Regex_test s = true ->
  forall c, In c s -> is_base64_char c || is_padding_char c = true.
Proof.
  unfold _validBase64Regex_test. induction s as [|c0 s IH]; [done|].
  cbn [skip_base64_chars]. destruct (is_base64_char c0) eqn:Hc0.
  - intros H c [<-|Hin]; [by rewrite Hc0|]. by apply IH.
  - destruct s as [|c1 [|c2 s]]; try done.
    + intros H c [<-|[]]. by rewrite H, orb_true_r.
    + intros H c. apply andb_true_iff in H as [H0 H1].
      intros [<-|[<-|[]]]; [by rewrite H0, orb_true_r|by rewrite H1, orb_true_r].
Qed.


(** The sequence numbers of a run of [parseChunk] calls count from the
    sequence number of the processor. *)
Lemma run_parse_calls calls : forall fp,
  sequenceNumbers (run btoa (parse_calls calls) fp).1
  = seqZ (_sequenceNumber fp)
      (Z.of_nat (List.length (run btoa (parse_calls calls) fp).1))
  /\ _sequenceNumber (run btoa (parse_calls calls) fp).2
     = _sequenceNumber fp
       + Z.of_nat (List.length (run btoa (parse_calls calls) fp).1).
Proof.
  induction calls as [|[payload now] calls IH]; intros fp.
  - simpl. split; [done|lia].
  - cbn [parse_calls fmap list_fmap run fst snd].
    destruct (parseChunk_cases payload now fp) as [->|(frame & -> & Hseq & _)].
    + specialize (IH fp). fold (parse_calls calls).
      destruct (run btoa (parse_calls calls) fp) as [rest fp2]. exact IH.
    + fold (parse_calls calls).
      match goal with |- context [run btoa _ ?fp1] =>
        specialize (IH fp1); destruct (run btoa (parse_calls calls) fp1)
          as [rest fp2] end.
      cbn [fst snd app _sequenceNumber] in *. destruct IH as [IH1 IH2].
      split.
      * unfold sequenceNumbers in *. rewrite fmap_cons, IH1, Hseq.
        rewrite (seqZ_cons (_sequenceNumber fp)) by (simpl; lia).
        do 2 f_equal; simpl; lia.
      * rewrite IH2. simpl List.length. lia.
Qed.
End FrameProcessorFacts.

(** ** The fallback base64 encoder *)

Lemma count_padding_app (s1 s2 : jsstring) :
  FrameProcessor.count_padding (s1 ++ s2)
  = FrameProcessor.count_padding s1 + FrameProcessor.count_padding s2.
Proof.
  unfold FrameProcessor.count_padding.
  rewrite List.filter_app, length_app. lia.
Qed.

Lemma land_63_bounds (x : Z) : 0 <= Z.land x 63 < 64.
Proof.
  change 63 with (Z.ones 6). rewrite Z.land_ones by lia.
  apply Z.mod_pos_bound. lia.
Qed.

(** A character of the table is never the padding sign. *)
Lemma charAt_chars (k : Z) :
  0 <= k < 64 ->
  exists c, FrameProcessor.charAt FrameProcessor.chars k = [c]
            /\ FrameProcessor.is_padding_char c = false.
Proof.
  intros Hk. replace k with (Z.of_nat (Z.to_nat k)) by lia.
  assert (Hn : (Z.to_nat k < 64)%nat) by lia.
  generalize dependent (Z.to_nat k). clear k Hk. intros n Hn.
  do 64 (destruct n as [|n]; [vm_compute; eauto|]). lia.
Qed.

Lemma charAt_chars_land (x : Z) :
  exists c, FrameProcessor.charAt FrameProcessor.chars (Z.land x 63) = [c]
            /\ FrameProcessor.is_padding_char c = false.
Proof. apply charAt_chars, land_63_bounds. Qed.

(** Length and number of padding signs of what the loop appends. *)
Lemma base64_loop_size bytes len (n : nat) : forall i result,
  (n = 0%nat \/ 3 * Z.of_nat n - 3 < len - i <= 3 * Z.of_nat n) ->
  let out := FrameProcessor.base64_loop bytes len n i result in
  Z.of_nat (List.length out) = Z.of_nat (List.length result) + 4 * Z.of_nat n
  /\ FrameProcessor.count_padding out
     = FrameProcessor.count_padding result
       + (if decide (n = 0%nat) then 0 else 3 * Z.of_nat n - (len - i)).
Proof.
  induction n as [|n IH]; intros i result Hn.
  - simpl. split; lia.
  - destruct Hn as [Hn|Hn]; [done|].
    cbn [FrameProcessor.base64_loop]. cbv zeta.
    set (a := FrameProcessor.byte_at bytes i).
    set (b := if i + 1 <? len then _ else 0).
    set (c := if i + 2 <? len then _ else 0).
    set (bitmap := Z.lor (Z.lor (Z.shiftl a 16) (Z.shiftl b 8)) c).
    destruct (charAt_chars_land (Z.shiftr bitmap 18)) as (c1 & -> & Hc1).
    destruct (charAt_chars_land (Z.shiftr bitmap 12)) as (c2 & -> & Hc2).
    destruct (charAt_chars_land (Z.shiftr bitmap 6)) as (c3 & -> & Hc3).
    destruct (charAt_chars_land bitmap) as (c4 & -> & Hc4).
    match goal with |- context [FrameProcessor.base64_loop _ _ _ _ ?r] =>
      set (result' := r) end.
    assert (Hsize :
      Z.of_nat (List.length result') = Z.of_nat (List.length result) + 4
      /\ FrameProcessor.count_padding result'
         = FrameProcessor.count_padding result
           + (if i + 1 <? len then 0 else 1) + (if i + 2 <? len then 0 else 1)).
    { subst result'. rewrite !count_padding_app, !length_app.
      unfold FrameProcessor.count_padding at 2 3. simpl List.filter.
      rewrite Hc1, Hc2.
      destruct (i + 1 <? len), (i + 2 <? len);
        unfold FrameProcessor.count_padding; simpl; rewrite ?Hc3, ?Hc4;
        simpl; lia. }
    destruct Hsize as [Hlen Hpad].
    specialize (IH (i + 3) result'). cbv zeta in IH.
    destruct (decide (n = 0%nat)) as [->|Hn0].
    + simpl FrameProcessor.base64_loop. rewrite Hlen, Hpad.
      split; [lia|]. split_cmp; simpl; lia.
    + destruct IH as [IH1 IH2]; [right; lia|].
      rewrite IH1, IH2, Hlen, Hpad.
      destruct (decide (n = 0%nat)); [done|].
      split; [lia|]. split_cmp; simpl; lia.
Qed.

Lemma turns_3 (len : Z) :
  0 <= len ->
  let n := FrameProcessor.turns len 3 in
  (len = 0 /\ n = 0%nat)
  \/ (0 < len /\ n <> 0%nat /\ 3 * Z.of_nat n - 3 < len <= 3 * Z.of_nat n).
Proof.
  intros Hlen. unfold FrameProcessor.turns. simpl.
  destruct (Z.eq_dec len 0) as [->|Hne]; [by left|right].
  assert (0 < (len + 3 - 1) / 3) by (apply Z.div_str_pos; lia).
  rewrite Z2Nat.id by lia.
  pose proof (Z.div_mod (len + 3 - 1) 3 ltac:(lia)).
  pose proof (Z.mod_pos_bound (len + 3 - 1) 3 ltac:(lia)).
  split; [lia|]. split; lia.
Qed.

(** The fallback encoder writes four characters for three bytes, and
    one padding sign for each byte missing in the last group. *)
Lemma fallback_base64_size (bytes : list Byte.byte) :
  let out := FrameProcessor._binaryToBase64 None bytes in
  let n := Z.of_nat (List.length bytes) in
  Z.of_nat (List.length out) = 4 * ((n + 2) / 3)
  /\ FrameProcessor.count_padding out = 3 * ((n + 2) / 3) - n.
Proof.
  cbv zeta. unfold FrameProcessor._binaryToBase64.
  set (len := Z.of_nat (List.length bytes)).
  pose proof (turns_3 len ltac:(lia)) as Ht. cbv zeta in Ht.
  pose proof (base64_loop_size bytes len (FrameProcessor.turns len 3) 0 []) as Hl.
  cbv zeta in Hl.
  assert (Hdiv : Z.of_nat (FrameProcessor.turns len 3) = (len + 2) / 3).
  { unfold FrameProcessor.turns. replace (len + 3 - 1) with (len + 2) by lia.
    apply Z2Nat.id. apply Z.div_pos; lia. }
  destruct Ht as [[Hz Hn]|(Hpos & Hn & Hb)].
  - destruct Hl as [Hl1 Hl2]; [by left|]. rewrite Hl1, Hl2, <- Hdiv, Hn, Hz.
    simpl. done.
  - destruct Hl as [Hl1 Hl2]; [right; lia|]. rewrite Hl1, Hl2, <- Hdiv.
    destruct (decide _); [done|].
    change (FrameProcessor.count_padding []) with 0. simpl. split; lia.
Qed.

(** ** Claims on the frame processor *)







(** What the amended claim leaves out: a string of four spaces has
    decoded size 0, passes the check of emptiness, which is made on the
    string as received, and gets a frame without data. *)
Example blank_text_yields_a_frame :
  (decoded_size (AVString (str "    ")) == 0)%Q
  /\ exists frame,
       (FrameProcessor.parseChunk None
          (JSObject (JSAudio (AVString (str "    "))) None None)
          0 FrameProcessor.new_default).1 = [frame]
       /\ audioData (data frame) = AVString [].
Proof. split; [reflexivity|]. eexists. vm_compute. split; reflexivity. Qed.

(** C6. The frames that successive [parseChunk] calls return on a new
    processor, or after [reset()] whatever happened before, carry the
    sequence numbers 0, 1, 2, ... in order, one per frame returned: a
    call that returns no frame takes no number. Each call either
    returns no frame and leaves the processor unchanged, or returns one
    frame with the current sequence number and increments it. *)
Theorem C6_sequence_numbers_count_from_zero
    (btoa : option (jsstring -> jsstring))
    (frameIntervalMs sampleRate bytesPerSample : Z)
    (before : list FrameProcessor.op) (fp : FrameProcessor.t)
    (calls : list (js_payload * Z)) (payload : js_payload) (now : Z) :
  let fresh := FrameProcessor.new frameIntervalMs sampleRate bytesPerSample in
  let restarted :=
    FrameProcessor.reset (FrameProcessor.run btoa before fp).2 in
  let frames_of start :=
    (FrameProcessor.run btoa (parse_calls calls) start).1 in
  sequenceNumbers (frames_of fresh)
  = seqZ 0 (Z.of_nat (List.length (frames_of fresh)))
  /\ sequenceNumbers (frames_of restarted)
     = seqZ 0 (Z.of_nat (List.length (frames_of restarted)))
  /\ (FrameProcessor.parseChunk btoa payload now fp = ([], fp)
      \/ exists frame,
           (FrameProcessor.parseChunk btoa payload now fp).1 = [frame]
           /\ sequenceNumber frame = FrameProcessor._sequenceNumber fp
           /\ FrameProcessor._sequenceNumber
                (FrameProcessor.parseChunk btoa payload now fp).2
              = FrameProcessor._sequenceNumber fp + 1).
Proof.
  cbv zeta. split; [|split].
  - apply (run_parse_calls btoa calls
             (FrameProcessor.new frameIntervalMs sampleRate bytesPerSample)).
  - apply (run_parse_calls btoa calls
             (FrameProcessor.reset (FrameProcessor.run btoa before fp).2)).
  - destruct (parseChunk_cases btoa payload now fp)
      as [H|(frame & H & Hseq & _)]; [by left|right].
    exists frame. by rewrite H.
Qed.

Example sequence_numbers_skip_failures :
  sequenceNumbers
    (FrameProcessor.run None
       [FrameProcessor.ParseChunk
          (JSObject (JSAudio (AVString (str "AAAA"))) None None) 1;
        FrameProcessor.ParseChunk
          (JSObject (JSAudio (AVString (str "A*AA"))) None None) 2;
        FrameProcessor.ParseChunk
          (JSObject (JSAudio (AVUint8Array [x01; x02])) None None) 3;
        FrameProcessor.Reset;
        FrameProcessor.ParseChunk
          (JSObject (JSAudio (AVString (str "AAAA"))) None None) 4]
       FrameProcessor.new_default).1
  = [0; 1; 0].
Proof. vm_compute. reflexivity. Qed.

(** ** The platform's base64 encoder *)

(** The slicing loop of [_binaryToBase64] builds the binary string of
    the bytes. *)
Lemma foldl_snoc_map {A B : Type} (f : A -> B) (l : list A) (acc : list B) :
  foldl (fun acc b => acc ++ [f b]) acc l = acc ++ List.map f l.
Proof.
  revert acc. induction l as [|a l IH]; intros acc; simpl.
  - by rewrite app_nil_r.
  - by rewrite IH, <- app_assoc.
Qed.

(** The string that [_binaryToBase64] hands to [btoa]: one character per
    byte, whatever the size of the slices. *)
Lemma binaryString_loop_map bytes chunkSize (n : nat) : forall i acc,
  0 < chunkSize -> 0 <= i ->
  FrameProcessor.binaryString_loop bytes (Z.of_nat (List.length bytes))
    chunkSize n i acc
  = acc ++ List.map Byte.to_N
             (take (n * Z.to_nat chunkSize) (drop (Z.to_nat i) bytes)).
Proof.
  induction n as [|n IH]; intros i acc Hc Hi.
  - simpl. by rewrite app_nil_r.
  - cbn [FrameProcessor.binaryString_loop]. cbv zeta.
    rewrite foldl_snoc_map, IH by lia. rewrite <- app_assoc. f_equal.
    rewrite <- map_app. f_equal.
    set (D := drop (Z.to_nat i) bytes).
    assert (HD : List.length D = (List.length bytes - Z.to_nat i)%nat)
      by (subst D; apply length_drop).
    replace (drop (Z.to_nat (i + chunkSize)) bytes)
      with (drop (Z.to_nat chunkSize) D)
      by (subst D; rewrite drop_drop; f_equal; lia).
    replace (take (Z.to_nat (Z.min (i + chunkSize)
                               (Z.of_nat (List.length bytes)) - i)) D)
      with (take (Z.to_nat chunkSize) D).
    + replace (S n * Z.to_nat chunkSize)%nat
        with (Z.to_nat chunkSize + n * Z.to_nat chunkSize)%nat by lia.
      by rewrite take_take_drop.
    + destruct (Z.le_gt_cases (i + chunkSize) (Z.of_nat (List.length bytes))).
      * f_equal. lia.
      * rewrite !take_ge; [done|lia|lia].
Qed.

Lemma binaryString_all bytes :
  FrameProcessor.binaryString_loop bytes (Z.of_nat (List.length bytes)) 8192
    (FrameProcessor.turns (Z.of_nat (List.length bytes)) 8192) 0 []
  = List.map Byte.to_N bytes.
Proof.
  rewrite binaryString_loop_map by lia. simpl app. f_equal.
  rewrite drop_0. apply take_ge.
  unfold FrameProcessor.turns.
  set (len := Z.of_nat (List.length bytes)).
  assert (0 <= (len + 8192 - 1) / 8192) by (apply Z.div_pos; lia).
  pose proof (Z.div_mod (len + 8192 - 1) 8192 ltac:(lia)).
  pose proof (Z.mod_pos_bound (len + 8192 - 1) 8192 ltac:(lia)).
  lia.
Qed.

Lemma sextet_not_padding (k : N) :
  FrameProcessor.is_padding_char (sextet k) = false.
Proof.
  unfold sextet.
  destruct (nth_in_or_default (N.to_nat k) FrameProcessor.chars 0%N)
    as [Hin| ->]; [|done].
  revert Hin. generalize (nth (N.to_nat k) FrameProcessor.chars 0%N).
  apply List.Forall_forall. vm_compute.
  repeat (constructor; [reflexivity|]). constructor.
Qed.

(** Four characters for three bytes, and one padding sign for each
    byte missing in the last group. *)
Lemma standard_btoa_size (n : nat) : forall s : jsstring,
  (List.length s <= n)%nat ->
  Z.of_nat (List.length (standard_btoa s))
  = 4 * ((Z.of_nat (List.length s) + 2) / 3)
  /\ FrameProcessor.count_padding (standard_btoa s)
     = 3 * ((Z.of_nat (List.length s) + 2) / 3) - Z.of_nat (List.length s).
Proof.
  induction n as [|n IH]; intros s Hn.
  - destruct s; [done|simpl in Hn; lia].
  - destruct s as [|a [|b [|c rest]]].
    + done.
    + unfold FrameProcessor.count_padding. cbn [standard_btoa List.filter].
      rewrite !sextet_not_padding. done.
    + unfold FrameProcessor.count_padding. cbn [standard_btoa List.filter].
      rewrite !sextet_not_padding. done.
    + cbn [standard_btoa]. rewrite count_padding_app, length_app.
      destruct (IH rest) as [IH1 IH2]; [simpl in Hn; lia|].
      unfold FrameProcessor.count_padding at 1. cbn [List.filter].
      rewrite !sextet_not_padding.
      cbn [List.length]. rewrite !Nat2Z.inj_succ, Nat2Z.inj_add, IH1, IH2.
      change (Z.of_nat (List.length (@nil jschar))) with 0.
      change (Z.of_nat 4) with 4.
      set (m := Z.of_nat (List.length rest)).
      replace (Z.succ (Z.succ (Z.succ m)) + 2) with (m + 2 + 1 * 3) by lia.
      rewrite Z.div_add by lia. lia.
Qed.

(** The standard [btoa] on [Man], [Ma] and [M], and next to the
    fallback encoder on four bytes. *)
Example standard_btoa_examples :
  standard_btoa (str "Man") = str "TWFu"
  /\ standard_btoa (str "Ma") = str "TWE="
  /\ standard_btoa (str "M") = str "TQ=="
  /\ FrameProcessor._binaryToBase64 (Some standard_btoa) [xff; x00; x80; x7f]
     = FrameProcessor._binaryToBase64 None [xff; x00; x80; x7f].
Proof. repeat split; vm_compute; reflexivity. Qed.

(** C7. For every byte buffer, the text that [_binaryToBase64] returns
    has an estimated decoded size, length x 3/4 minus the number of
    padding signs as [_calculateDuration] and [_getByteSize] compute it,
    equal to the length of the buffer, hence within 2 bytes of it. This
    holds on both branches: with the fallback encoder, and with the
    platform's [btoa] applied to the binary string that the slicing
    loop builds, [btoa] being the standard one. *)
Theorem C7_base64_size_round_trip
    (btoa : option (jsstring -> jsstring)) (bytes : list Byte.byte) :
  btoa_is_standard btoa ->
  let n := inject_Z (Z.of_nat (List.length bytes)) in
  let text := FrameProcessor._binaryToBase64 btoa bytes in
  (FrameProcessor.estimatedBytes text == n)%Q
  /\ (FrameProcessor._getByteSize (AVString text) == n)%Q
  /\ (Qabs (FrameProcessor.estimatedBytes text - n) <= 2)%Q.
Proof.
  intros Hbtoa. cbv zeta.
  assert (Hsize :
    Z.of_nat (List.length (FrameProcessor._binaryToBase64 btoa bytes))
    = 4 * ((Z.of_nat (List.length bytes) + 2) / 3)
    /\ FrameProcessor.count_padding (FrameProcessor._binaryToBase64 btoa bytes)
       = 3 * ((Z.of_nat (List.length bytes) + 2) / 3)
         - Z.of_nat (List.length bytes)).
  { destruct btoa as [f|]; [|exact (fallback_base64_size bytes)].
    unfold FrameProcessor._binaryToBase64. cbv zeta.
    rewrite binaryString_all, (Hbtoa f eq_refl).
    - rewrite <- (length_map Byte.to_N bytes).
      by apply (standard_btoa_size (List.length (List.map Byte.to_N bytes))).
    - apply List.Forall_forall. intros c Hc.
      apply in_map_iff in Hc as (b & <- & _).
      pose proof (Byte.to_N_bounded b). lia. }
  destruct Hsize as [Hlen Hpad].
  assert (Hest :
    (FrameProcessor.estimatedBytes (FrameProcessor._binaryToBase64 btoa bytes)
     == inject_Z (Z.of_nat (List.length bytes)))%Q).
  { unfold FrameProcessor.estimatedBytes. rewrite Hlen, Hpad.
    set (k := (Z.of_nat (List.length bytes) + 2) / 3).
    unfold Z.sub. rewrite inject_Z_plus, inject_Z_opp, !inject_Z_mult.
    change (inject_Z 4) with 4%Q. change (inject_Z 3) with 3%Q. field. }
  split; [exact Hest|]. split; [exact Hest|].
  unfold Qminus. rewrite Hest, Qplus_opp_r. done.
Qed.

Lemma C7_base64_size_round_trip_witness :
  btoa_is_standard (Some standard_btoa)
  /\ FrameProcessor._binaryToBase64 (Some standard_btoa)
       [x4d; x61; x6e; x4d; x61] = str "TWFuTWE="
  /\ let n := inject_Z (Z.of_nat (List.length [x4d; x61; x6e; x4d; x61])) in
     let text :=
       FrameProcessor._binaryToBase64 (Some standard_btoa)
         [x4d; x61; x6e; x4d; x61] in
     (FrameProcessor.estimatedBytes text == n)%Q
     /\ (FrameProcessor._getByteSize (AVString text) == n)%Q
     /\ (Qabs (FrameProcessor.estimatedBytes text - n) <= 2)%Q.
Proof.
  assert (H : btoa_is_standard (Some standard_btoa)).
  { intros f Hf s _. injection Hf as <-. reflexivity. }
  split; [exact H|]. split; [vm_compute; reflexivity|].
  exact (C7_base64_size_round_trip (Some standard_btoa)
           [x4d; x61; x6e; x4d; x61] H).
Defined.

(** C10. A valid payload gets a frame of duration 0: for the one-byte
    chunk [AA==] (text, or the byte 0 encoded by the fallback encoder)
    at 2 bytes per sample and 16000 Hz, the duration computed is 1/32
    ms, which passes the check [durationMs <= 0] made before rounding,
    and [Math.round] then gives 0. *)
Theorem C10_short_chunk_gets_duration_zero
    (btoa : option (jsstring -> jsstring)) (now : Z) :
  let fp := FrameProcessor.new_default in
  let text := JSObject (JSAudio (AVString (str "AA=="))) None None in
  let binary := JSObject (JSAudio (AVUint8Array [x00])) None None in
  FrameProcessor._isValidPayload text = true
  /\ FrameProcessor._isValidPayload binary = true
  /\ (FrameProcessor.durationMs fp (str "AA==") == 1 # 32)%Q
  /\ Qle_bool (FrameProcessor.durationMs fp (str "AA==")) 0 = false
  /\ Math_round (FrameProcessor.durationMs fp (str "AA==")) = 0
  /\ duration <$> (FrameProcessor.parseChunk btoa text now fp).1 = [0]
  /\ duration <$> (FrameProcessor.parseChunk None binary now fp).1 = [0].
Proof. cbv zeta. repeat split; vm_compute; reflexivity. Qed.

(** ** The retry handler *)

Section RetryFacts.
Import RetryHandler.
Context {T : Type}.
Variable rh : t.
Variable operation : nat -> thrown + T.
Variable random : nat -> Q.

Lemma calculateDelay_delay_of attempt e :
  (_calculateDelay rh random attempt e).1
  = delay_of rh (random (draws e)) attempt.
Proof.
  unfold delay_of, _calculateDelay. by destruct (useJitter (_config rh)).
Qed.

Lemma calculateDelay_effects attempt e :
  (_calculateDelay rh random attempt e).2
  = {| calls := calls e;
       draws := if useJitter (_config rh) then S (draws e) else draws e;
       sleeps := sleeps e |}.
Proof.
  unfold _calculateDelay. destruct (useJitter (_config rh)); [done|].
  by destruct e.
Qed.

Lemma delay_of_no_jitter r r' attempt :
  useJitter (_config rh) = false ->
  delay_of rh r attempt = delay_of rh r' attempt.
Proof. intros Hj. unfold delay_of, _calculateDelay. by rewrite Hj. Qed.

Lemma execute_loop_post (n : nat) : forall attempt lastError e,
  (n + attempt = S (maxRetries (_config rh)))%nat ->
  calls e = attempt ->
  sleeps e
  = (fun k => delay_of rh (random k) k)
      <$> seq 0 (Nat.min attempt (maxRetries (_config rh))) ->
  draws e = (if useJitter (_config rh)
             then Nat.min attempt (maxRetries (_config rh)) else 0%nat) ->
  (forall k, (k < attempt)%nat -> exists error, operation k = inl error) ->
  (attempt = 0%nat
   \/ exists last, operation (attempt - 1)%nat = inl last
                   /\ lastError = Some (toError last)) ->
  execute_post rh operation random
    (execute_loop rh operation random n attempt lastError e).1
    (execute_loop rh operation random n attempt lastError e).2.
Proof.
  induction n as [|n IH]; intros attempt lastError e Hn Hc Hs Hd Hf Hl.
  - simpl in *. subst attempt. destruct Hl as [Hl|(last & Hop & ->)]; [done|].
    unfold execute_post. cbn [fst snd]. rewrite Hc.
    replace (S (maxRetries (_config rh)) - 1)%nat
      with (maxRetries (_config rh)) in * by lia.
    rewrite Nat.min_r in Hs by lia.
    split; [lia|]. split; [done|]. split; [intros k Hk; apply Hf; lia|].
    split; [done|]. eauto.
  - cbn [execute_loop]. rewrite Hc.
    destruct (operation attempt) as [error|value] eqn:Hop.
    + apply IH; clear IH.
      * lia.
      * destruct (attempt <? maxRetries (_config rh))%nat; [|done].
        destruct (_calculateDelay _ _ _ _) eqn:Hcd.
        apply (f_equal snd) in Hcd. rewrite calculateDelay_effects in Hcd.
        simpl in Hcd. subst. by simpl.
      * destruct (Nat.ltb_spec attempt (maxRetries (_config rh))).
        -- destruct (_calculateDelay _ _ _ _) as [delay e2] eqn:Hcd.
           pose proof (f_equal fst Hcd) as Hd1.
           pose proof (f_equal snd Hcd) as Hd2.
           rewrite calculateDelay_delay_of in Hd1.
           rewrite calculateDelay_effects in Hd2. simpl in Hd1, Hd2.
           subst e2 delay. cbn [_sleep sleeps calls draws]. rewrite Hs, Hd.
           replace (Nat.min (S attempt) (maxRetries (_config rh)))
             with (S attempt) by lia.
           rewrite Nat.min_l by lia. rewrite seq_S, fmap_app.
           cbn [fmap list_fmap Nat.add]. f_equal. f_equal.
           destruct (useJitter (_config rh)) eqn:Hj; [done|].
           by apply delay_of_no_jitter.
        -- cbn [sleeps]. rewrite Hs. do 2 f_equal. lia.
      * destruct (Nat.ltb_spec attempt (maxRetries (_config rh))).
        -- destruct (_calculateDelay _ _ _ _) as [delay e2] eqn:Hcd.
           pose proof (f_equal snd Hcd) as Hd2.
           rewrite calculateDelay_effects in Hd2. simpl in Hd2.
           subst e2. cbn [_sleep sleeps calls draws]. rewrite Hd.
           destruct (useJitter (_config rh)); lia.
        -- cbn [draws]. rewrite Hd. destruct (useJitter (_config rh)); lia.
      * intros k Hk. destruct (decide (k = attempt)) as [->|]; [eauto|].
        apply Hf. lia.
      * right. exists error. split; [|done].
        by replace (S attempt - 1)%nat with attempt by lia.
    + unfold execute_post. cbn [fst snd calls sleeps].
      replace (S attempt - 1)%nat with attempt by lia.
      split; [lia|]. split.
      { rewrite Hs. do 2 f_equal. lia. }
      split; [done|]. done.
Qed.

(** [execute], from its first attempt. *)
Lemma execute_post_holds :
  execute_post rh operation random
    (execute rh operation random).1 (execute rh operation random).2.
Proof.
  unfold execute. apply execute_loop_post; try done; try lia.
  simpl. by destruct (useJitter (_config rh)).
Qed.
End RetryFacts.

(** [Math.round] is within a half of its argument. *)
Lemma Math_round_near (x : Q) :
  (x - (1 # 2) < inject_Z (Math_round x) <= x + (1 # 2))%Q.
Proof.
  unfold Math_round.
  pose proof (Qfloor_le (x + (1 # 2))) as Hle.
  pose proof (Qlt_floor (x + (1 # 2))) as Hlt.
  rewrite inject_Z_plus in Hlt. change (inject_Z 1) with 1%Q in Hlt.
  split; lra.
Qed.

(** The delay that [_calculateDelay] returns, written out. *)
Lemma delay_of_unfold (rh : RetryHandler.t) (r : Q) (attempt : nat) :
  let config := RetryHandler._config rh in
  let base :=
    Qmin (RetryHandler.initialDelayMs config
          * RetryHandler.backoffMultiplier config ^ Z.of_nat attempt)%Q
         (RetryHandler.maxDelayMs config) in
  (base == backoff_delay config (S attempt))%Q
  /\ delay_of rh r attempt
     = if RetryHandler.useJitter config
       then inject_Z (Math_round (base * ((75 # 100) + r * (5 # 10))))
       else base.
Proof.
  cbv zeta. split.
  - unfold backoff_delay. rewrite Q.min_comm.
    replace (Z.of_nat (S attempt) - 1) with (Z.of_nat attempt) by lia.
    reflexivity.
  - unfold delay_of, RetryHandler._calculateDelay.
    by destruct (RetryHandler.useJitter _).
Qed.

(** A jittered delay is within a quarter of the base delay, up to the
    half millisecond of the rounding. *)
Lemma jitter_bounds (base r : Q) :
  (0 <= base)%Q -> (0 <= r < 1)%Q ->
  ((75 # 100) * base - (1 # 2)
   <= inject_Z (Math_round (base * ((75 # 100) + r * (5 # 10))))
   <= (125 # 100) * base + (1 # 2))%Q.
Proof.
  intros Hb [Hr0 Hr1].
  pose proof (Math_round_near (base * ((75 # 100) + r * (5 # 10)))) as [Hlo Hhi].
  assert (0 <= base * r)%Q by (apply Qmult_le_0_compat; lra).
  assert (0 <= base * (1 - r))%Q by (apply Qmult_le_0_compat; lra).
  split; lra.
Qed.

(** ** Claims on the retry handler *)

(** With an initial delay of 3 ms and [Math.random()] returning 0, the
    delay slept before the first retry is [Math.round(3 x 0.75)] = 2,
    which is below 75% of 3: the rounding takes the delay out of the
    quarter around [min(maxDelayMs, initialDelayMs x 2^0)]. *)
Lemma C9_rounding_counterexample :
  let rh :=
    {| RetryHandler._config :=
         {| RetryHandler.maxRetries := 1;
            RetryHandler.initialDelayMs := 3;
            RetryHandler.maxDelayMs := 1000;
            RetryHandler.backoffMultiplier := 2;
            RetryHandler.useJitter := true |} |} in
  let run :=
    RetryHandler.execute (T := unit) rh
      (fun _ => inl (RetryHandler.ThrownError "down")) (fun _ => 0%Q) in
  RetryHandler.sleeps run.2 = [2%Q]
  /\ (backoff_delay (RetryHandler._config rh) 1 == 3)%Q
  /\ ~ ((75 # 100) * backoff_delay (RetryHandler._config rh) 1 <= 2)%Q.
Proof.
  cbv zeta. split; [vm_compute; reflexivity|]. split; [vm_compute; reflexivity|].
  vm_compute. intros H. by apply H.
Qed.

(** C9, amended. [execute] calls the operation at most
    [maxRetries + 1] times, each call but the last having failed, and
    sleeps once between two calls. The delay before retry k is
    [min(maxDelayMs, initialDelayMs x backoffMultiplier^(k-1))] without
    jitter. With jitter it is a whole number of milliseconds, less than
    1 ms away from that value times the factor
    [0.75 + Math.random() x 0.5]: within 25% of that value up to the
    rounding, less than 1 ms, when the value is not negative. When
    every call fails, [execute] rejects with the error of the last call
    (made an [Error] when it is not one) and [executeSafe] returns
    [null]; when a call returns, both return its value. *)
Theorem C9_retry_attempts_delays_and_failure {T : Type}
    (rh : RetryHandler.t) (operation : nat -> RetryHandler.thrown + T)
    (random : nat -> Q) :
  let config := RetryHandler._config rh in
  let run := RetryHandler.execute rh operation random in
  let safe := RetryHandler.executeSafe rh operation random in
  let e := run.2 in
  (RetryHandler.calls e <= RetryHandler.maxRetries config + 1)%nat
  /\ List.length (RetryHandler.sleeps e) = (RetryHandler.calls e - 1)%nat
  /\ (forall k, (k < RetryHandler.calls e - 1)%nat ->
        exists error, operation k = inl error)
  /\ (forall k delay,
        RetryHandler.sleeps e !! k = Some delay ->
        (RetryHandler.useJitter config = false ->
         (delay == backoff_delay config (S k))%Q)
        /\ (RetryHandler.useJitter config = true ->
            (exists ms : Z, delay = inject_Z ms)
            /\ (Qabs (delay
                      - backoff_delay config (S k)
                        * ((75 # 100) + random k * (5 # 10))) < 1)%Q
            /\ ((0 <= random k < 1)%Q ->
                (0 <= backoff_delay config (S k))%Q ->
                ((75 # 100) * backoff_delay config (S k) - 1 < delay
                 < (125 # 100) * backoff_delay config (S k) + 1)%Q)))
  /\ (fails_through operation (RetryHandler.maxRetries config) ->
      RetryHandler.calls e = (RetryHandler.maxRetries config + 1)%nat
      /\ safe.1 = None
      /\ exists last,
           operation (RetryHandler.maxRetries config) = inl last
           /\ run.1 = RetryHandler.Rejected (Some (RetryHandler.toError last)))
  /\ (forall value,
        run.1 = RetryHandler.Resolved value ->
        operation (RetryHandler.calls e - 1)%nat = inr value
        /\ safe.1 = Some value).
Proof.
  cbv zeta.
  pose proof (execute_post_holds rh operation random) as Hpost.
  unfold RetryHandler.executeSafe.
  destruct (RetryHandler.execute rh operation random) as [out e].
  cbn [fst snd] in *.
  destruct Hpost as (Hcalls & Hsleeps & Hfail & Hout).
  split; [lia|]. split.
  { by rewrite Hsleeps, length_fmap, length_seq. }
  split; [exact Hfail|]. split.
  { intros k delay Hk. rewrite Hsleeps, list_lookup_fmap in Hk.
    destruct (seq 0 (RetryHandler.calls e - 1) !! k) as [k'|] eqn:Hseq;
      [|done].
    apply lookup_seq in Hseq as [-> _]. simpl in Hk. injection Hk as <-.
    destruct (delay_of_unfold rh (random k) k) as [Hbase Hdelay].
    cbv zeta in *. rewrite Hdelay. split.
    - intros ->. exact Hbase.
    - intros ->. split; [eauto|]. rewrite <- Hbase.
      match goal with |- context [Math_round ?x] =>
        pose proof (Math_round_near x) as [Hlo Hhi] end.
      split.
      + apply Qabs_Qlt_condition. split; lra.
      + intros Hr Hb.
        pose proof (jitter_bounds _ (random k) Hb Hr) as [Hjl Hjh].
        split; lra. }
  split.
  { intros Hall. destruct out as [value|error].
    - destruct (Hall (RetryHandler.calls e - 1)%nat ltac:(lia)) as [err Herr].
      congruence.
    - destruct Hout as (Hc & last & Hlast & ->).
      split; [lia|]. split; [done|]. eauto. }
  intros value ->. done.
Qed.

Example retry_default_backoff :
  RetryHandler.execute (RetryHandler.new None)
    (fun k => if (k <? 2)%nat then inl (RetryHandler.ThrownValue "busy")
              else inr k)
    (fun _ => (1 # 2)%Q)
  = (RetryHandler.Resolved 2%nat,
     {| RetryHandler.calls := 3; RetryHandler.draws := 2;
        RetryHandler.sleeps := [50%Q; 100%Q] |}).
Proof. vm_compute. reflexivity. Qed.

(** ** The buffer manager *)

Lemma clear_clear (rb : RingBuffer.t) :
  RingBuffer.clear (RingBuffer.clear rb) = RingBuffer.clear rb.
Proof.
  unfold RingBuffer.clear. simpl. f_equal. apply map_eq. intros i.
  rewrite !lookup_clear_slots. by destruct (_ && _).
Qed.

Section ManagerFacts.
Import AudioBufferManager.
Context {QM : Type} `{IQualityMonitor QM}.
Variable env : platform.

(** The manager that [destroy] leaves. *)
Lemma destroy_fields (m : t QM) :
  _isActive (destroy m) = false
  /\ _frameProcessor (destroy m) = None
  /\ _qualityMonitor (destroy m) = None
  /\ _buffer (destroy m) = RingBuffer.clear (_buffer m)
  /\ _nextSequenceNumber (destroy m) = 0
  /\ (_playbackTimer (destroy m) = None
      \/ _playbackTimer (destroy m) = Some 0)
  /\ _config (destroy m) = _config m
  /\ played (destroy m) = played m.
Proof.
  destruct m as [b c fp qm timer active last next turn enc pend nid log].
  unfold destroy, stopPlayback. simpl.
  destruct timer as [id|]; [destruct (Z.eqb_spec id 0) as [->|]|];
    destruct fp; simpl; rewrite ?clear_clear; repeat split; auto.
Qed.

Lemma destroy_destroyed (m : t QM) : destroyed (destroy m).
Proof.
  destruct (destroy_fields m) as (Ha & Hfp & Hqm & Hb & Hn & Ht & _).
  unfold destroyed. rewrite Ha, Hfp, Hqm, Hn, Hb, clear_clear.
  repeat split; auto.
Qed.

Lemma destroyed_stopPlayback (m : t QM) : destroyed m -> stopPlayback m = m.
Proof.
  destruct m as [b c fp qm timer active last next turn enc pend nid log].
  unfold destroyed, stopPlayback. simpl.
  intros (-> & -> & -> & Hb & -> & [->| ->]); simpl; by rewrite <- Hb.
Qed.

Lemma destroyed_destroy (m : t QM) : destroyed m -> destroy m = m.
Proof.
  intros Hd. unfold destroy. rewrite (destroyed_stopPlayback m Hd).
  destruct m as [b c fp qm timer active last next turn enc pend nid log].
  unfold destroyed in Hd. simpl in *.
  destruct Hd as (-> & -> & -> & Hb & -> & _).
  unfold set_frameProcessor, set_qualityMonitor, set_nextSequenceNumber,
    set_buffer. simpl. by rewrite <- Hb.
Qed.

Lemma destroyed_enqueueFrames payload now (m : t QM) :
  destroyed m -> enqueueFrames env payload now m = m.
Proof.
  intros (_ & Hfp & _). unfold enqueueFrames. by rewrite Hfp.
Qed.

Lemma destroyed_applyAdaptiveAdjustments (m : t QM) :
  destroyed m -> applyAdaptiveAdjustments m = m.
Proof.
  intros (_ & _ & Hqm & _). unfold applyAdaptiveAdjustments. by rewrite Hqm.
Qed.

Lemma destroyed_getCurrentBufferMs (m : t QM) :
  destroyed m -> getCurrentBufferMs m = 0.
Proof.
  intros (_ & _ & _ & Hb & _). unfold getCurrentBufferMs. by rewrite Hb.
Qed.

Lemma destroyed_getHealthMetrics (m : t QM) :
  destroyed m ->
  getHealthMetrics m
  = ({| IBufferHealthMetrics.currentBufferMs := 0;
        IBufferHealthMetrics.targetBufferMs :=
          IAudioBufferConfig.targetBufferMs (_config m);
        IBufferHealthMetrics.underrunCount := 0;
        IBufferHealthMetrics.overrunCount := 0;
        IBufferHealthMetrics.averageJitter := 0;
        IBufferHealthMetrics.bufferHealthState := idle;
        IBufferHealthMetrics.adaptiveAdjustmentsCount := 0 |}, m).
Proof.
  intros Hd. pose proof (destroyed_getCurrentBufferMs m Hd) as Hc.
  destruct Hd as (_ & _ & Hqm & _). unfold getHealthMetrics.
  by rewrite Hqm, Hc.
Qed.

Lemma destroyed_updateConfig config (m : t QM) :
  destroyed m -> destroyed (updateConfig config m).
Proof. by destruct m. Qed.

(** A tick of the playback loop on an active manager: some work that
    changes neither the configuration nor the activity, then a
    timeout for the next tick. *)
Lemma startPlaybackLoop_timeout now (m : t QM) :
  _isActive m = true ->
  exists m',
    same_setup m' m
    /\ _startPlaybackLoop env now m
       = set_playbackTimer (Some (next_timer_id m'))
           (setTimeout playbackLoop (_calculateNextInterval now m') m').2.
Proof.
  intros Ha. unfold _startPlaybackLoop. rewrite Ha. cbn [negb].
  match goal with
  | |- context [setTimeout playbackLoop (_calculateNextInterval now ?x) _] =>
      exists x
  end.
  split; [|done].
  assert (Htrans : forall x y z : t QM,
             same_setup x y -> same_setup y z -> same_setup x z).
  { intros x y z [H1 H2] [H3 H4]. split; congruence. }
  assert (Hmon : forall f (x : t QM), same_setup (with_monitor f x) x).
  { intros f x. unfold with_monitor. by destruct (_qualityMonitor x). }
  assert (Hplay : forall x : t QM, same_setup (_playNextFrame env now x) x).
  { intros x. unfold _playNextFrame.
    destruct (RingBuffer.shift (_buffer x)) as [[frame|] buffer]; [|done].
    by destruct (playSound _ _ _ _). }
  assert (Hloop : forall n (x : t QM),
             same_setup (schedule_loop env now n x) x).
  { induction n as [|n IH]; intros x; [done|]. simpl.
    destruct (RingBuffer.isEmpty _); [done|].
    eapply Htrans; [apply IH|apply Hplay]. }
  destruct (_ <? _).
  - unfold _handleUnderrun, _insertSilenceFrame.
    destruct (_ <? 0).
    + eapply Htrans; apply Hmon.
    + eapply Htrans; [|apply Hmon]. eapply Htrans; [|apply Hmon]. done.
  - unfold _scheduleNextFrames. eapply Htrans; [apply Hloop|apply Hmon].
Qed.

(** [startPlayback] on a destroyed manager: the manager is active
    again; with a positive target it waits for a buffer level that
    no call can bring, and plays nothing. *)
Lemma destroyed_startPlayback now (m : t QM) :
  destroyed m ->
  isPlaying (startPlayback env now m) = true
  /\ (0 < IAudioBufferConfig.targetBufferMs (_config m) ->
      startPlayback env now m
      = (setTimeout
           (checkBuffer
              (Z.min (IAudioBufferConfig.targetBufferMs (_config m)) 200))
           _bufferCheckIntervalMs
           (set_lastPlaybackTime now (set_isActive true m))).2).
Proof.
  intros Hd. pose proof (destroyed_getCurrentBufferMs m Hd) as Hc.
  destruct Hd as (Ha & Hfp & Hqm & Hb & Hn & Ht).
  unfold startPlayback. rewrite Ha.
  set (m1 := set_lastPlaybackTime now (set_isActive true m)).
  assert (Hc1 : getCurrentBufferMs m1 = 0) by exact Hc.
  unfold run_checkBuffer. rewrite Hc1.
  change (_isActive m1) with true. change (_config m1) with (_config m).
  cbn [negb orb]. rewrite orb_false_r. split.
  - destruct (_ <=? 0); [|done].
    destruct (startPlaybackLoop_timeout now m1 eq_refl)
      as (m' & [_ Hact] & ->).
    exact Hact.
  - intros Hpos. destruct (Z.leb_spec
      (Z.min (IAudioBufferConfig.targetBufferMs (_config m)) 200) 0);
      [lia|done].
Qed.

End ManagerFacts.

(** ** Claims on the buffer manager *)

(** A manager built with the default configuration
    (120 <= 240 <= 480): after [updateConfig({ minBufferMs: 1000 })] the
    minimum exceeds the target and the maximum. *)
Lemma C4_updateConfig_counterexample :
  exists m,
    AudioBufferManager.new (H := fixed_monitor 0) IAudioBufferConfig.no_change
    = Return m
    /\ IAudioBufferConfig.ordered (AudioBufferManager._config m)
    /\ ~ IAudioBufferConfig.ordered
           (AudioBufferManager._config
              (AudioBufferManager.updateConfig
                 {| IAudioBufferConfig.p_targetBufferMs := None;
                    IAudioBufferConfig.p_minBufferMs := Some 1000;
                    IAudioBufferConfig.p_maxBufferMs := None;
                    IAudioBufferConfig.p_frameIntervalMs := None;
                    IAudioBufferConfig.p_sampleRate := None |} m)).
Proof.
  eexists. split; [reflexivity|]. unfold IAudioBufferConfig.ordered. simpl.
  split; lia.
Qed.

(** C4, amended. [updateConfig] replaces the fields that the partial
    configuration gives, keeps the others and clamps nothing: the
    ordering [minBufferMs <= targetBufferMs <= maxBufferMs] holds after
    the call exactly when the merged values satisfy it.
    [applyAdaptiveAdjustments] changes the target only: when the
    monitor recommends a non-zero adjustment the target becomes
    [target + adjustment] clamped into [[minBufferMs, maxBufferMs]], so
    that the ordering holds afterwards as soon as
    [minBufferMs <= maxBufferMs]; with a zero adjustment the
    configuration is unchanged. *)
Theorem C4_updateConfig_merges_adaptive_clamps
    {QM : Type} `{IQualityMonitor QM}
    (config : IAudioBufferConfig.partial) (m : AudioBufferManager.t QM) :
  let old := AudioBufferManager._config m in
  let merged :=
    AudioBufferManager._config (AudioBufferManager.updateConfig config m) in
  let adapted :=
    AudioBufferManager._config (AudioBufferManager.applyAdaptiveAdjustments m) in
  merged = IAudioBufferConfig.spread old config
  /\ (IAudioBufferConfig.ordered merged <->
      default (IAudioBufferConfig.minBufferMs old)
        (IAudioBufferConfig.p_minBufferMs config)
      <= default (IAudioBufferConfig.targetBufferMs old)
           (IAudioBufferConfig.p_targetBufferMs config)
      <= default (IAudioBufferConfig.maxBufferMs old)
           (IAudioBufferConfig.p_maxBufferMs config))
  /\ IAudioBufferConfig.minBufferMs adapted = IAudioBufferConfig.minBufferMs old
  /\ IAudioBufferConfig.maxBufferMs adapted = IAudioBufferConfig.maxBufferMs old
  /\ IAudioBufferConfig.frameIntervalMs adapted
     = IAudioBufferConfig.frameIntervalMs old
  /\ IAudioBufferConfig.targetBufferMs adapted
     = match AudioBufferManager._qualityMonitor m with
       | None => IAudioBufferConfig.targetBufferMs old
       | Some qm =>
           let adjustment := (getRecommendedAdjustment qm).1 in
           if adjustment =? 0 then IAudioBufferConfig.targetBufferMs old
           else Z.max (IAudioBufferConfig.minBufferMs old)
                  (Z.min (IAudioBufferConfig.maxBufferMs old)
                     (IAudioBufferConfig.targetBufferMs old + adjustment))
       end
  /\ (forall qm,
        AudioBufferManager._qualityMonitor m = Some qm ->
        (getRecommendedAdjustment qm).1 <> 0 ->
        IAudioBufferConfig.minBufferMs old <= IAudioBufferConfig.maxBufferMs old ->
        IAudioBufferConfig.ordered adapted)
  /\ (IAudioBufferConfig.ordered old -> IAudioBufferConfig.ordered adapted).
Proof.
  cbv zeta.
  assert (Htarget :
    IAudioBufferConfig.minBufferMs
      (AudioBufferManager._config (AudioBufferManager.applyAdaptiveAdjustments m))
    = IAudioBufferConfig.minBufferMs (AudioBufferManager._config m)
    /\ IAudioBufferConfig.maxBufferMs
         (AudioBufferManager._config (AudioBufferManager.applyAdaptiveAdjustments m))
       = IAudioBufferConfig.maxBufferMs (AudioBufferManager._config m)
    /\ IAudioBufferConfig.frameIntervalMs
         (AudioBufferManager._config (AudioBufferManager.applyAdaptiveAdjustments m))
       = IAudioBufferConfig.frameIntervalMs (AudioBufferManager._config m)
    /\ IAudioBufferConfig.targetBufferMs
         (AudioBufferManager._config (AudioBufferManager.applyAdaptiveAdjustments m))
       = match AudioBufferManager._qualityMonitor m with
         | None => IAudioBufferConfig.targetBufferMs (AudioBufferManager._config m)
         | Some qm =>
             if (getRecommendedAdjustment qm).1 =? 0
             then IAudioBufferConfig.targetBufferMs (AudioBufferManager._config m)
             else Z.max (IAudioBufferConfig.minBufferMs (AudioBufferManager._config m))
                    (Z.min (IAudioBufferConfig.maxBufferMs (AudioBufferManager._config m))
                       (IAudioBufferConfig.targetBufferMs (AudioBufferManager._config m)
                        + (getRecommendedAdjustment qm).1))
         end).
  { unfold AudioBufferManager.applyAdaptiveAdjustments.
    destruct (AudioBufferManager._qualityMonitor m) as [qm|]; [|done].
    destruct (getRecommendedAdjustment qm) as [adjustment qm'].
    cbn [fst]. destruct (Z.eqb_spec adjustment 0); cbn [negb]; [done|].
    cbn [AudioBufferManager.set_qualityMonitor AudioBufferManager._config].
    match goal with |- context [negb (?a =? ?b)] =>
      destruct (Z.eqb_spec a b) as [Heq|Hne] end; cbn [negb]; simpl; auto. }
  destruct Htarget as (Hmin & Hmax & Hfi & Htg).
  split; [done|]. split; [done|].
  split; [done|]. split; [done|]. split; [done|]. split; [exact Htg|].
  unfold IAudioBufferConfig.ordered. rewrite Hmin, Hmax, Htg. split.
  - intros qm -> Hadj Hle.
    destruct (Z.eqb_spec (getRecommendedAdjustment qm).1 0); [done|]. lia.
  - intros Hord. destruct (AudioBufferManager._qualityMonitor m); [|done].
    destruct (_ =? 0); lia.
Qed.

(** A manager built with the default configuration, destroyed, then
    asked to start playback, reports that it is playing, and no error
    is raised: [startPlayback] tests nothing but the flag that
    [destroy] has just made false. *)
Lemma C5_startPlayback_counterexample :
  exists m,
    AudioBufferManager.new (H := fixed_monitor 0) IAudioBufferConfig.no_change
    = Return m
    /\ AudioBufferManager.isPlaying (AudioBufferManager.destroy m) = false
    /\ AudioBufferManager.isPlaying
         (AudioBufferManager.startPlayback (H := fixed_monitor 0)
            plain_platform 5 (AudioBufferManager.destroy m))
       = true.
Proof. eexists. split; [reflexivity|]. split; reflexivity. Qed.

(** C5, amended. No method of the manager raises. [destroy()] leaves
    the manager destroyed: inactive, without processor nor monitor,
    with an empty buffer; [isPlaying] then returns false,
    [getCurrentBufferMs] returns 0 and [getHealthMetrics] the idle
    snapshot with zero counters. Every later call other than
    [startPlayback] leaves it destroyed, and [isPlaying] false:
    [updateConfig] still merges the configuration and changes nothing
    else, the other calls, and [destroy] again, change nothing at all. *)
Theorem C5_calls_after_destroy
    {QM : Type} `{IQualityMonitor QM} (env : platform)
    (m : AudioBufferManager.t QM) (now : Z) (c : AudioBufferManager.call) :
  let d := AudioBufferManager.destroy m in
  destroyed d
  /\ AudioBufferManager.isPlaying d = false
  /\ AudioBufferManager.getCurrentBufferMs d = 0
  /\ AudioBufferManager.getHealthMetrics d
     = ({| IBufferHealthMetrics.currentBufferMs := 0;
           IBufferHealthMetrics.targetBufferMs :=
             IAudioBufferConfig.targetBufferMs (AudioBufferManager._config m);
           IBufferHealthMetrics.underrunCount := 0;
           IBufferHealthMetrics.overrunCount := 0;
           IBufferHealthMetrics.averageJitter := 0;
           IBufferHealthMetrics.bufferHealthState := idle;
           IBufferHealthMetrics.adaptiveAdjustmentsCount := 0 |}, d)
  /\ AudioBufferManager.destroy d = d
  /\ (c <> AudioBufferManager.StartPlayback ->
      destroyed (AudioBufferManager.after env c now d)
      /\ AudioBufferManager.isPlaying (AudioBufferManager.after env c now d)
         = false
      /\ AudioBufferManager.after env c now d
         = match c with
           | AudioBufferManager.UpdateConfig config =>
               AudioBufferManager.set_config
                 (IAudioBufferConfig.spread (AudioBufferManager._config m)
                    config) d
           | _ => d
           end).
Proof.
  cbv zeta.
  pose proof (destroy_destroyed m) as Hd.
  destruct (destroy_fields m) as (Ha & _ & _ & _ & _ & _ & Hc & _).
  split; [exact Hd|]. split; [exact Ha|].
  split; [by apply destroyed_getCurrentBufferMs|].
  split; [by rewrite destroyed_getHealthMetrics, Hc|].
  split; [by apply destroyed_destroy|].
  intros Hc'.
  assert (Hafter :
    AudioBufferManager.after env c now (AudioBufferManager.destroy m)
    = match c with
      | AudioBufferManager.UpdateConfig config =>
          AudioBufferManager.set_config
            (IAudioBufferConfig.spread (AudioBufferManager._config m) config)
            (AudioBufferManager.destroy m)
      | _ => AudioBufferManager.destroy m
      end).
  { destruct c; cbn [AudioBufferManager.after].
    - apply destroyed_enqueueFrames, Hd.
    - contradiction.
    - apply destroyed_stopPlayback, Hd.
    - reflexivity.
    - rewrite destroyed_getHealthMetrics; [reflexivity|exact Hd].
    - unfold AudioBufferManager.updateConfig. rewrite Hc. reflexivity.
    - apply destroyed_applyAdaptiveAdjustments, Hd.
    - reflexivity. }
  rewrite Hafter.
  assert (Hstill :
    destroyed
      match c with
      | AudioBufferManager.UpdateConfig config =>
          AudioBufferManager.set_config
            (IAudioBufferConfig.spread (AudioBufferManager._config m) config)
            (AudioBufferManager.destroy m)
      | _ => AudioBufferManager.destroy m
      end).
  { destruct c; exact Hd. }
  split; [exact Hstill|]. split; [apply Hstill|reflexivity].
Qed.

Example enqueue_then_read :
  forall m : AudioBufferManager.t unit,
    AudioBufferManager.new (H := fixed_monitor 0) IAudioBufferConfig.no_change
    = Return m ->
    let payload := JSObject (JSAudio (AVUint8Array (repeat "000"%byte 64)))
                     None None in
    let m1 :=
      AudioBufferManager.enqueueFrames (H := fixed_monitor 0)
        plain_platform payload 7 m in
    AudioBufferManager.getCurrentBufferMs m1 = 2
    /\ AudioBufferManager.getCurrentBufferMs
         (AudioBufferManager.enqueueFrames (H := fixed_monitor 0)
            plain_platform payload 9 m1) = 4
    /\ AudioBufferManager.getCurrentBufferMs
         (AudioBufferManager.enqueueFrames (H := fixed_monitor 0)
            plain_platform payload 9 (AudioBufferManager.destroy m1)) = 0.
Proof. intros m [= <-]. cbv zeta. repeat split; vm_compute; reflexivity. Qed.

Section TickFacts.
Import AudioBufferManager.
Context {QM : Type} `{IQualityMonitor QM}.
Variable env : platform.








End TickFacts.



(** A late tick and a tick on time, both on a buffer below its minimum:
    the last playback was at 1000 and the frame interval is 20 ms; at
    1027 the next tick is set 13 ms later, at 1020 it is set 20 ms
    later. A tick that plays a frame takes the time of the last
    playback from the clock, and sets the next one 40 ms later. *)
Example tick_delays :
  let at_1000 frames :=
    AudioBufferManager.set_lastPlaybackTime 1000
      (sample_manager true frames) in
  let delays (m : AudioBufferManager.t unit) :=
    AudioBufferManager.timer_delay <$> AudioBufferManager.pending m in
  delays (AudioBufferManager._startPlaybackLoop (H := fixed_monitor 0)
            plain_platform 1027 (at_1000 [])) = [13]
  /\ delays (AudioBufferManager._startPlaybackLoop (H := fixed_monitor 0)
               plain_platform 1020 (at_1000 [])) = [20]
  /\ delays (AudioBufferManager._startPlaybackLoop (H := fixed_monitor 0)
               plain_platform 1027
               (at_1000 (List.map (fun n => sample_frame n 20)
                           [0; 1; 2; 3; 4; 5; 6]))) = [40].
Proof. cbv zeta. repeat split; vm_compute; reflexivity. Qed.

Example next_interval_examples :
  forall m : AudioBufferManager.t unit,
    AudioBufferManager.new (H := fixed_monitor 0) IAudioBufferConfig.no_change
    = Return m ->
    AudioBufferManager._calculateNextInterval 25 m = 15
    /\ AudioBufferManager._calculateNextInterval 100 m = 1.
Proof. intros m [= <-]. split; reflexivity. Qed.
(** ** More on the ring buffer *)

Section RingBufferMore.
Variable capacity : Z.
Hypothesis capacity_pos : 0 < capacity.

Lemma peek_repr rb q :
  repr capacity rb q -> RingBuffer.peek rb = head q.
Proof.
  intros H. rewrite <- (shift_result capacity rb q H).
  unfold RingBuffer.peek, RingBuffer.shift. by destruct (_ =? 0).
Qed.

Lemma shifts_repr (n : nat) : forall rb q,
  repr capacity rb q ->
  (RingBuffer.shifts n rb).1
  = (Some <$> take n q) ++ replicate (n - List.length q) None
  /\ repr capacity (RingBuffer.shifts n rb).2 (drop n q).
Proof.
  induction n as [|n IH]; intros rb q H.
  - simpl. by rewrite drop_0.
  - cbn [RingBuffer.shifts].
    pose proof (shift_result capacity rb q H) as Hres.
    pose proof (repr_shift capacity capacity_pos rb q H) as Hnext.
    destruct (RingBuffer.shift rb) as [frame rb1]. simpl in Hres, Hnext.
    destruct (IH rb1 _ Hnext) as [IH1 IH2].
    destruct (RingBuffer.shifts n rb1) as [rest rb2]. simpl in *.
    rewrite drop_drop in IH2. split; [|exact IH2].
    rewrite IH1, Hres. destruct q as [|f q]; simpl.
    + rewrite !take_nil. simpl. by rewrite Nat.sub_0_r.
    + done.
Qed.

(** A cleared buffer is a new buffer. *)
Lemma clear_repr_new rb q :
  repr capacity rb q -> RingBuffer.clear rb = RingBuffer.new capacity.
Proof.
  intros H.
  pose proof (repr_clear capacity capacity_pos rb q H) as [Hc _ _ _ _ Hsl].
  unfold RingBuffer.new. unfold RingBuffer.clear in *.
  destruct rb as [buffer cap hd tl sz]. simpl in *. subst cap.
  f_equal. apply map_eq. intros i.
  rewrite Hsl, lookup_empty. unfold lookupZ.
  repeat case_match; by rewrite ?lookup_nil.
Qed.
End RingBufferMore.

(** X1. On a buffer of positive capacity, in any state that calls of
    [push], [shift], [unshift], [dropOldest] and [clear] can reach,
    [shift] returns the oldest frame and removes it, keeping the order
    of the others; [peek] returns the same frame; on an empty buffer
    both return [null] and [shift] changes nothing. *)
Theorem X1_shift_returns_oldest
    (capacity : Z) (ops : list RingBuffer.op) :
  0 < capacity ->
  let rb := RingBuffer.run ops (RingBuffer.new capacity) in
  (RingBuffer.shift rb).1 = head (RingBuffer.frames rb)
  /\ RingBuffer.peek rb = head (RingBuffer.frames rb)
  /\ RingBuffer.frames (RingBuffer.shift rb).2 = drop 1 (RingBuffer.frames rb)
  /\ RingBuffer.length (RingBuffer.shift rb).2
     = Z.max 0 (RingBuffer.length rb - 1)
  /\ (RingBuffer.frames rb = [] -> RingBuffer.shift rb = (None, rb)).
Proof.
  intros Hc rb.
  pose proof (repr_run capacity Hc ops _ _ (repr_new capacity Hc)) as H.
  fold rb in H.
  pose proof (repr_shift capacity Hc _ _ H) as H'.
  rewrite (frames_repr capacity Hc _ _ H), (frames_repr capacity Hc _ _ H').
  split; [by apply (shift_result capacity)|].
  split; [by apply (peek_repr capacity)|].
  split; [done|]. split.
  - unfold RingBuffer.length. rewrite (repr_size _ _ _ H'), (repr_size _ _ _ H).
    simpl. rewrite length_drop. lia.
  - intros Hq. unfold RingBuffer.shift. rewrite (repr_size _ _ _ H), Hq. done.
Qed.

Lemma X1_shift_witness :
  0 < 2 /\
  let rb :=
    RingBuffer.run
      [RingBuffer.Push (sample_frame 0 20); RingBuffer.Push (sample_frame 1 20);
       RingBuffer.Push (sample_frame 2 20)]
      (RingBuffer.new 2) in
  (RingBuffer.shift rb).1 = head (RingBuffer.frames rb)
  /\ RingBuffer.peek rb = head (RingBuffer.frames rb)
  /\ RingBuffer.frames (RingBuffer.shift rb).2 = drop 1 (RingBuffer.frames rb)
  /\ RingBuffer.length (RingBuffer.shift rb).2
     = Z.max 0 (RingBuffer.length rb - 1)
  /\ (RingBuffer.frames rb = [] -> RingBuffer.shift rb = (None, rb)).
Proof.
  split; [lia|].
  apply (X1_shift_returns_oldest 2
           [RingBuffer.Push (sample_frame 0 20);
            RingBuffer.Push (sample_frame 1 20);
            RingBuffer.Push (sample_frame 2 20)]).
  lia.
Defined.

(** X2. Frames pushed on a new buffer of positive capacity come out of
    successive [shift] calls in the order pushed, the last [capacity]
    of them when more were pushed; the calls of [shift] that follow
    return [null], and the buffer is then empty. *)
Theorem X2_push_then_shift_round_trip
    (capacity : Z) (pushed : list IAudioFrame) (n : nat) :
  0 < capacity ->
  let kept := drop (List.length pushed - Z.to_nat capacity) pushed in
  let rb :=
    RingBuffer.run (RingBuffer.Push <$> pushed) (RingBuffer.new capacity) in
  (RingBuffer.shifts n rb).1
  = (Some <$> take n kept) ++ replicate (n - List.length kept) None
  /\ RingBuffer.frames (RingBuffer.shifts n rb).2 = drop n kept
  /\ ((List.length kept <= n)%nat ->
      RingBuffer.isEmpty (RingBuffer.shifts n rb).2 = true).
Proof.
  intros Hc kept rb.
  pose proof (repr_run capacity Hc (RingBuffer.Push <$> pushed) _ _
                (repr_new capacity Hc)) as H.
  rewrite queue_run_pushes in H by done. fold kept rb in H.
  destruct (shifts_repr capacity Hc n rb kept H) as [H1 H2].
  split; [exact H1|]. split; [by apply (frames_repr capacity Hc)|].
  intros Hn. unfold RingBuffer.isEmpty. rewrite (repr_size _ _ _ H2).
  rewrite length_drop. apply Z.eqb_eq. lia.
Qed.

Lemma X2_round_trip_witness :
  0 < 2 /\
  let pushed := [sample_frame 0 20; sample_frame 1 20; sample_frame 2 20] in
  let kept := drop (List.length pushed - Z.to_nat 2) pushed in
  let rb := RingBuffer.run (RingBuffer.Push <$> pushed) (RingBuffer.new 2) in
  (RingBuffer.shifts 3 rb).1
  = (Some <$> take 3 kept) ++ replicate (3 - List.length kept) None
  /\ RingBuffer.frames (RingBuffer.shifts 3 rb).2 = drop 3 kept
  /\ ((List.length kept <= 3)%nat ->
      RingBuffer.isEmpty (RingBuffer.shifts 3 rb).2 = true).
Proof.
  split; [lia|].
  apply (X2_push_then_shift_round_trip 2
           [sample_frame 0 20; sample_frame 1 20; sample_frame 2 20] 3).
  lia.
Defined.

(** X3. On a reachable buffer of positive capacity, [unshift] puts the
    frame in front of all the others, so that the next [shift] returns
    it; when the buffer was full the newest frame is the one dropped.
    The buffer holds at most [capacity] frames afterwards. *)
Theorem X3_unshift_inserts_in_front
    (capacity : Z) (ops : list RingBuffer.op) (frame : IAudioFrame) :
  0 < capacity ->
  let rb := RingBuffer.run ops (RingBuffer.new capacity) in
  let rb' := RingBuffer.unshift frame rb in
  RingBuffer.frames rb'
  = frame :: (if RingBuffer.isFull rb
              then take (List.length (RingBuffer.frames rb) - 1)
                     (RingBuffer.frames rb)
              else RingBuffer.frames rb)
  /\ (RingBuffer.shift rb').1 = Some frame
  /\ RingBuffer.peek rb' = Some frame
  /\ 1 <= RingBuffer.length rb' <= capacity.
Proof.
  intros Hc rb rb'.
  pose proof (repr_run capacity Hc ops _ _ (repr_new capacity Hc)) as H.
  fold rb in H.
  pose proof (repr_unshift capacity Hc frame _ _ H) as H'. fold rb' in H'.
  rewrite (frames_repr capacity Hc _ _ H), (frames_repr capacity Hc _ _ H').
  rewrite (shift_result capacity _ _ H'), (peek_repr capacity _ _ H').
  split.
  { unfold RingBuffer.isFull. simpl.
    by rewrite (repr_size _ _ _ H), (repr_capacity _ _ _ H). }
  split; [done|]. split; [done|].
  pose proof (repr_size _ _ _ H'). pose proof (repr_bound _ _ _ H').
  unfold RingBuffer.length. simpl in *. lia.
Qed.

Lemma X3_unshift_witness :
  0 < 2 /\
  let rb :=
    RingBuffer.run
      [RingBuffer.Push (sample_frame 0 20); RingBuffer.Push (sample_frame 1 20)]
      (RingBuffer.new 2) in
  let rb' := RingBuffer.unshift (sample_frame 9 20) rb in
  RingBuffer.frames rb'
  = sample_frame 9 20
    :: (if RingBuffer.isFull rb
        then take (List.length (RingBuffer.frames rb) - 1)
               (RingBuffer.frames rb)
        else RingBuffer.frames rb)
  /\ (RingBuffer.shift rb').1 = Some (sample_frame 9 20)
  /\ RingBuffer.peek rb' = Some (sample_frame 9 20)
  /\ 1 <= RingBuffer.length rb' <= 2.
Proof.
  split; [lia|].
  apply (X3_unshift_inserts_in_front 2
           [RingBuffer.Push (sample_frame 0 20);
            RingBuffer.Push (sample_frame 1 20)]
           (sample_frame 9 20)).
  lia.
Defined.

(** X4. On a reachable buffer of positive capacity, [dropOldest(count)]
    removes the [count] oldest frames, all of them when the buffer
    holds fewer, and returns the number removed, which is the smaller
    of [count] and the number of frames held. *)
Theorem X4_dropOldest_drops_and_counts
    (capacity : Z) (ops : list RingBuffer.op) (count : nat) :
  0 < capacity ->
  let rb := RingBuffer.run ops (RingBuffer.new capacity) in
  let dropped := (RingBuffer.dropOldest (Z.of_nat count) rb).1 in
  let rb' := (RingBuffer.dropOldest (Z.of_nat count) rb).2 in
  dropped = Z.min (Z.of_nat count) (RingBuffer.length rb)
  /\ RingBuffer.frames rb' = drop count (RingBuffer.frames rb)
  /\ RingBuffer.length rb' = RingBuffer.length rb - dropped
  /\ 0 <= RingBuffer.length rb'.
Proof.
  intros Hc rb dropped rb'.
  pose proof (repr_run capacity Hc ops _ _ (repr_new capacity Hc)) as H.
  fold rb in H.
  pose proof (repr_dropOldest capacity Hc count _ _ H) as H'. fold rb' in H'.
  rewrite (frames_repr capacity Hc _ _ H), (frames_repr capacity Hc _ _ H').
  subst dropped. rewrite (dropOldest_result capacity count _ _ H).
  unfold RingBuffer.length.
  rewrite (repr_size _ _ _ H'), (repr_size _ _ _ H). simpl.
  rewrite length_drop. repeat split; lia.
Qed.

Lemma X4_dropOldest_witness :
  0 < 3 /\
  let rb :=
    RingBuffer.run
      [RingBuffer.Push (sample_frame 0 20); RingBuffer.Push (sample_frame 1 20)]
      (RingBuffer.new 3) in
  let dropped := (RingBuffer.dropOldest (Z.of_nat 5) rb).1 in
  let rb' := (RingBuffer.dropOldest (Z.of_nat 5) rb).2 in
  dropped = Z.min (Z.of_nat 5) (RingBuffer.length rb)
  /\ RingBuffer.frames rb' = drop 5 (RingBuffer.frames rb)
  /\ RingBuffer.length rb' = RingBuffer.length rb - dropped
  /\ 0 <= RingBuffer.length rb'.
Proof.
  split; [lia|].
  apply (X4_dropOldest_drops_and_counts 3
           [RingBuffer.Push (sample_frame 0 20);
            RingBuffer.Push (sample_frame 1 20)] 5).
  lia.
Defined.

(** X5. On a buffer of positive capacity, [clear] after any calls
    gives back the buffer that the constructor builds: every slot
    [null], both positions and the size at 0. *)
Theorem X5_clear_gives_a_new_buffer
    (capacity : Z) (ops : list RingBuffer.op) :
  0 < capacity ->
  RingBuffer.clear (RingBuffer.run ops (RingBuffer.new capacity))
  = RingBuffer.new capacity.
Proof.
  intros Hc. eapply clear_repr_new, repr_run, repr_new; done.
Qed.

Lemma X5_clear_witness :
  0 < 2 /\
  RingBuffer.clear
    (RingBuffer.run
       [RingBuffer.Push (sample_frame 0 20); RingBuffer.Unshift (sample_frame 1 20);
        RingBuffer.Push (sample_frame 2 20)]
       (RingBuffer.new 2))
  = RingBuffer.new 2.
Proof.
  split; [lia|].
  apply (X5_clear_gives_a_new_buffer 2
           [RingBuffer.Push (sample_frame 0 20);
            RingBuffer.Unshift (sample_frame 1 20);
            RingBuffer.Push (sample_frame 2 20)]).
  lia.
Defined.

(** X6. On a buffer of positive capacity, after any calls: the read and
    write positions are slots of the array, the write position is the
    read position plus the size modulo the capacity, the size is
    between 0 and the capacity, [isFull] holds exactly at capacity,
    [isEmpty] exactly when no frame is held, and [getUtilization] is
    between 0 and 100. *)
Theorem X6_positions_and_size_invariant
    (capacity : Z) (ops : list RingBuffer.op) :
  0 < capacity ->
  let rb := RingBuffer.run ops (RingBuffer.new capacity) in
  RingBuffer.capacity rb = capacity
  /\ 0 <= RingBuffer._tail rb < capacity
  /\ 0 <= RingBuffer._head rb < capacity
  /\ RingBuffer._head rb
     = (RingBuffer._tail rb + RingBuffer.length rb) mod capacity
  /\ 0 <= RingBuffer.length rb <= capacity
  /\ (RingBuffer.isFull rb = true <-> RingBuffer.length rb = capacity)
  /\ (RingBuffer.isEmpty rb = true <-> RingBuffer.frames rb = [])
  /\ (0 <= RingBuffer.getUtilization rb <= 100)%Q.
Proof.
  intros Hc rb.
  pose proof (repr_run capacity Hc ops _ _ (repr_new capacity Hc)) as H.
  fold rb in H. rewrite (frames_repr capacity Hc _ _ H).
  set (q := RingBuffer.queue_run capacity ops []) in *.
  destruct H as [Hcap Ht Hs Hb Hh Hsl].
  unfold RingBuffer.capacity, RingBuffer.length, RingBuffer.isFull,
    RingBuffer.isEmpty, RingBuffer.getUtilization.
  rewrite Hh, Hcap.
  assert (Hsz : 0 <= RingBuffer._size rb) by lia.
  split; [done|]. split; [done|]. split; [unfold wrap; split_cmp; lia|].
  split.
  { rewrite <- Z.rem_mod_nonneg by lia. symmetry. apply rem_wrap; lia. }
  split; [lia|]. split.
  { rewrite Z.geb_leb, Z.leb_le. lia. }
  split.
  { rewrite Z.eqb_eq, Hs. destruct q; simpl; split; try done; lia. }
  assert (Hq : (inject_Z (RingBuffer._size rb) / inject_Z capacity * 100
                == inject_Z (100 * RingBuffer._size rb) / inject_Z capacity)%Q).
  { rewrite inject_Z_mult. change (inject_Z 100) with 100%Q.
    field. intros Hz. apply (inject_Z_injective capacity 0) in Hz. lia. }
  rewrite Hq.
  assert (Hpos : (0 < inject_Z capacity)%Q).
  { change 0%Q with (inject_Z 0). rewrite <- Zlt_Qlt. lia. }
  split.
  - apply Qle_shift_div_l; [done|]. rewrite Qmult_0_l.
    change 0%Q with (inject_Z 0). rewrite <- Zle_Qle. lia.
  - apply Qle_shift_div_r; [done|].
    change 100%Q with (inject_Z 100). rewrite <- inject_Z_mult, <- Zle_Qle.
    lia.
Qed.

Lemma X6_invariant_witness :
  0 < 2 /\
  let rb :=
    RingBuffer.run
      [RingBuffer.Push (sample_frame 0 20); RingBuffer.Unshift (sample_frame 1 20);
       RingBuffer.Push (sample_frame 2 20); RingBuffer.Shift]
      (RingBuffer.new 2) in
  RingBuffer.capacity rb = 2
  /\ 0 <= RingBuffer._tail rb < 2
  /\ 0 <= RingBuffer._head rb < 2
  /\ RingBuffer._head rb
     = (RingBuffer._tail rb + RingBuffer.length rb) mod 2
  /\ 0 <= RingBuffer.length rb <= 2
  /\ (RingBuffer.isFull rb = true <-> RingBuffer.length rb = 2)
  /\ (RingBuffer.isEmpty rb = true <-> RingBuffer.frames rb = [])
  /\ (0 <= RingBuffer.getUtilization rb <= 100)%Q.
Proof.
  split; [lia|].
  apply (X6_positions_and_size_invariant 2
           [RingBuffer.Push (sample_frame 0 20);
            RingBuffer.Unshift (sample_frame 1 20);
            RingBuffer.Push (sample_frame 2 20); RingBuffer.Shift]).
  lia.
Defined.

(** ** More on the frame processor *)

Lemma base64_char_not_whitespace (c : jschar) :
  FrameProcessor.is_base64_char c || FrameProcessor.is_padding_char c = true ->
  FrameProcessor.is_whitespace c = false.
Proof.
  unfold FrameProcessor.is_base64_char, FrameProcessor.is_padding_char,
    FrameProcessor.is_whitespace.
  intros H. apply not_true_is_false. intros Hw.
  repeat rewrite ?orb_true_iff, ?andb_true_iff, ?N.leb_le, ?N.eqb_eq in H.
  repeat rewrite ?orb_true_iff, ?andb_true_iff, ?N.leb_le, ?N.eqb_eq in Hw.
  lia.
Qed.

(** A character of the table is in the class [[A-Za-z0-9+/]]. *)
Lemma charAt_chars_base64 (x : Z) :
  exists c, FrameProcessor.charAt FrameProcessor.chars (Z.land x 63) = [c]
            /\ FrameProcessor.is_base64_char c = true.
Proof.
  pose proof (land_63_bounds x) as Hk. generalize dependent (Z.land x 63).
  intros k Hk. replace k with (Z.of_nat (Z.to_nat k)) by lia.
  assert (Hn : (Z.to_nat k < 64)%nat) by lia.
  generalize dependent (Z.to_nat k). clear k Hk. intros n Hn.
  do 64 (destruct n as [|n]; [vm_compute; eauto|]). lia.
Qed.

(** The text that the fallback loop appends: characters of the class,
    then the padding. *)
Lemma base64_loop_shape bytes len (n : nat) : forall i result,
  (n = 0%nat \/ 3 * Z.of_nat n - 3 < len - i <= 3 * Z.of_nat n) ->
  exists body,
    FrameProcessor.base64_loop bytes len n i result
    = result ++ body
      ++ replicate (if decide (n = 0%nat) then 0%nat
                    else Z.to_nat (3 * Z.of_nat n - (len - i))) 61%N
    /\ Forall (fun c => FrameProcessor.is_base64_char c = true) body.
Proof.
  induction n as [|n IH]; intros i result Hn.
  - exists []. simpl. by rewrite app_nil_r.
  - destruct Hn as [Hn|Hn]; [done|].
    cbn [FrameProcessor.base64_loop]. cbv zeta.
    set (a := FrameProcessor.byte_at bytes i).
    set (b := if i + 1 <? len then _ else 0).
    set (c := if i + 2 <? len then _ else 0).
    set (bitmap := Z.lor (Z.lor (Z.shiftl a 16) (Z.shiftl b 8)) c).
    destruct (charAt_chars_base64 (Z.shiftr bitmap 18)) as (c1 & -> & Hc1).
    destruct (charAt_chars_base64 (Z.shiftr bitmap 12)) as (c2 & -> & Hc2).
    destruct (charAt_chars_base64 (Z.shiftr bitmap 6)) as (c3 & -> & Hc3).
    destruct (charAt_chars_base64 bitmap) as (c4 & -> & Hc4).
    destruct (decide (S n = 0%nat)); [done|].
    destruct (decide (n = 0%nat)) as [->|Hn0].
    + simpl FrameProcessor.base64_loop.
      destruct (Z.ltb_spec (i + 1) len), (Z.ltb_spec (i + 2) len); try lia.
      * exists [c1; c2; c3; c4].
        replace (Z.to_nat (3 * Z.of_nat 1 - (len - i))) with 0%nat by lia.
        rewrite <- !app_assoc. simpl. split; [done|]. by repeat constructor.
      * exists [c1; c2; c3].
        replace (Z.to_nat (3 * Z.of_nat 1 - (len - i))) with 1%nat by lia.
        rewrite <- !app_assoc. simpl. split; [done|]. by repeat constructor.
      * exists [c1; c2].
        replace (Z.to_nat (3 * Z.of_nat 1 - (len - i))) with 2%nat by lia.
        rewrite <- !app_assoc. simpl. split; [done|]. by repeat constructor.
    + destruct (Z.ltb_spec (i + 1) len), (Z.ltb_spec (i + 2) len); try lia.
      match goal with |- context [FrameProcessor.base64_loop _ _ _ _ ?r] =>
        destruct (IH (i + 3) r) as (body & Hbody & Hforall); [right; lia|] end.
      destruct (decide (n = 0%nat)); [done|].
      exists ([c1; c2; c3; c4] ++ body). rewrite Hbody.
      rewrite <- !app_assoc. cbn [app]. split.
      * by replace (3 * Z.of_nat (S n) - (len - i))
          with (3 * Z.of_nat n - (len - (i + 3))) by lia.
      * by repeat constructor.
Qed.

Lemma skip_base64_chars_app body rest :
  Forall (fun c => FrameProcessor.is_base64_char c = true) body ->
  FrameProcessor.skip_base64_chars (body ++ rest)
  = FrameProcessor.skip_base64_chars rest.
Proof. induction 1 as [|c body Hc _ IH]; [done|]. simpl. by rewrite Hc. Qed.

Lemma filter_whitespace_id (s : jsstring) :
  Forall (fun c => FrameProcessor.is_base64_char c
                   || FrameProcessor.is_padding_char c = true) s ->
  List.filter (fun c => negb (FrameProcessor.is_whitespace c)) s = s.
Proof.
  induction 1 as [|c s Hc _ IH]; [done|]. simpl.
  by rewrite (base64_char_not_whitespace c Hc), IH.
Qed.

(** The text of the fallback encoder is in canonical form: the sanitizer
    returns it as it is. *)
Lemma sanitize_fallback_base64 (bytes : list Byte.byte) :
  bytes <> [] ->
  FrameProcessor._sanitizeBase64 (FrameProcessor._binaryToBase64 None bytes)
  = Return (FrameProcessor._binaryToBase64 None bytes).
Proof.
  intros Hne.
  destruct (fallback_base64_size bytes) as [Hlen _]. cbv zeta in Hlen.
  unfold FrameProcessor._binaryToBase64 in *.
  set (len := Z.of_nat (List.length bytes)) in *.
  assert (Hpos : 0 < len) by (subst len; destruct bytes; [done|simpl; lia]).
  pose proof (turns_3 len ltac:(lia)) as Ht. cbv zeta in Ht.
  destruct Ht as [[Hz _]|(_ & Hn & Hb)]; [lia|].
  destruct (base64_loop_shape bytes len (FrameProcessor.turns len 3) 0 [])
    as (body & Hshape & Hbody); [right; lia|].
  destruct (decide (FrameProcessor.turns len 3 = 0%nat)); [done|].
  simpl app in Hshape.
  set (pad := Z.to_nat (3 * Z.of_nat (FrameProcessor.turns len 3) - (len - 0)))
    in *.
  assert (Hpad : (pad <= 2)%nat) by lia.
  set (out := FrameProcessor.base64_loop bytes len
                (FrameProcessor.turns len 3) 0 []) in *.
  assert (Hall : Forall (fun c => FrameProcessor.is_base64_char c
                                  || FrameProcessor.is_padding_char c = true) out).
  { rewrite Hshape. apply Forall_app. split.
    - eapply Forall_impl; [exact Hbody|]. intros c ->. done.
    - apply Forall_replicate. by rewrite orb_true_r. }
  unfold FrameProcessor._sanitizeBase64.
  destruct out as [|c0 out'] eqn:Hout.
  { simpl in Hlen. pose proof (Z.div_str_pos (len + 2) 3). lia. }
  rewrite <- Hout in *. rewrite (filter_whitespace_id out Hall).
  assert (Hre : FrameProcessor._validBase64Regex_test out = true).
  { unfold FrameProcessor._validBase64Regex_test.
    rewrite Hshape, (skip_base64_chars_app body _ Hbody).
    destruct pad as [|[|[|pad]]]; try done. lia. }
  rewrite Hre. cbn [negb].
  assert (Hrem : Z.rem (Z.of_nat (List.length out)) 4 = 0).
  { rewrite Hlen, Z.mul_comm. apply Z.rem_mul. lia. }
  rewrite Hrem. by rewrite Hout.
Qed.

Lemma Qle_bool_inject_Z (a b : Z) :
  Qle_bool (inject_Z a) (inject_Z b) = (a <=? b).
Proof. unfold Qle_bool, inject_Z. simpl. by rewrite !Z.mul_1_r. Qed.

Lemma Qeq_bool_inject_Z (a b : Z) :
  Qeq_bool (inject_Z a) (inject_Z b) = (a =? b).
Proof. unfold Qeq_bool, inject_Z. simpl. by rewrite !Z.mul_1_r. Qed.

Lemma Qeq_bool_Qeq (x y z : Q) :
  (x == y)%Q -> Qeq_bool x z = Qeq_bool y z.
Proof.
  intros H. apply eq_true_iff_eq. rewrite !Qeq_bool_iff. by rewrite H.
Qed.

Lemma Qle_bool_Qeq (x y z : Q) :
  (x == y)%Q -> Qle_bool x z = Qle_bool y z.
Proof.
  intros H. apply eq_true_iff_eq. rewrite !Qle_bool_iff. by rewrite H.
Qed.

Lemma inject_Z_nonzero (z : Z) : z <> 0 -> ~ (inject_Z z == 0)%Q.
Proof. unfold Qeq. simpl. lia. Qed.

(** [Math.round] of a quotient of integers. *)
Lemma Qfloor_div (a b : Z) :
  0 < b -> Qfloor (inject_Z a / inject_Z b) = a / b.
Proof.
  intros Hb. destruct b as [|p|p]; try lia.
  unfold Qdiv, Qinv, Qmult, inject_Z. simpl.
  by rewrite Z.mul_1_r.
Qed.

Lemma Qle_bool_div (a b c : Z) :
  0 < b -> Qle_bool (inject_Z a / inject_Z b) (inject_Z c) = (a <=? c * b).
Proof.
  intros Hb. destruct b as [|p|p]; try lia.
  unfold Qle_bool, Qdiv, Qinv, Qmult, inject_Z. simpl.
  by rewrite !Z.mul_1_r.
Qed.

Lemma Math_round_div (a b : Z) :
  0 < b -> Math_round (inject_Z a / inject_Z b) = (2 * a + b) / (2 * b).
Proof.
  intros Hb. unfold Math_round. rewrite <- Qfloor_div by lia.
  apply Qfloor_comp. rewrite inject_Z_plus, !inject_Z_mult.
  change (inject_Z 2) with 2%Q. field.
  apply inject_Z_nonzero. lia.
Qed.

(** The duration before the check, for a text of [n] estimated bytes. *)
Lemma durationMs_of_bytes fp text (n : Z) :
  0 < FrameProcessor._bytesPerSample fp -> 0 < FrameProcessor._sampleRate fp ->
  (FrameProcessor.estimatedBytes text == inject_Z n)%Q ->
  (FrameProcessor.durationMs fp text
   == inject_Z (1000 * n)
      / inject_Z (FrameProcessor._bytesPerSample fp
                  * FrameProcessor._sampleRate fp))%Q.
Proof.
  intros Hb Hr He. unfold FrameProcessor.durationMs. rewrite He.
  rewrite !inject_Z_mult. change (inject_Z 1000) with 1000%Q.
  field. split; apply inject_Z_nonzero; lia.
Qed.

(** What [_calculateDuration] returns. *)
Lemma calculateDuration_range (fp : FrameProcessor.t) (s : jsstring) :
  FrameProcessor._calculateDuration fp s = FrameProcessor._frameIntervalMs fp
  \/ 0 <= FrameProcessor._calculateDuration fp s <= 1000.
Proof.
  unfold FrameProcessor._calculateDuration.
  destruct (Qle_bool (FrameProcessor.durationMs fp s) 0) eqn:H0;
    [by left|].
  destruct (Qle_bool (FrameProcessor.durationMs fp s) 1000) eqn:H1;
    [|by left].
  right. cbn [orb negb].
  apply Qle_bool_iff in H1.
  assert (Hpos : (0 < FrameProcessor.durationMs fp s)%Q).
  { apply Qnot_le_lt. intros Hle. apply Qle_bool_iff in Hle. congruence. }
  unfold Math_round. split.
  - change 0 with (Qfloor 0). apply Qfloor_resp_le. lra.
  - change 1000 with (Qfloor (1000 + (1 # 2))). apply Qfloor_resp_le. lra.
Qed.

Lemma parseChunk_durations (btoa : option (jsstring -> jsstring))
    (payload : js_payload) (now : Z) (fp : FrameProcessor.t) :
  Forall (fun frame =>
            duration frame = FrameProcessor._frameIntervalMs fp
            \/ 0 <= duration frame <= 1000)
    (FrameProcessor.parseChunk btoa payload now fp).1.
Proof.
  unfold FrameProcessor.parseChunk.
  destruct (FrameProcessor._isValidPayload payload); cbn [negb]; [|by simpl].
  destruct payload as [|[d|truthy] first final]; try by simpl.
  destruct (FrameProcessor._normalizeAudioData btoa d); [|by simpl].
  simpl. constructor; [apply calculateDuration_range|constructor].
Qed.

(** X7. A binary payload ([Uint8Array] or [ArrayBuffer]) yields a frame
    exactly when it holds between 1 and 65536 bytes. The frame then
    carries the current sequence number, the base64 text of the bytes,
    the flags of the payload ([false] when undefined) and the time of
    the call, and the sequence number of the processor is incremented;
    otherwise the processor is unchanged. *)
Theorem X7_binary_payload_accepted_by_size
    (btoa : option (jsstring -> jsstring)) (bytes : list Byte.byte)
    (typed : bool) (first final : option bool) (now : Z)
    (fp : FrameProcessor.t) :
  let d := if typed then AVUint8Array bytes else AVArrayBuffer bytes in
  let out := FrameProcessor.parseChunk btoa (JSObject (JSAudio d) first final)
               now fp in
  let n := Z.of_nat (List.length bytes) in
  (if (0 <? n) && (n <=? 64 * 1024)
   then exists estimated,
     out = ([{| sequenceNumber := FrameProcessor._sequenceNumber fp;
                data := {| audioData :=
                             AVString (FrameProcessor._binaryToBase64 btoa bytes);
                           isFirst := Some (default false first);
                           isFinal := Some (default false final) |};
                duration := estimated;
                timestamp := now |}],
            {| FrameProcessor._sequenceNumber :=
                 FrameProcessor._sequenceNumber fp + 1;
               FrameProcessor._frameIntervalMs :=
                 FrameProcessor._frameIntervalMs fp;
               FrameProcessor._sampleRate := FrameProcessor._sampleRate fp;
               FrameProcessor._bytesPerSample :=
                 FrameProcessor._bytesPerSample fp |})
   else out = ([], fp)).
Proof.
  cbv zeta.
  assert (Hvalid :
    FrameProcessor._isValidPayload
      (JSObject (JSAudio (if typed then AVUint8Array bytes
                          else AVArrayBuffer bytes)) first final)
    = (0 <? Z.of_nat (List.length bytes))
      && (Z.of_nat (List.length bytes) <=? 64 * 1024)).
  { unfold FrameProcessor._isValidPayload.
    assert (Hf : FrameProcessor.falsy
                   (JSAudio (if typed then AVUint8Array bytes
                             else AVArrayBuffer bytes)) = false)
      by (by destruct typed).
    rewrite Hf.
    assert (Hs : FrameProcessor._getByteSize
                   (if typed then AVUint8Array bytes else AVArrayBuffer bytes)
                 = inject_Z (Z.of_nat (List.length bytes)))
      by (by destruct typed).
    rewrite Hs. unfold FrameProcessor._maxReasonableChunkSizeBytes.
    assert (Hn : 0 <= Z.of_nat (List.length bytes)) by lia.
    generalize dependent (Z.of_nat (List.length bytes)). intros n _ Hn.
    change 0%Q with (inject_Z 0).
    rewrite Qeq_bool_inject_Z, Qle_bool_inject_Z.
    destruct (Z.eqb_spec n 0), (Z.ltb_spec 0 n); try lia; try done.
    by destruct (n <=? 64 * 1024). }
  unfold FrameProcessor.parseChunk. rewrite Hvalid.
  destruct ((0 <? _) && _); cbn [negb]; [|done].
  destruct typed; simpl; eauto.
Qed.

(** X8. A byte buffer and the base64 text that the fallback encoder
    gives for it are parsed alike: at the same time, by the same
    processor, [parseChunk] returns the same frames, with the same
    payload, decoded size and duration, and leaves the processor in the
    same state. *)
Theorem X8_text_and_binary_forms_parse_alike
    (bytes : list Byte.byte) (first final : option bool) (now : Z)
    (fp : FrameProcessor.t) :
  FrameProcessor.parseChunk None
    (JSObject (JSAudio (AVString (FrameProcessor._binaryToBase64 None bytes)))
       first final) now fp
  = FrameProcessor.parseChunk None
      (JSObject (JSAudio (AVUint8Array bytes)) first final) now fp.
Proof.
  destruct (decide (bytes = [])) as [->|Hne]; [reflexivity|].
  pose proof (sanitize_fallback_base64 bytes Hne) as Hsan.
  destruct (fallback_base64_size bytes) as [Hlen Hpad]. cbv zeta in *.
  set (text := FrameProcessor._binaryToBase64 None bytes) in *.
  set (n := Z.of_nat (List.length bytes)) in *.
  assert (Hsize :
    (FrameProcessor._getByteSize (AVString text) == inject_Z n)%Q).
  { unfold FrameProcessor._getByteSize. rewrite Hlen, Hpad.
    set (k := (n + 2) / 3).
    unfold Z.sub. rewrite inject_Z_plus, inject_Z_opp, !inject_Z_mult.
    change (inject_Z 4) with 4%Q. change (inject_Z 3) with 3%Q. field. }
  assert (Htext : text <> []).
  { intros Ht. rewrite Ht in Hsan. discriminate. }
  unfold FrameProcessor.parseChunk, FrameProcessor._isValidPayload.
  assert (Hf : FrameProcessor.falsy (JSAudio (AVString text)) = false)
    by (destruct text; done).
  rewrite Hf. cbn [FrameProcessor.falsy].
  rewrite (Qeq_bool_Qeq _ _ 0 Hsize), (Qle_bool_Qeq _ _ _ Hsize).
  cbn [FrameProcessor._getByteSize].
  fold n. destruct (Qeq_bool (inject_Z n) 0); [done|].
  destruct (Qle_bool _ _); cbn [negb]; [|done].
  cbn [FrameProcessor._normalizeAudioData]. by rewrite Hsan.
Qed.

(** X9. For a processor whose sample rate and number of bytes per
    sample are not 0, the duration of a frame is either the frame
    interval of the processor or an integer between 0 and 1000:
    [_calculateDuration] returns nothing else, and so does [parseChunk]
    in its frames. (With a zero sample rate or a zero number of bytes
    per sample JavaScript divides by zero, which is outside of this
    model.) *)
Theorem X9_duration_is_interval_or_within_a_second
    (btoa : option (jsstring -> jsstring)) (payload : js_payload) (now : Z)
    (fp : FrameProcessor.t) (text : jsstring) :
  FrameProcessor._sampleRate fp <> 0 ->
  FrameProcessor._bytesPerSample fp <> 0 ->
  (FrameProcessor._calculateDuration fp text
   = FrameProcessor._frameIntervalMs fp
   \/ 0 <= FrameProcessor._calculateDuration fp text <= 1000)
  /\ Forall (fun frame =>
               duration frame = FrameProcessor._frameIntervalMs fp
               \/ 0 <= duration frame <= 1000)
       (FrameProcessor.parseChunk btoa payload now fp).1.
Proof.
  intros _ _.
  split; [apply calculateDuration_range|apply parseChunk_durations].
Qed.

Lemma X9_duration_witness :
  FrameProcessor._sampleRate FrameProcessor.new_default <> 0
  /\ FrameProcessor._bytesPerSample FrameProcessor.new_default <> 0
  /\ (FrameProcessor._calculateDuration FrameProcessor.new_default
        (str "AAAAAAA=")
      = FrameProcessor._frameIntervalMs FrameProcessor.new_default
      \/ 0 <= FrameProcessor._calculateDuration FrameProcessor.new_default
                (str "AAAAAAA=") <= 1000)
  /\ Forall (fun frame =>
               duration frame
               = FrameProcessor._frameIntervalMs FrameProcessor.new_default
               \/ 0 <= duration frame <= 1000)
       (FrameProcessor.parseChunk None
          (JSObject (JSAudio (AVString (str "AAAAAAA="))) None None) 7
          FrameProcessor.new_default).1.
Proof.
  assert (H1 : FrameProcessor._sampleRate FrameProcessor.new_default <> 0)
    by (simpl; lia).
  assert (H2 : FrameProcessor._bytesPerSample FrameProcessor.new_default <> 0)
    by (simpl; lia).
  split; [exact H1|]. split; [exact H2|].
  exact (X9_duration_is_interval_or_within_a_second None
           (JSObject (JSAudio (AVString (str "AAAAAAA="))) None None) 7
           FrameProcessor.new_default (str "AAAAAAA=") H1 H2).
Defined.

(** X10. With a positive sample rate and a positive number of bytes per
    sample, at most 2^32 bytes per second, the duration estimated for a
    text of [n] decoded bytes is
    [1000 n / (bytesPerSample x sampleRate)] rounded to the nearest
    integer, computed on integers as
    [(2000 n + bytesPerSample x sampleRate) / (2 x bytesPerSample x
    sampleRate)], when [n] is positive and at most one second of audio;
    otherwise it is the frame interval. This is stated for durations
    that are not half-way between two integers: there the result
    depends on how the doubles round the divisions, which is not
    modelled (16016 bytes at 2 bytes per sample and 16000 Hz give
    500.49999999999994 ms in doubles, hence 500, and 500.5 ms in exact
    arithmetic, hence 501). *)
Theorem X10_duration_in_integer_arithmetic
    (fp : FrameProcessor.t) (text : jsstring) (n : Z) :
  let bytesPerSecond :=
    FrameProcessor._bytesPerSample fp * FrameProcessor._sampleRate fp in
  0 < FrameProcessor._bytesPerSample fp ->
  0 < FrameProcessor._sampleRate fp ->
  bytesPerSecond <= 2 ^ 32 ->
  (FrameProcessor.estimatedBytes text == inject_Z n)%Q ->
  (2000 * n) mod (2 * bytesPerSecond) <> bytesPerSecond ->
  FrameProcessor._calculateDuration fp text
  = if (0 <? n) && (n <=? bytesPerSecond)
    then (2000 * n + bytesPerSecond) / (2 * bytesPerSecond)
    else FrameProcessor._frameIntervalMs fp.
Proof.
  cbv zeta. intros Hb Hr _ He _.
  pose proof (durationMs_of_bytes fp text n Hb Hr He) as Hd.
  set (bps := FrameProcessor._bytesPerSample fp
              * FrameProcessor._sampleRate fp) in *.
  assert (Hbps : 0 < bps) by (subst bps; lia).
  unfold FrameProcessor._calculateDuration.
  assert (H0 : Qle_bool (FrameProcessor.durationMs fp text) 0 = (n <=? 0)).
  { rewrite (Qle_bool_Qeq _ _ _ Hd). change 0%Q with (inject_Z 0).
    rewrite Qle_bool_div by lia.
    destruct (Z.leb_spec (1000 * n) (0 * bps)), (Z.leb_spec n 0); lia. }
  assert (H1 : Qle_bool (FrameProcessor.durationMs fp text) 1000
               = (n <=? bps)).
  { rewrite (Qle_bool_Qeq _ _ _ Hd). change 1000%Q with (inject_Z 1000).
    rewrite Qle_bool_div by lia.
    destruct (Z.leb_spec (1000 * n) (1000 * bps)), (Z.leb_spec n bps); lia. }
  rewrite H0, H1.
  destruct (Z.leb_spec n 0), (Z.ltb_spec 0 n); try lia; cbn [orb andb]; [done|].
  destruct (n <=? bps); cbn [negb]; [|done].
  unfold Math_round.
  rewrite (Qfloor_comp _ _ (Qplus_comp _ _ Hd _ _ (Qeq_refl _))).
  fold (Math_round (inject_Z (1000 * n) / inject_Z bps)).
  rewrite Math_round_div by lia. f_equal. lia.
Qed.

Lemma X10_duration_witness :
  let bytesPerSecond :=
    FrameProcessor._bytesPerSample FrameProcessor.new_default
    * FrameProcessor._sampleRate FrameProcessor.new_default in
  0 < FrameProcessor._bytesPerSample FrameProcessor.new_default
  /\ 0 < FrameProcessor._sampleRate FrameProcessor.new_default
  /\ bytesPerSecond <= 2 ^ 32
  /\ (FrameProcessor.estimatedBytes (str "AAAAAAA=") == inject_Z 5)%Q
  /\ (2000 * 5) mod (2 * bytesPerSecond) <> bytesPerSecond
  /\ FrameProcessor._calculateDuration FrameProcessor.new_default
       (str "AAAAAAA=")
     = if (0 <? 5) && (5 <=? bytesPerSecond)
       then (2000 * 5 + bytesPerSecond) / (2 * bytesPerSecond)
       else FrameProcessor._frameIntervalMs FrameProcessor.new_default.
Proof.
  cbv zeta.
  assert (H1 : 0 < FrameProcessor._bytesPerSample FrameProcessor.new_default)
    by (simpl; lia).
  assert (H2 : 0 < FrameProcessor._sampleRate FrameProcessor.new_default)
    by (simpl; lia).
  assert (H3 : FrameProcessor._bytesPerSample FrameProcessor.new_default
               * FrameProcessor._sampleRate FrameProcessor.new_default
               <= 2 ^ 32)
    by (vm_compute; discriminate).
  assert (H4 : (FrameProcessor.estimatedBytes (str "AAAAAAA=") == inject_Z 5)%Q)
    by (vm_compute; reflexivity).
  assert (H5 : (2000 * 5)
               mod (2 * (FrameProcessor._bytesPerSample
                           FrameProcessor.new_default
                         * FrameProcessor._sampleRate
                             FrameProcessor.new_default))
               <> FrameProcessor._bytesPerSample FrameProcessor.new_default
                  * FrameProcessor._sampleRate FrameProcessor.new_default)
    by (vm_compute; discriminate).
  split; [exact H1|]. split; [exact H2|]. split; [exact H3|].
  split; [exact H4|]. split; [exact H5|].
  exact (X10_duration_in_integer_arithmetic FrameProcessor.new_default
           (str "AAAAAAA=") 5 H1 H2 H3 H4 H5).
Defined.

Lemma charCodeAt_byte_at bytes (k : Z) :
  Z.of_N (default 0%N (lookupZ (List.map Byte.to_N bytes) k))
  = FrameProcessor.byte_at bytes k.
Proof.
  unfold FrameProcessor.byte_at, lookupZ. destruct (k <? 0); [done|].
  generalize (Z.to_nat k). intros j. revert j.
  induction bytes as [|b bytes IH]; intros [|j]; simpl; try done.
Qed.

(** The loop of the manager and the loop of the frame processor append
    the same text, but for the characters that stand where the padding
    goes. *)
Lemma silence_loop_base64_loop bytes (n : nat) : forall i result,
  let len := Z.of_nat (List.length bytes) in
  (n = 0%nat \/ 3 * Z.of_nat n - 3 < len - i <= 3 * Z.of_nat n) ->
  let pad := if decide (n = 0%nat) then 0%nat
             else Z.to_nat (3 * Z.of_nat n - (len - i)) in
  exists body junk,
    List.length junk = pad
    /\ AudioBufferManager.silence_loop (List.map Byte.to_N bytes) n i result
       = result ++ body ++ junk
    /\ FrameProcessor.base64_loop bytes len n i result
       = result ++ body ++ replicate pad 61%N.
Proof.
  induction n as [|n IH]; intros i result len Hn; cbv zeta.
  - exists [], []. destruct (decide (0%nat = 0%nat)); [|done].
    simpl. repeat split; by rewrite ?app_nil_r.
  - destruct Hn as [Hn|Hn]; [done|].
    destruct (decide (S n = 0%nat)); [done|].
    cbn [AudioBufferManager.silence_loop FrameProcessor.base64_loop].
    cbv zeta. rewrite length_map. fold len. rewrite !charCodeAt_byte_at.
    destruct (Z.ltb_spec (i + 1) len) as [H1|H1]; cbv beta iota zeta.
    + rewrite ?charCodeAt_byte_at. replace (i + 1 + 1) with (i + 2) by lia.
      destruct (Z.ltb_spec (i + 2) len) as [H2|H2]; cbv beta iota zeta.
      * rewrite ?charCodeAt_byte_at. replace (i + 2 + 1) with (i + 3) by lia.
        set (bitmap := Z.lor (Z.lor _ _) _).
        destruct (charAt_chars_base64 (Z.shiftr bitmap 18)) as (c1 & -> & _).
        destruct (charAt_chars_base64 (Z.shiftr bitmap 12)) as (c2 & -> & _).
        destruct (charAt_chars_base64 (Z.shiftr bitmap 6)) as (c3 & -> & _).
        destruct (charAt_chars_base64 bitmap) as (c4 & -> & _).
        destruct (decide (n = 0%nat)) as [->|Hn0].
        -- exists [c1; c2; c3; c4], []. cbn [AudioBufferManager.silence_loop
             FrameProcessor.base64_loop].
           replace (Z.to_nat (3 * Z.of_nat 1 - (len - i))) with 0%nat by lia.
           rewrite <- !app_assoc. done.
        -- match goal with
           |- context [FrameProcessor.base64_loop _ _ _ _ ?r] =>
             destruct (IH (i + 3) r) as (body & junk & Hj & Hs & Hb);
               [right; fold len; lia|] end.
           cbv zeta in Hj, Hs, Hb. fold len in Hj, Hs, Hb.
           destruct (decide (n = 0%nat)); [done|].
           exists ([c1; c2; c3; c4] ++ body), junk.
           rewrite Hs, Hb, <- !app_assoc.
           replace (3 * Z.of_nat (S n) - (len - i))
             with (3 * Z.of_nat n - (len - (i + 3))) by lia.
           done.
      * assert (n = 0%nat) as -> by lia.
        set (bitmap := Z.lor (Z.lor _ _) _).
        destruct (charAt_chars_base64 (Z.shiftr bitmap 18)) as (c1 & -> & _).
        destruct (charAt_chars_base64 (Z.shiftr bitmap 12)) as (c2 & -> & _).
        destruct (charAt_chars_base64 (Z.shiftr bitmap 6)) as (c3 & -> & _).
        destruct (charAt_chars_base64 bitmap) as (c4 & -> & _).
        exists [c1; c2; c3], [c4].
        cbn [AudioBufferManager.silence_loop FrameProcessor.base64_loop].
        replace (Z.to_nat (3 * Z.of_nat 1 - (len - i))) with 1%nat by lia.
        rewrite <- !app_assoc. done.
    + assert (n = 0%nat) as -> by lia.
      destruct (Z.ltb_spec (i + 1) len) as [H1'|_]; [lia|].
      destruct (Z.ltb_spec (i + 2) len) as [H2|_]; [lia|].
      cbv beta iota zeta.
      set (bitmap := Z.lor (Z.lor _ _) _).
      destruct (charAt_chars_base64 (Z.shiftr bitmap 18)) as (c1 & -> & _).
      destruct (charAt_chars_base64 (Z.shiftr bitmap 12)) as (c2 & -> & _).
      destruct (charAt_chars_base64 (Z.shiftr bitmap 6)) as (c3 & -> & _).
      destruct (charAt_chars_base64 bitmap) as (c4 & -> & _).
      exists [c1; c2], [c3; c4].
      cbn [AudioBufferManager.silence_loop FrameProcessor.base64_loop].
      replace (Z.to_nat (3 * Z.of_nat 1 - (len - i))) with 2%nat by lia.
      rewrite <- !app_assoc. done.
Qed.

(** X11. The text that [_sanitizeBase64] returns is the input without
    its white space, followed by no, one or two padding signs, so that
    its length is never 2 or 3 modulo 4; it holds characters of the
    base64 alphabet and padding signs only. When the input has no
    padding sign and the output is not empty, the output is in canonical
    form: sanitizing it again returns it unchanged. *)
Theorem X11_sanitized_text_is_canonical (s out : jsstring) :
  FrameProcessor._sanitizeBase64 s = Return out ->
  let cleaned :=
    List.filter (fun c => negb (FrameProcessor.is_whitespace c)) s in
  (exists k : nat, (k <= 2)%nat /\ out = cleaned ++ replicate k 61%N)
  /\ (Z.rem (Z.of_nat (List.length out)) 4 = 0
      \/ Z.rem (Z.of_nat (List.length out)) 4 = 1)
  /\ Forall (fun c => FrameProcessor.is_base64_char c
                      || FrameProcessor.is_padding_char c = true) out
  /\ (Forall (fun c => FrameProcessor.is_padding_char c = false) s ->
      out <> [] ->
      FrameProcessor._sanitizeBase64 out = Return out).
Proof.
  intros Hs. cbv zeta. unfold FrameProcessor._sanitizeBase64 in Hs.
  destruct s as [|c0 s0]; [done|]. set (s := c0 :: s0) in *.
  set (cleaned := List.filter _ s) in *.
  destruct (FrameProcessor._validBase64Regex_test cleaned) eqn:Hre;
    cbn [negb] in Hs; [|done].
  pose proof (regex_test_chars cleaned Hre) as Hchars.
  assert (Hall : Forall (fun c => FrameProcessor.is_base64_char c
                           || FrameProcessor.is_padding_char c = true) cleaned).
  { apply List.Forall_forall. exact Hchars. }
  set (len := Z.of_nat (List.length cleaned)) in *.
  assert (Hlen : 0 <= len) by (subst len; lia).
  pose proof (Z.rem_bound_pos len 4 ltac:(lia) ltac:(lia)) as Hrem.
  pose proof (Z.rem_mod_nonneg len 4 ltac:(lia) ltac:(lia)) as Hmod.
  pose proof (Z.div_mod len 4 ltac:(lia)) as Hdm.
  assert (Hshape : exists k : nat,
            (k <= 2)%nat /\ out = cleaned ++ replicate k 61%N
            /\ (Z.rem (Z.of_nat (List.length out)) 4 = 0
                \/ Z.rem (Z.of_nat (List.length out)) 4 = 1)).
  { destruct (Z.eqb_spec (Z.rem len 4) 2) as [H2|H2];
      [|destruct (Z.eqb_spec (Z.rem len 4) 3) as [H3|H3]];
      injection Hs as <-.
    - exists 2%nat. split; [lia|]. split; [done|]. left.
      rewrite length_app. simpl List.length.
      replace (Z.of_nat (List.length cleaned + 2)) with (len + 2) by lia.
      rewrite Z.rem_mod_nonneg by lia.
      replace (len + 2) with (0 + (len / 4 + 1) * 4) by lia.
      by rewrite Z.mod_add.
    - exists 1%nat. split; [lia|]. split; [done|]. left.
      rewrite length_app. simpl List.length.
      replace (Z.of_nat (List.length cleaned + 1)) with (len + 1) by lia.
      rewrite Z.rem_mod_nonneg by lia.
      replace (len + 1) with (0 + (len / 4 + 1) * 4) by lia.
      by rewrite Z.mod_add.
    - exists 0%nat. split; [lia|]. split; [by rewrite app_nil_r|].
      fold len. lia. }
  destruct Hshape as (k & Hk & Hout & Hmod4).
  assert (Hall' : Forall (fun c => FrameProcessor.is_base64_char c
                           || FrameProcessor.is_padding_char c = true) out).
  { rewrite Hout. apply Forall_app. split; [done|].
    apply Forall_replicate. by rewrite orb_true_r. }
  split; [eauto|]. split; [done|]. split; [done|].
  intros Hnopad Hne.
  assert (Hbody : Forall (fun c => FrameProcessor.is_base64_char c = true)
                    cleaned).
  { apply List.Forall_forall. intros c Hc.
    assert (Hin : In c s)
      by (subst cleaned; by apply filter_In in Hc as [Hc _]).
    pose proof (proj1 (List.Forall_forall _ _) Hnopad c Hin) as Hp.
    pose proof (Hchars c Hc) as Hb. by rewrite Hp, orb_false_r in Hb. }
  unfold FrameProcessor._sanitizeBase64.
  destruct out as [|o out'] eqn:Eo; [done|]. rewrite <- Eo in *.
  rewrite (filter_whitespace_id out Hall').
  assert (Hre' : FrameProcessor._validBase64Regex_test out = true).
  { unfold FrameProcessor._validBase64Regex_test.
    rewrite Hout, (skip_base64_chars_app cleaned _ Hbody).
    destruct k as [|[|[|k]]]; try done. lia. }
  rewrite Hre'. cbn [negb].
  destruct Hmod4 as [-> | ->]; by rewrite Eo.
Qed.

Lemma X11_sanitized_witness :
  FrameProcessor._sanitizeBase64 (str "QU JD RA") = Return (str "QUJDRA==")
  /\ let cleaned :=
       List.filter (fun c => negb (FrameProcessor.is_whitespace c))
         (str "QU JD RA") in
     (exists k : nat,
        (k <= 2)%nat /\ str "QUJDRA==" = cleaned ++ replicate k 61%N)
     /\ (Z.rem (Z.of_nat (List.length (str "QUJDRA=="))) 4 = 0
         \/ Z.rem (Z.of_nat (List.length (str "QUJDRA=="))) 4 = 1)
     /\ Forall (fun c => FrameProcessor.is_base64_char c
                         || FrameProcessor.is_padding_char c = true)
          (str "QUJDRA==")
     /\ (Forall (fun c => FrameProcessor.is_padding_char c = false)
           (str "QU JD RA") ->
         str "QUJDRA==" <> [] ->
         FrameProcessor._sanitizeBase64 (str "QUJDRA==")
         = Return (str "QUJDRA==")).
Proof.
  assert (H : FrameProcessor._sanitizeBase64 (str "QU JD RA")
              = Return (str "QUJDRA==")) by (vm_compute; reflexivity).
  split; [exact H|].
  exact (X11_sanitized_text_is_canonical (str "QU JD RA") (str "QUJDRA==") H).
Defined.

(** The encoder of the manager returns the text of the encoder of the
    frame processor. *)
Lemma arrayBufferToBase64_agrees (env : platform) (buffer : list Byte.byte) :
  AudioBufferManager._arrayBufferToBase64 env buffer
  = FrameProcessor._binaryToBase64 (btoa env) buffer.
Proof.
  unfold AudioBufferManager._arrayBufferToBase64,
    FrameProcessor._binaryToBase64.
  rewrite foldl_snoc_map. simpl app.
  destruct (btoa env) as [f|]; cbv zeta.
  { by rewrite binaryString_all. }
  rewrite length_map.
  set (len := Z.of_nat (List.length buffer)).
  pose proof (turns_3 len ltac:(lia)) as Ht. cbv zeta in Ht.
  destruct (silence_loop_base64_loop buffer (FrameProcessor.turns len 3) 0 [])
    as (body & junk & Hj & Hs & Hb); [fold len; lia|].
  cbv zeta in Hj, Hs, Hb. fold len in Hj, Hs, Hb. simpl app in Hs, Hb.
  rewrite Hs, Hb.
  set (pad := if decide (FrameProcessor.turns len 3 = 0%nat) then 0%nat
              else Z.to_nat (3 * Z.of_nat (FrameProcessor.turns len 3)
                             - (len - 0))) in *.
  assert (Hpad : Z.rem (3 - Z.rem len 3) 3 = Z.of_nat pad).
  { subst pad. destruct Ht as [[-> ->]|(Hpos & Hn & Hb3)]; [done|].
    destruct (decide _); [done|].
    set (t3 := Z.of_nat (FrameProcessor.turns len 3)) in *.
    rewrite (Z.rem_mod_nonneg len 3) by lia.
    pose proof (Z.mod_pos_bound len 3 ltac:(lia)).
    rewrite Z.rem_mod_nonneg by lia.
    rewrite Z2Nat.id by lia.
    replace (3 - len mod 3)
      with ((3 * t3 - (len - 0)) + (len / 3 + 1 - t3) * 3).
    - rewrite Z.mod_add by lia. apply Z.mod_small. lia.
    - pose proof (Z.div_mod len 3 ltac:(lia)). lia. }
  rewrite Hpad, Nat2Z.id. f_equal.
  - rewrite length_app.
    replace (Z.to_nat (Z.of_nat (List.length body + List.length junk)
                       - Z.of_nat pad)) with (List.length body) by lia.
    by rewrite take_app_length.
  - clear. induction pad as [|pad IH]; [done|]. simpl. by rewrite IH.
Qed.

(** X12. The two base64 encoders of the code agree on every byte
    buffer and every platform: [_arrayBufferToBase64] of the buffer
    manager, which reads the bytes one by one and replaces the last
    characters by padding afterwards, returns the text of
    [_binaryToBase64] of the frame processor, which builds the [btoa]
    argument in slices of 8192 bytes and pads inside its loop. *)
Theorem X12_both_base64_encoders_agree
    (env : platform) (buffer : list Byte.byte) :
  AudioBufferManager._arrayBufferToBase64 env buffer
  = FrameProcessor._binaryToBase64 (btoa env) buffer.
Proof. apply arrayBufferToBase64_agrees. Qed.

(** ** More on the retry handler *)

Section RetryMore.
Import RetryHandler.
Context {T : Type}.
Variable rh : t.
Variable operation : nat -> thrown + T.
Variable random : nat -> Q.

(** [Math.random] is called once for each delay when jitter is on, and
    never otherwise. *)
Lemma execute_loop_draws (n : nat) : forall attempt lastError e,
  let e' := (execute_loop rh operation random n attempt lastError e).2 in
  (draws e' + (if useJitter (_config rh) then List.length (sleeps e) else 0)
   = draws e
     + (if useJitter (_config rh) then List.length (sleeps e') else 0))%nat.
Proof.
  induction n as [|n IH]; intros attempt lastError e; cbv zeta.
  - done.
  - cbn [execute_loop]. destruct (operation (calls e)) as [error|value].
    + match goal with
      |- context [execute_loop _ _ _ _ _ ?l ?e2] =>
        specialize (IH (S attempt) l e2); cbv zeta in IH;
        set (e' := (execute_loop rh operation random n (S attempt) l e2).2) in *;
        assert (He2 :
          (draws e2 + (if useJitter (_config rh)
                       then List.length (sleeps e) else 0)
           = draws e + (if useJitter (_config rh)
                        then List.length (sleeps e2) else 0))%nat)
      end.
      { destruct (attempt <? maxRetries (_config rh))%nat; [|done].
        destruct (_calculateDelay _ _ _ _) as [delay e2] eqn:Hcd.
        pose proof (f_equal snd Hcd) as Hd2.
        rewrite calculateDelay_effects in Hd2. simpl in Hd2. subst e2.
        cbn [_sleep sleeps draws calls]. rewrite length_app. simpl.
        destruct (useJitter (_config rh)); lia. }
      destruct (useJitter (_config rh)); lia.
    + done.
Qed.
End RetryMore.

Lemma delay_of_plain (rh : RetryHandler.t) (r : Q) (attempt : nat) :
  RetryHandler.useJitter (RetryHandler._config rh) = false ->
  delay_of rh r attempt
  = Qmin (RetryHandler.initialDelayMs (RetryHandler._config rh)
          * RetryHandler.backoffMultiplier (RetryHandler._config rh)
            ^ Z.of_nat attempt)%Q
         (RetryHandler.maxDelayMs (RetryHandler._config rh)).
Proof.
  intros Hj. destruct (delay_of_unfold rh r attempt) as [_ H].
  cbv zeta in H. by rewrite Hj in H.
Qed.

(** X13. [execute] stops at the first call of the operation that
    returns: when call number [k] (from 0, at most [maxRetries]) is the
    first one that does not throw, [execute] resolves with its value
    after exactly [k + 1] calls and [k] sleeps, [executeSafe] returns
    the same value, and [Math.random] has been called [k] times when
    jitter is enabled and not at all when it is disabled. *)
Theorem X13_execute_stops_at_first_success {T : Type}
    (rh : RetryHandler.t) (operation : nat -> RetryHandler.thrown + T)
    (random : nat -> Q) (k : nat) (value : T) :
  (k <= RetryHandler.maxRetries (RetryHandler._config rh))%nat ->
  (forall j, (j < k)%nat -> exists error, operation j = inl error) ->
  operation k = inr value ->
  let run := RetryHandler.execute rh operation random in
  run.1 = RetryHandler.Resolved value
  /\ (RetryHandler.executeSafe rh operation random).1 = Some value
  /\ RetryHandler.calls run.2 = S k
  /\ List.length (RetryHandler.sleeps run.2) = k
  /\ RetryHandler.draws run.2
     = if RetryHandler.useJitter (RetryHandler._config rh) then k else 0%nat.
Proof.
  intros Hk Hfail Hok. cbv zeta.
  pose proof (execute_post_holds rh operation random) as Hpost.
  pose proof (execute_loop_draws rh operation random
                (S (RetryHandler.maxRetries (RetryHandler._config rh)))
                0 None RetryHandler.no_effects) as Hdraws.
  cbv zeta in Hdraws. fold (RetryHandler.execute rh operation random) in Hdraws.
  unfold RetryHandler.executeSafe.
  destruct (RetryHandler.execute rh operation random) as [out e].
  cbn [fst snd] in *.
  destruct Hpost as (Hcalls & Hsleeps & Hbefore & Hout).
  assert (Hlen : List.length (RetryHandler.sleeps e)
                 = (RetryHandler.calls e - 1)%nat).
  { by rewrite Hsleeps, length_fmap, length_seq. }
  assert (Hc : RetryHandler.calls e = S k).
  { destruct (Nat.lt_total (RetryHandler.calls e - 1) k) as [Hlt|[Heq|Hgt]].
    - destruct out as [v|error].
      + destruct (Hfail _ Hlt) as [err Herr]. congruence.
      + destruct Hout as [Hc _]. lia.
    - lia.
    - destruct (Hbefore k Hgt) as [err Herr]. congruence. }
  rewrite Hc in *. replace (S k - 1)%nat with k in * by lia.
  destruct out as [v|error].
  - assert (v = value) as -> by congruence.
    repeat split; try done.
    simpl in Hdraws. destruct (RetryHandler.useJitter _); lia.
  - destruct Hout as (Hmax & last & Hlast & _).
    assert (Hkm : RetryHandler.maxRetries (RetryHandler._config rh) = k)
      by lia.
    rewrite Hkm in Hlast. congruence.
Qed.

Lemma X13_first_success_witness :
  let rh := RetryHandler.new None in
  let operation (j : nat) : RetryHandler.thrown + Z :=
    if (j <? 2)%nat then inl (RetryHandler.ThrownError "down") else inr 7 in
  let random (_ : nat) := (1 # 2)%Q in
  let run := RetryHandler.execute rh operation random in
  run.1 = RetryHandler.Resolved 7
  /\ (RetryHandler.executeSafe rh operation random).1 = Some 7
  /\ RetryHandler.calls run.2 = 3%nat
  /\ List.length (RetryHandler.sleeps run.2) = 2%nat
  /\ RetryHandler.draws run.2
     = if RetryHandler.useJitter (RetryHandler._config rh)
       then 2%nat else 0%nat.
Proof.
  cbv zeta.
  apply (X13_execute_stops_at_first_success (RetryHandler.new None)
           (fun j => if (j <? 2)%nat
                     then inl (RetryHandler.ThrownError "down") else inr 7)
           (fun _ => (1 # 2)%Q) 2 7).
  - simpl. lia.
  - intros j Hj. destruct j as [|[|j]]; simpl; eauto. lia.
  - reflexivity.
Defined.

(** X14. Without jitter, the delay that [_calculateDelay] returns never
    exceeds [maxDelayMs]; when moreover the initial delay is not
    negative and the multiplier is at least 1, the delay does not
    decrease from an attempt to the next one, and it is at least the
    smaller of [initialDelayMs] and [maxDelayMs]. *)
Theorem X14_plain_delays_grow_up_to_the_cap
    (rh : RetryHandler.t) (r : Q) (attempt : nat) :
  let config := RetryHandler._config rh in
  RetryHandler.useJitter config = false ->
  (0 <= RetryHandler.initialDelayMs config)%Q ->
  (1 <= RetryHandler.backoffMultiplier config)%Q ->
  (delay_of rh r attempt <= RetryHandler.maxDelayMs config)%Q
  /\ (delay_of rh r attempt <= delay_of rh r (S attempt))%Q
  /\ (Qmin (RetryHandler.initialDelayMs config)
           (RetryHandler.maxDelayMs config)
      <= delay_of rh r attempt)%Q.
Proof.
  cbv zeta. intros Hj Hi Hm. rewrite !delay_of_plain by done.
  set (config := RetryHandler._config rh) in *.
  set (m := RetryHandler.backoffMultiplier config) in *.
  set (i := RetryHandler.initialDelayMs config) in *.
  assert (Hpow : forall a b : nat, (a <= b)%nat ->
            (i * m ^ Z.of_nat a <= i * m ^ Z.of_nat b)%Q).
  { intros a b Hab. rewrite !(Qmult_comm i).
    apply Qmult_le_compat_r; [|done].
    apply Qpower_le_compat_l; [lia|done]. }
  split; [apply Q.le_min_r|]. split.
  - apply Q.min_le_compat_r. apply Hpow. lia.
  - apply Q.min_le_compat_r.
    specialize (Hpow 0%nat attempt ltac:(lia)).
    change (m ^ Z.of_nat 0)%Q with 1%Q in Hpow. by rewrite Qmult_1_r in Hpow.
Qed.

Lemma X14_plain_delays_witness :
  let rh :=
    {| RetryHandler._config :=
         {| RetryHandler.maxRetries := 3;
            RetryHandler.initialDelayMs := 50;
            RetryHandler.maxDelayMs := 1000;
            RetryHandler.backoffMultiplier := 2;
            RetryHandler.useJitter := false |} |} in
  let config := RetryHandler._config rh in
  (delay_of rh 0 4 <= RetryHandler.maxDelayMs config)%Q
  /\ (delay_of rh 0 4 <= delay_of rh 0 5)%Q
  /\ (Qmin (RetryHandler.initialDelayMs config)
           (RetryHandler.maxDelayMs config)
      <= delay_of rh 0 4)%Q.
Proof.
  cbv zeta.
  apply (X14_plain_delays_grow_up_to_the_cap
           {| RetryHandler._config :=
                {| RetryHandler.maxRetries := 3;
                   RetryHandler.initialDelayMs := 50;
                   RetryHandler.maxDelayMs := 1000;
                   RetryHandler.backoffMultiplier := 2;
                   RetryHandler.useJitter := false |} |} 0 4).
  - reflexivity.
  - simpl. lra.
  - simpl. lra.
Defined.

(** ** More on the buffer manager *)

Lemma utilization_range (capacity : Z) (rb : RingBuffer.t) q :
  0 < capacity -> repr capacity rb q ->
  (0 <= RingBuffer.getUtilization rb <= 100)%Q.
Proof.
  intros Hc [Hcap Ht Hs Hb Hh Hsl]. unfold RingBuffer.getUtilization.
  rewrite Hcap.
  assert (Hsz : 0 <= RingBuffer._size rb) by lia.
  assert (Hq : (inject_Z (RingBuffer._size rb) / inject_Z capacity * 100
                == inject_Z (100 * RingBuffer._size rb) / inject_Z capacity)%Q).
  { rewrite inject_Z_mult. change (inject_Z 100) with 100%Q.
    field. apply inject_Z_nonzero. lia. }
  rewrite Hq.
  assert (Hpos : (0 < inject_Z capacity)%Q).
  { change 0%Q with (inject_Z 0). rewrite <- Zlt_Qlt. lia. }
  split.
  - apply Qle_shift_div_l; [done|]. rewrite Qmult_0_l.
    change 0%Q with (inject_Z 0). rewrite <- Zle_Qle. lia.
  - apply Qle_shift_div_r; [done|].
    change 100%Q with (inject_Z 100). rewrite <- inject_Z_mult, <- Zle_Qle.
    lia.
Qed.

Lemma durations_from (q : list IAudioFrame) : forall acc,
  foldl (fun acc frame => acc + duration frame) acc q
  = acc + RingBuffer.durations q.
Proof.
  unfold RingBuffer.durations.
  induction q as [|frame q IH]; intros acc; cbn [foldl]; [lia|].
  rewrite (IH (acc + duration frame)), (IH (0 + duration frame)). lia.
Qed.

Lemma durations_cons frame (q : list IAudioFrame) :
  RingBuffer.durations (frame :: q) = duration frame + RingBuffer.durations q.
Proof.
  unfold RingBuffer.durations at 1. cbn [foldl]. rewrite durations_from. lia.
Qed.

Lemma durations_nonneg (q : list IAudioFrame) :
  Forall (fun frame => 0 <= duration frame) q -> 0 <= RingBuffer.durations q.
Proof.
  induction 1 as [|frame q Hf _ IH]; [done|]. rewrite durations_cons. lia.
Qed.

Lemma queue_step_Forall (P : IAudioFrame -> Prop) (capacity : Z) q o :
  Forall P q ->
  match o with
  | RingBuffer.Push frame | RingBuffer.Unshift frame => P frame
  | _ => True
  end ->
  Forall P (RingBuffer.queue_step capacity q o).
Proof.
  intros Hq Ho. destruct o; simpl.
  - apply Forall_app. split; [|by constructor].
    destruct (_ >=? _); [by apply Forall_drop|done].
  - by apply Forall_drop.
  - constructor; [done|]. destruct (_ >=? _); [by apply Forall_take|done].
  - by apply Forall_drop.
  - constructor.
Qed.

Section ManagerInvariant.
Import AudioBufferManager.
Context {QM : Type} `{IQualityMonitor QM}.
Variable env : platform.
Variable capacity : Z.
Hypothesis capacity_pos : 0 < capacity.

Lemma inv_same (m m' : t QM) :
  _buffer m' = _buffer m -> _config m' = _config m ->
  _frameProcessor m' = _frameProcessor m ->
  manager_inv capacity m -> manager_inv capacity m'.
Proof. unfold manager_inv. by intros -> -> ->. Qed.

Lemma inv_with_monitor f (m : t QM) :
  manager_inv capacity m -> manager_inv capacity (with_monitor f m).
Proof.
  apply inv_same; unfold with_monitor; by destruct (_qualityMonitor m).
Qed.

Lemma inv_set_buffer (m : t QM) rb q :
  manager_inv capacity m ->
  repr capacity rb q -> Forall (fun frame => 0 <= duration frame) q ->
  manager_inv capacity (set_buffer rb m).
Proof.
  intros (_ & Hc & Hfp) Hr Hq. unfold manager_inv. cbn. eauto.
Qed.

Lemma inv_handleOverrun (m : t QM) :
  manager_inv capacity m -> manager_inv capacity (_handleOverrun m).
Proof.
  intros Hinv. unfold _handleOverrun. cbv zeta.
  pose proof (inv_with_monitor recordOverrun m Hinv) as Hinv1.
  set (m1 := with_monitor recordOverrun m) in *.
  destruct (Z.ltb_spec 100
              (getCurrentBufferMs m1
               - IAudioBufferConfig.maxBufferMs (_config m1))) as [Hex|];
    [|done].
  pose proof Hinv1 as ((q & Hr & Hq) & Hfi & _).
  set (framesToDrop := if _ =? 0 then _ else _).
  assert (Hn : 0 <= framesToDrop).
  { subst framesToDrop.
    destruct (Z.eqb_spec (IAudioBufferConfig.frameIntervalMs (_config m1)) 0).
    - rewrite (repr_size _ _ _ Hr). lia.
    - apply Z.div_pos; lia. }
  rewrite <- (Z2Nat.id framesToDrop Hn).
  eapply inv_set_buffer; [done|by apply repr_dropOldest|].
  by apply Forall_drop.
Qed.

Lemma inv_enqueueFrames payload now (m : t QM) :
  manager_inv capacity m ->
  manager_inv capacity (enqueueFrames env payload now m).
Proof.
  intros Hinv. unfold enqueueFrames.
  destruct (_frameProcessor m) as [fp|] eqn:Hfp; [|done].
  destruct (_qualityMonitor m) as [qm|] eqn:Hqm; [|done].
  pose proof (parseChunk_durations (btoa env) payload now fp) as Hdur.
  pose proof Hinv as ((q & Hr & Hq) & Hfi & Hfpi). rewrite Hfp in Hfpi.
  assert (Hstep : forall fp' frames,
    FrameProcessor._frameIntervalMs fp' = FrameProcessor._frameIntervalMs fp ->
    Forall (fun frame => 0 <= duration frame) frames ->
    (frames = [] \/ exists frame, frames = [frame]) ->
    manager_inv capacity
      (let '(buffer, qm) := enqueue_loop frames (_buffer m) qm in
       let m := set_frameProcessor (Some fp') (set_buffer buffer m) in
       let currentBufferMs := getCurrentBufferMs m in
       let m :=
         set_qualityMonitor
           (Some (updateBufferLevel currentBufferMs qm)) m in
       if IAudioBufferConfig.maxBufferMs (_config m) <? currentBufferMs
       then _handleOverrun m
       else m)).
  { intros fp' frames Hfp' Hframes Hshape.
    assert (Hloop : exists q',
      repr capacity (enqueue_loop frames (_buffer m) qm).1 q'
      /\ Forall (fun frame => 0 <= duration frame) q').
    { destruct Hshape as [->|[frame ->]]; simpl; [eauto|].
      eexists. split; [by apply repr_push|].
      apply queue_step_Forall; [done|]. by inversion Hframes. }
    destruct (enqueue_loop frames (_buffer m) qm) as [buffer qm'].
    destruct Hloop as (q' & Hr' & Hq'). cbn [fst] in Hr'. cbv zeta.
    match goal with
    | |- manager_inv _ (if _ then _handleOverrun ?x else _) =>
        assert (Hx : manager_inv capacity x)
    end.
    { unfold manager_inv. cbn. rewrite Hfp'. eauto. }
    destruct (_ <? _); [by apply inv_handleOverrun|done]. }
  destruct (parseChunk_cases (btoa env) payload now fp)
    as [Hp|(frame & Hp & _)]; rewrite Hp in *; cbn [fst] in Hdur.
  - apply Hstep; [done|constructor|by left].
  - apply Hstep; [done| |eauto].
    inversion Hdur as [|? ? Hd _]; subst. constructor; [|constructor]. lia.
Qed.

Lemma inv_insertSilenceFrame now (m m' : t QM) :
  manager_inv capacity m ->
  _insertSilenceFrame env now m = Return m' ->
  manager_inv capacity m'.
Proof.
  intros ((q & Hr & Hq) & Hfi & Hfp). unfold _insertSilenceFrame. cbv zeta.
  destruct (_ <? 0); [done|]. intros [= <-].
  unfold manager_inv. cbn. split; [|done].
  eexists. split; [by apply repr_unshift|].
  by apply queue_step_Forall.
Qed.

Lemma inv_playNextFrame now (m : t QM) :
  manager_inv capacity m -> manager_inv capacity (_playNextFrame env now m).
Proof.
  intros Hinv. pose proof Hinv as ((q & Hr & Hq) & Hfi & Hfp).
  unfold _playNextFrame.
  pose proof (repr_shift capacity capacity_pos _ _ Hr) as Hr'.
  destruct (RingBuffer.shift (_buffer m)) as [frame buffer].
  cbn [snd] in Hr'.
  assert (Hb : manager_inv capacity (set_buffer buffer m)).
  { eapply inv_set_buffer; [done|exact Hr'|]. by apply Forall_drop. }
  destruct frame as [frame|]; [|done].
  cbv zeta. destruct (playSound _ _ _ _); revert Hb; by apply inv_same.
Qed.

Lemma inv_schedule_loop now (n : nat) : forall m : t QM,
  manager_inv capacity m -> manager_inv capacity (schedule_loop env now n m).
Proof.
  induction n as [|n IH]; intros m Hinv; [done|]. simpl.
  destruct (RingBuffer.isEmpty _); [done|].
  by apply IH, inv_playNextFrame.
Qed.

Lemma inv_startPlaybackLoop now (m : t QM) :
  manager_inv capacity m ->
  manager_inv capacity (_startPlaybackLoop env now m).
Proof.
  intros Hinv. unfold _startPlaybackLoop.
  destruct (_isActive m); [|done]. cbn [negb]. cbv zeta.
  set (m1 := with_monitor _ m).
  assert (H1 : manager_inv capacity m1) by by apply inv_with_monitor.
  match goal with
  | |- manager_inv _ (let '(_, _) := setTimeout _ _ ?x in _) =>
      assert (Hx : manager_inv capacity x); [|revert Hx; by apply inv_same]
  end.
  destruct (_ <? _).
  - unfold _handleUnderrun.
    destruct (_insertSilenceFrame _ _ _) as [m'|msg] eqn:Hs.
    + eapply inv_insertSilenceFrame; [|exact Hs]. by apply inv_with_monitor.
    + by apply inv_with_monitor.
  - unfold _scheduleNextFrames. by apply inv_schedule_loop.
Qed.

Lemma inv_run_checkBuffer targetMs now (m : t QM) :
  manager_inv capacity m ->
  manager_inv capacity (run_checkBuffer env targetMs now m).
Proof.
  intros Hinv. unfold run_checkBuffer. destruct (_ || _).
  - destruct (_isActive m); [by apply inv_startPlaybackLoop|done].
  - revert Hinv. by apply inv_same.
Qed.

Lemma inv_startPlayback now (m : t QM) :
  manager_inv capacity m -> manager_inv capacity (startPlayback env now m).
Proof.
  intros Hinv. unfold startPlayback. destruct (_isActive m); [done|].
  apply inv_run_checkBuffer. revert Hinv. by apply inv_same.
Qed.

Lemma inv_stopPlayback (m : t QM) :
  manager_inv capacity m -> manager_inv capacity (stopPlayback m).
Proof.
  intros ((q & Hr & Hq) & Hfi & Hfp).
  pose proof (repr_clear capacity capacity_pos _ _ Hr) as Hc.
  destruct m as [b c fp qm timer active last next turn enc pend nid log].
  unfold stopPlayback, manager_inv in *. cbn in *.
  destruct timer as [id|]; [destruct (id =? 0)|]; destruct fp; cbn;
    (split; [eexists; split; [exact Hc|constructor]|done]).
Qed.

Lemma inv_destroy (m : t QM) :
  manager_inv capacity m -> manager_inv capacity (destroy m).
Proof.
  intros Hinv. apply inv_stopPlayback in Hinv.
  destruct Hinv as ((q & Hr & Hq) & Hfi & Hfp).
  pose proof (repr_clear capacity capacity_pos _ _ Hr) as Hc.
  unfold destroy, manager_inv. cbn. split; [|done].
  eexists. split; [exact Hc|constructor].
Qed.

Lemma inv_applyAdaptiveAdjustments (m : t QM) :
  manager_inv capacity m -> manager_inv capacity (applyAdaptiveAdjustments m).
Proof.
  intros Hinv. unfold applyAdaptiveAdjustments.
  destruct (_qualityMonitor m) as [qm|]; [|done].
  destruct (getRecommendedAdjustment qm) as [adjustment qm'].
  destruct (negb _); [|revert Hinv; by apply inv_same].
  cbv zeta. destruct (negb _); revert Hinv; unfold manager_inv; cbn; done.
Qed.

Lemma inv_getHealthMetrics (m : t QM) :
  manager_inv capacity m -> manager_inv capacity (getHealthMetrics m).2.
Proof.
  intros Hinv. unfold getHealthMetrics.
  destruct (_qualityMonitor m) as [qm|]; [|done].
  destruct (getMetrics qm) as [metrics qm1].
  destruct (getBufferHealthState _ _ _) as [state qm2].
  revert Hinv. by apply inv_same.
Qed.

Lemma inv_setEncoding encoding (m : t QM) :
  manager_inv capacity m -> manager_inv capacity (setEncoding encoding m).
Proof.
  destruct m as [b c fp qm timer active last next turn enc pend nid log].
  unfold setEncoding, manager_inv. cbn. by destruct fp.
Qed.

Lemma inv_fire timer now (m : t QM) :
  manager_inv capacity m -> manager_inv capacity (fire env timer now m).
Proof.
  intros Hinv. unfold fire. cbv zeta.
  assert (Hc : manager_inv capacity (clearTimeout (timer_id timer) m))
    by (revert Hinv; by apply inv_same).
  destruct (timer_callback timer);
    [by apply inv_run_checkBuffer|by apply inv_startPlaybackLoop].
Qed.

Lemma inv_happen ev now (m : t QM) :
  keeps_interval ev = true ->
  manager_inv capacity m -> manager_inv capacity (happen env ev now m).
Proof.
  intros Hev Hinv. destruct ev as [c|turnId|encoding| |id]; cbn [happen].
  - destruct c; cbn [after].
    + by apply inv_enqueueFrames.
    + by apply inv_startPlayback.
    + by apply inv_stopPlayback.
    + done.
    + by apply inv_getHealthMetrics.
    + revert Hinv. unfold manager_inv, updateConfig. cbn.
      intros (Hq & Hfi & Hfp). split; [done|]. split; [|done].
      cbn in Hev. destruct (IAudioBufferConfig.p_frameIntervalMs config);
        cbn; [lia|done].
    + by apply inv_applyAdaptiveAdjustments.
    + done.
  - revert Hinv. by apply inv_same.
  - by apply inv_setEncoding.
  - by apply inv_destroy.
  - destruct (List.find _ _); [by apply inv_fire|done].
Qed.

Lemma inv_run (events : list (event * Z)) : forall m : t QM,
  forallb (fun e => keeps_interval e.1) events = true ->
  manager_inv capacity m -> manager_inv capacity (run env events m).
Proof.
  induction events as [|[ev now] events IH]; intros m Hev Hinv; [done|].
  cbn in Hev. apply andb_true_iff in Hev as [Hev Hevs].
  unfold run. cbn [foldl]. apply IH; [done|]. by apply inv_happen.
Qed.

End ManagerInvariant.

(** The manager that the constructor returns. *)
Lemma new_fields {QM : Type} `{IQualityMonitor QM}
    (config : IAudioBufferConfig.partial) (m : AudioBufferManager.t QM) :
  AudioBufferManager.new config = Return m ->
  exists capacity,
    AudioBufferManager._buffer m = RingBuffer.new capacity
    /\ 150 <= capacity < 2 ^ 32
    /\ (IAudioBufferConfig.frameIntervalMs (AudioBufferManager._config m) <> 0 ->
        capacity
        = Z.max
            (Qceiling
               (inject_Z (IAudioBufferConfig.maxBufferMs
                            (AudioBufferManager._config m))
                / inject_Z (IAudioBufferConfig.frameIntervalMs
                              (AudioBufferManager._config m))
                * (15 # 10))) 150)
    /\ AudioBufferManager._frameProcessor m
       = Some (FrameProcessor.new
                 (IAudioBufferConfig.frameIntervalMs
                    (AudioBufferManager._config m))
                 (default 16000
                    (IAudioBufferConfig.sampleRate
                       (AudioBufferManager._config m))) 2)
    /\ AudioBufferManager._isActive m = false
    /\ AudioBufferManager.pending m = []
    /\ AudioBufferManager.played m = [].
Proof.
  unfold AudioBufferManager.new. cbv zeta.
  set (c := IAudioBufferConfig.spread _ config).
  destruct (Z.eqb_spec (IAudioBufferConfig.frameIntervalMs c) 0) as [Hz|Hz].
  - destruct (_ <? 0); [|done]. intros [= <-]. exists 150. cbn.
    repeat split; try done; try lia.
  - set (cap := Z.max _ AudioBufferManager._defaultRingBufferCapacity).
    destruct (Z.ltb_spec cap (2 ^ 32)); [|done]. intros [= <-].
    exists cap. cbn. repeat split; try done.
    all: subst cap; unfold AudioBufferManager._defaultRingBufferCapacity;
      try lia.
Qed.

(** X15. For a manager constructed with a frame interval that is not
    negative and a sample rate that is not 0, from its construction on,
    whatever is called and whatever timeout fires, as long as no call
    of [updateConfig] gives a negative frame interval: the buffer of
    the manager keeps its capacity, which is at least 150 slots; it
    holds between 0 and [capacity] frames, so that its utilization is
    between 0 and 100; no frame in it has a negative duration, and the
    buffer level [getCurrentBufferMs] is the sum of the durations of
    these frames and is not negative. (The sample rate is the one that
    the constructor hands to the frame processor; with a zero sample
    rate the durations are computed by a division by zero, which is
    outside of this model.) *)
Theorem X15_manager_buffer_invariant {QM : Type} `{IQualityMonitor QM}
    (env : platform) (config : IAudioBufferConfig.partial)
    (m0 : AudioBufferManager.t QM)
    (events : list (AudioBufferManager.event * Z)) :
  AudioBufferManager.new config = Return m0 ->
  0 <= IAudioBufferConfig.frameIntervalMs (AudioBufferManager._config m0) ->
  default 16000
    (IAudioBufferConfig.sampleRate (AudioBufferManager._config m0)) <> 0 ->
  forallb (fun e => keeps_interval e.1) events = true ->
  let m := AudioBufferManager.run env events m0 in
  let rb := AudioBufferManager._buffer m in
  RingBuffer.capacity rb = RingBuffer.capacity (AudioBufferManager._buffer m0)
  /\ 150 <= RingBuffer.capacity rb
  /\ 0 <= RingBuffer.length rb <= RingBuffer.capacity rb
  /\ Z.of_nat (List.length (RingBuffer.frames rb)) = RingBuffer.length rb
  /\ Forall (fun frame => 0 <= duration frame) (RingBuffer.frames rb)
  /\ AudioBufferManager.getCurrentBufferMs m
     = RingBuffer.durations (RingBuffer.frames rb)
  /\ 0 <= AudioBufferManager.getCurrentBufferMs m
  /\ (0 <= AudioBufferManager.getBufferUtilization m <= 100)%Q
  /\ 0 <= IAudioBufferConfig.frameIntervalMs (AudioBufferManager._config m).
Proof.
  intros Hnew Hfi _ Hev. cbv zeta.
  destruct (new_fields config m0 Hnew)
    as (capacity & Hb & Hcap & _ & Hfp & _).
  assert (Hpos : 0 < capacity) by lia.
  assert (H0 : manager_inv capacity m0).
  { unfold manager_inv. rewrite Hb, Hfp. split; [|done].
    exists []. split; [by apply repr_new|constructor]. }
  pose proof (inv_run env capacity Hpos events m0 Hev H0)
    as ((q & Hr & Hq) & Hfi' & _).
  set (m := AudioBufferManager.run env events m0) in *.
  unfold AudioBufferManager.getCurrentBufferMs,
    AudioBufferManager.getBufferUtilization.
  rewrite (frames_repr capacity Hpos _ _ Hr).
  rewrite (getTotalDurationMs_repr capacity Hpos _ _ Hr).
  unfold RingBuffer.capacity, RingBuffer.length.
  rewrite (repr_capacity _ _ _ Hr), (repr_size _ _ _ Hr), Hb.
  pose proof (repr_bound _ _ _ Hr) as Hbound.
  rewrite (repr_size _ _ _ Hr) in Hbound.
  cbn [RingBuffer.new RingBuffer._capacity].
  repeat split; try done; try lia.
  - by apply durations_nonneg.
  - by apply (utilization_range capacity _ q).
  - by apply (utilization_range capacity _ q).
Qed.

Lemma X15_invariant_witness :
  exists m0 : AudioBufferManager.t unit,
    AudioBufferManager.new (H := fixed_monitor 0) IAudioBufferConfig.no_change
    = Return m0
    /\ let m :=
         AudioBufferManager.run (H := fixed_monitor 0) plain_platform
           [(AudioBufferManager.Called
               (AudioBufferManager.EnqueueFrames
                  (JSObject (JSAudio (AVString (str "AAAA"))) None None)), 5);
            (AudioBufferManager.Called AudioBufferManager.StartPlayback, 6);
            (AudioBufferManager.Fires 1, 56)] m0 in
       let rb := AudioBufferManager._buffer m in
       RingBuffer.capacity rb
       = RingBuffer.capacity (AudioBufferManager._buffer m0)
       /\ 150 <= RingBuffer.capacity rb
       /\ 0 <= RingBuffer.length rb <= RingBuffer.capacity rb
       /\ Z.of_nat (List.length (RingBuffer.frames rb)) = RingBuffer.length rb
       /\ Forall (fun frame => 0 <= duration frame) (RingBuffer.frames rb)
       /\ AudioBufferManager.getCurrentBufferMs m
          = RingBuffer.durations (RingBuffer.frames rb)
       /\ 0 <= AudioBufferManager.getCurrentBufferMs m
       /\ (0 <= AudioBufferManager.getBufferUtilization m <= 100)%Q
       /\ 0 <= IAudioBufferConfig.frameIntervalMs
                 (AudioBufferManager._config m).
Proof.
  eexists. split; [reflexivity|].
  apply (X15_manager_buffer_invariant (H := fixed_monitor 0) plain_platform
           IAudioBufferConfig.no_change).
  - reflexivity.
  - simpl. lia.
  - simpl. lia.
  - reflexivity.
Defined.

Lemma durations_uniform (frameIntervalMs : Z) (q : list IAudioFrame) :
  Forall (fun frame => duration frame = frameIntervalMs) q ->
  RingBuffer.durations q = Z.of_nat (List.length q) * frameIntervalMs.
Proof.
  induction 1 as [|frame q Hf _ IH]; [done|].
  rewrite durations_cons, IH, Hf. simpl List.length. lia.
Qed.

Lemma sample_manager_repr (active : bool) (frames : list IAudioFrame) :
  repr 150 (AudioBufferManager._buffer (sample_manager active frames))
    (RingBuffer.queue_run 150 (RingBuffer.Push <$> frames) []).
Proof.
  apply (repr_run 150 ltac:(lia)). apply (repr_new 150 ltac:(lia)).
Qed.

Section ManagerSteps.
Import AudioBufferManager.
Context {QM : Type} `{IQualityMonitor QM}.
Variable env : platform.
Variable capacity : Z.
Hypothesis capacity_pos : 0 < capacity.

(** One frame played: the oldest one leaves the buffer and is handed to
    [playSound]. *)
Lemma playNextFrame_queue now (m : t QM) q :
  repr capacity (_buffer m) q ->
  let m' := _playNextFrame env now m in
  repr capacity (_buffer m') (drop 1 q)
  /\ played m' = played m ++ (playback_of m <$> take 1 q)
  /\ pending m' = pending m
  /\ _config m' = _config m
  /\ _isActive m' = _isActive m
  /\ _currentTurnId m' = _currentTurnId m
  /\ _encoding m' = _encoding m
  /\ (_lastPlaybackTime m' = now
      \/ _lastPlaybackTime m' = _lastPlaybackTime m).
Proof.
  intros Hr. cbv zeta. unfold _playNextFrame.
  pose proof (repr_shift capacity capacity_pos _ _ Hr) as Hr'.
  pose proof (shift_result capacity _ _ Hr) as Hhead.
  destruct (RingBuffer.shift (_buffer m)) as [frame buffer].
  cbn [fst snd] in *. subst frame.
  destruct q as [|frame q]; cbn [head take drop fmap list_fmap] in *.
  - cbn. rewrite app_nil_r. split; [exact Hr'|].
    repeat split; try done. by right.
  - cbv zeta. change (drop 0 q) with q in *.
    unfold playback_of, playback_id. cbn.
    destruct (playSound env _ _ _) eqn:Hplay; cbn;
      (split; [exact Hr'|]); repeat split; auto.
Qed.

Lemma schedule_loop_queue now (n : nat) : forall (m : t QM) q,
  repr capacity (_buffer m) q ->
  let m' := schedule_loop env now n m in
  repr capacity (_buffer m') (drop n q)
  /\ played m' = played m ++ (playback_of m <$> take n q)
  /\ pending m' = pending m
  /\ _config m' = _config m
  /\ _isActive m' = _isActive m
  /\ _currentTurnId m' = _currentTurnId m
  /\ _encoding m' = _encoding m
  /\ (_lastPlaybackTime m' = now
      \/ _lastPlaybackTime m' = _lastPlaybackTime m).
Proof.
  induction n as [|n IH]; intros m q Hr; cbv zeta.
  - cbn. rewrite app_nil_r. split; [exact Hr|].
    repeat split; try done. by right.
  - cbn [schedule_loop]. unfold RingBuffer.isEmpty.
    destruct (Z.eqb_spec (RingBuffer._size (_buffer m)) 0) as [Hz|Hz].
    + pose proof (repr_nil_size capacity _ _ Hr Hz) as ->.
      cbn. rewrite app_nil_r. split; [exact Hr|].
      repeat split; try done. by right.
    + destruct q as [|frame q].
      { rewrite (repr_size _ _ _ Hr) in Hz. done. }
      destruct (playNextFrame_queue now m _ Hr)
        as (Hr1 & Hp1 & Hpe1 & Hc1 & Ha1 & Ht1 & He1 & Hl1).
      cbv zeta in *. cbn [drop take fmap list_fmap] in Hr1, Hp1.
      change (drop 0 q) with q in Hr1.
      destruct (IH _ _ Hr1) as (Hr2 & Hp2 & Hpe2 & Hc2 & Ha2 & Ht2 & He2 & Hl2).
      cbv zeta in *. cbn [drop take fmap list_fmap].
      split; [done|]. split.
      { rewrite Hp2, Hp1, <- app_assoc. cbn [app]. do 2 f_equal.
        unfold playback_of. by rewrite Ht1, He1. }
      repeat split; try congruence.
      destruct Hl2 as [->| ->]; [by left|done].
Qed.

Lemma scheduled_count (config : IAudioBufferConfig.t) (level : Z) :
  (if IAudioBufferConfig.targetBufferMs config <? level
   then 3%nat
   else if negb (Qle_bool
                   (inject_Z (IAudioBufferConfig.minBufferMs config)
                    * (15 # 10))
                   (inject_Z level))
        then 1%nat
        else 2%nat)
  = if IAudioBufferConfig.targetBufferMs config <? level then 3%nat
    else if 2 * level <? 3 * IAudioBufferConfig.minBufferMs config
         then 1%nat else 2%nat.
Proof.
  destruct (_ <? level); [done|].
  replace (Qle_bool _ _)
    with (3 * IAudioBufferConfig.minBufferMs config <=? 2 * level).
  - by rewrite Z.ltb_antisym.
  - unfold Qle_bool, Qmult, inject_Z. cbn [Qnum Qden].
    change (Z.pos (1 * 10)) with 10.
    apply eq_true_iff_eq. rewrite !Z.leb_le. lia.
Qed.

Lemma stopPlayback_fields (m : t QM) :
  let m' := stopPlayback m in
  _isActive m' = false
  /\ _buffer m' = RingBuffer.clear (_buffer m)
  /\ _nextSequenceNumber m' = 0
  /\ _frameProcessor m' = FrameProcessor.reset <$> _frameProcessor m
  /\ _qualityMonitor m' = _qualityMonitor m
  /\ _config m' = _config m
  /\ played m' = played m
  /\ next_timer_id m' = next_timer_id m
  /\ pending m'
     = match _playbackTimer m with
       | Some id =>
           if id =? 0 then pending m
           else List.filter (fun timer => negb (timer_id timer =? id))
                  (pending m)
       | None => pending m
       end
  /\ _playbackTimer m'
     = match _playbackTimer m with
       | Some id => if id =? 0 then Some id else None
       | None => None
       end.
Proof.
  destruct m as [b c fp qm timer active last next turn enc pend nid log].
  unfold stopPlayback. cbn.
  destruct timer as [id|]; [destruct (id =? 0)|]; destruct fp; cbn;
    repeat split; done.
Qed.

End ManagerSteps.

(** X16. A tick of the playback loop that schedules frames plays the
    oldest frames of the buffer, oldest first: three of them when the
    buffer level is above the target, one when it is below one and a
    half times the minimum, two otherwise, and fewer when the buffer
    holds fewer. These frames leave the buffer, each is handed to
    [playSound] once with its identifier, and no timeout is armed. *)
Theorem X16_schedule_plays_oldest_frames_first
    {QM : Type} (env : platform) (capacity : Z)
    (m : AudioBufferManager.t QM) (q : list IAudioFrame) (now : Z) :
  0 < capacity ->
  repr capacity (AudioBufferManager._buffer m) q ->
  let config := AudioBufferManager._config m in
  let level := RingBuffer.durations q in
  let count :=
    if IAudioBufferConfig.targetBufferMs config <? level then 3%nat
    else if 2 * level <? 3 * IAudioBufferConfig.minBufferMs config
         then 1%nat else 2%nat in
  let m' := AudioBufferManager._scheduleNextFrames env now m in
  repr capacity (AudioBufferManager._buffer m') (drop count q)
  /\ AudioBufferManager.played m'
     = AudioBufferManager.played m ++ (playback_of m <$> take count q)
  /\ AudioBufferManager.pending m' = AudioBufferManager.pending m
  /\ AudioBufferManager._config m' = config
  /\ AudioBufferManager._isActive m' = AudioBufferManager._isActive m
  /\ (AudioBufferManager._lastPlaybackTime m' = now
      \/ AudioBufferManager._lastPlaybackTime m'
         = AudioBufferManager._lastPlaybackTime m).
Proof.
  intros Hc Hr. cbv zeta. unfold AudioBufferManager._scheduleNextFrames.
  cbv zeta. unfold AudioBufferManager.getCurrentBufferMs.
  rewrite (getTotalDurationMs_repr capacity Hc _ _ Hr), scheduled_count.
  destruct (schedule_loop_queue env capacity Hc now
              (if IAudioBufferConfig.targetBufferMs
                    (AudioBufferManager._config m)
                  <? RingBuffer.durations q
               then 3%nat
               else if 2 * RingBuffer.durations q
                       <? 3 * IAudioBufferConfig.minBufferMs
                              (AudioBufferManager._config m)
                    then 1%nat else 2%nat) m q Hr)
    as (H1 & H2 & H3 & H4 & H5 & _ & _ & H8).
  done.
Qed.

Lemma X16_schedule_witness :
  let m :=
    sample_manager true
      [sample_frame 0 20; sample_frame 1 20; sample_frame 2 20] in
  let q :=
    RingBuffer.queue_run 150
      (RingBuffer.Push
         <$> [sample_frame 0 20; sample_frame 1 20; sample_frame 2 20]) [] in
  let config := AudioBufferManager._config m in
  let level := RingBuffer.durations q in
  let count :=
    if IAudioBufferConfig.targetBufferMs config <? level then 3%nat
    else if 2 * level <? 3 * IAudioBufferConfig.minBufferMs config
         then 1%nat else 2%nat in
  let m' :=
    AudioBufferManager._scheduleNextFrames plain_platform 7 m in
  repr 150 (AudioBufferManager._buffer m') (drop count q)
  /\ AudioBufferManager.played m'
     = AudioBufferManager.played m ++ (playback_of m <$> take count q)
  /\ AudioBufferManager.pending m' = AudioBufferManager.pending m
  /\ AudioBufferManager._config m' = config
  /\ AudioBufferManager._isActive m' = AudioBufferManager._isActive m
  /\ (AudioBufferManager._lastPlaybackTime m' = 7
      \/ AudioBufferManager._lastPlaybackTime m'
         = AudioBufferManager._lastPlaybackTime m).
Proof.
  cbv zeta.
  apply (X16_schedule_plays_oldest_frames_first plain_platform 150
           (sample_manager true
              [sample_frame 0 20; sample_frame 1 20; sample_frame 2 20])).
  - lia.
  - apply sample_manager_repr.
Defined.

(** X17. [_handleOverrun], on a manager with a positive frame interval:
    when the buffer level exceeds [maxBufferMs] by more than 100 ms, the
    oldest [floor(excess / frameIntervalMs)] frames are dropped, and
    nothing is dropped otherwise. When every frame has the duration
    [frameIntervalMs] and [maxBufferMs] is not negative, a drop brings
    the level back between [maxBufferMs] and less than one frame above
    it. Nothing is played and no timeout is touched. *)
Theorem X17_overrun_drops_whole_frames
    {QM : Type} `{IQualityMonitor QM} (capacity : Z)
    (m : AudioBufferManager.t QM) (q : list IAudioFrame) :
  0 < capacity ->
  repr capacity (AudioBufferManager._buffer m) q ->
  let config := AudioBufferManager._config m in
  0 < IAudioBufferConfig.frameIntervalMs config ->
  let excess :=
    RingBuffer.durations q - IAudioBufferConfig.maxBufferMs config in
  let dropped :=
    if 100 <? excess
    then Z.to_nat (excess / IAudioBufferConfig.frameIntervalMs config)
    else 0%nat in
  let m' := AudioBufferManager._handleOverrun m in
  repr capacity (AudioBufferManager._buffer m') (drop dropped q)
  /\ AudioBufferManager.played m' = AudioBufferManager.played m
  /\ AudioBufferManager.pending m' = AudioBufferManager.pending m
  /\ AudioBufferManager._config m' = config
  /\ (100 < excess ->
      0 <= IAudioBufferConfig.maxBufferMs config ->
      Forall (fun frame =>
                duration frame = IAudioBufferConfig.frameIntervalMs config) q ->
      IAudioBufferConfig.maxBufferMs config
      <= AudioBufferManager.getCurrentBufferMs m'
      < IAudioBufferConfig.maxBufferMs config
        + IAudioBufferConfig.frameIntervalMs config).
Proof.
  intros Hc Hr. cbv zeta. intros Hfi.
  set (config := AudioBufferManager._config m) in *.
  set (fi := IAudioBufferConfig.frameIntervalMs config) in *.
  set (excess :=
         RingBuffer.durations q - IAudioBufferConfig.maxBufferMs config).
  assert (Hshape :
    AudioBufferManager._handleOverrun m
    = let m1 := AudioBufferManager.with_monitor recordOverrun m in
      if 100 <? excess
      then AudioBufferManager.set_buffer
             (RingBuffer.dropOldest (excess / fi)
                (AudioBufferManager._buffer m)).2 m1
      else m1).
  { unfold AudioBufferManager._handleOverrun. cbv zeta.
    assert (Hm1 : forall f,
      AudioBufferManager._buffer (AudioBufferManager.with_monitor f m)
      = AudioBufferManager._buffer m
      /\ AudioBufferManager._config (AudioBufferManager.with_monitor f m)
         = config).
    { intros f. unfold AudioBufferManager.with_monitor.
      by destruct (AudioBufferManager._qualityMonitor m). }
    destruct (Hm1 recordOverrun) as [Hb Hcfg].
    unfold AudioBufferManager.getCurrentBufferMs. rewrite Hb, Hcfg.
    rewrite (getTotalDurationMs_repr capacity Hc _ _ Hr). fold excess fi.
    destruct (Z.eqb_spec fi 0); [lia|done]. }
  rewrite Hshape. cbv zeta.
  assert (Hm1 :
    AudioBufferManager._buffer
      (AudioBufferManager.with_monitor recordOverrun m)
    = AudioBufferManager._buffer m
    /\ AudioBufferManager._config
         (AudioBufferManager.with_monitor recordOverrun m) = config
    /\ AudioBufferManager.played
         (AudioBufferManager.with_monitor recordOverrun m)
       = AudioBufferManager.played m
    /\ AudioBufferManager.pending
         (AudioBufferManager.with_monitor recordOverrun m)
       = AudioBufferManager.pending m).
  { unfold AudioBufferManager.with_monitor.
    by destruct (AudioBufferManager._qualityMonitor m). }
  destruct Hm1 as (Hb1 & Hc1 & Hp1 & Hpe1).
  destruct (Z.ltb_spec 100 excess) as [Hex|Hex].
  - assert (Hn : 0 <= excess / fi) by (apply Z.div_pos; lia).
    assert (Hr' : repr capacity
              (RingBuffer.dropOldest (excess / fi)
                 (AudioBufferManager._buffer m)).2
              (drop (Z.to_nat (excess / fi)) q)).
    { rewrite <- (Z2Nat.id _ Hn) at 1.
      by apply (repr_dropOldest capacity Hc). }
    cbn. split; [exact Hr'|]. do 3 (split; [done|]).
    intros _ Hmax Hq.
    unfold AudioBufferManager.getCurrentBufferMs. cbn.
    rewrite (getTotalDurationMs_repr capacity Hc _ _ Hr').
    rewrite (durations_uniform fi) by (by apply Forall_drop).
    rewrite length_drop.
    set (len := Z.of_nat (List.length q)) in *.
    set (maxMs := IAudioBufferConfig.maxBufferMs config) in *.
    assert (Hexc : excess = len * fi - maxMs).
    { subst excess len maxMs. by rewrite (durations_uniform fi q Hq). }
    assert (Hd : excess / fi <= len).
    { apply Z.div_le_upper_bound; [lia|]. nia. }
    replace (Z.of_nat (List.length q - Z.to_nat (excess / fi)))
      with (len - excess / fi) by lia.
    pose proof (Z.div_mod excess fi ltac:(lia)) as Hdm.
    pose proof (Z.mod_pos_bound excess fi Hfi) as Hmod.
    split; nia.
  - rewrite Hb1, Hc1, Hp1, Hpe1. split; [exact Hr|].
    do 3 (split; [done|]). lia.
Qed.

Lemma X17_overrun_witness :
  let frames := (fun n => sample_frame n 20) <$> seqZ 0 40 in
  let m := sample_manager true frames in
  let q := RingBuffer.queue_run 150 (RingBuffer.Push <$> frames) [] in
  let config := AudioBufferManager._config m in
  let excess :=
    RingBuffer.durations q - IAudioBufferConfig.maxBufferMs config in
  let dropped :=
    if 100 <? excess
    then Z.to_nat (excess / IAudioBufferConfig.frameIntervalMs config)
    else 0%nat in
  let m' := AudioBufferManager._handleOverrun (H := fixed_monitor 0) m in
  repr 150 (AudioBufferManager._buffer m') (drop dropped q)
  /\ AudioBufferManager.played m' = AudioBufferManager.played m
  /\ AudioBufferManager.pending m' = AudioBufferManager.pending m
  /\ AudioBufferManager._config m' = config
  /\ (100 < excess ->
      0 <= IAudioBufferConfig.maxBufferMs config ->
      Forall (fun frame =>
                duration frame = IAudioBufferConfig.frameIntervalMs config) q ->
      IAudioBufferConfig.maxBufferMs config
      <= AudioBufferManager.getCurrentBufferMs m'
      < IAudioBufferConfig.maxBufferMs config
        + IAudioBufferConfig.frameIntervalMs config).
Proof.
  cbv zeta.
  apply (X17_overrun_drops_whole_frames (H := fixed_monitor 0) 150
           (sample_manager true ((fun n => sample_frame n 20) <$> seqZ 0 40))).
  - lia.
  - apply sample_manager_repr.
  - simpl. lia.
Defined.

Section ManagerCalls.
Import AudioBufferManager.
Context {QM : Type} `{IQualityMonitor QM}.
Variable env : platform.
Variable capacity : Z.
Hypothesis capacity_pos : 0 < capacity.

Lemma with_monitor_fields f (m : t QM) :
  let m' := with_monitor f m in
  _buffer m' = _buffer m
  /\ _config m' = _config m
  /\ _frameProcessor m' = _frameProcessor m
  /\ _playbackTimer m' = _playbackTimer m
  /\ _isActive m' = _isActive m
  /\ _lastPlaybackTime m' = _lastPlaybackTime m
  /\ _nextSequenceNumber m' = _nextSequenceNumber m
  /\ _currentTurnId m' = _currentTurnId m
  /\ _encoding m' = _encoding m
  /\ pending m' = pending m
  /\ next_timer_id m' = next_timer_id m
  /\ played m' = played m.
Proof.
  unfold with_monitor. destruct (_qualityMonitor m); repeat split; done.
Qed.

(** [_handleOverrun] on the queue of frames. *)
Lemma handleOverrun_queue (m : t QM) q :
  repr capacity (_buffer m) q ->
  0 <= IAudioBufferConfig.frameIntervalMs (_config m) ->
  let excess :=
    RingBuffer.durations q - IAudioBufferConfig.maxBufferMs (_config m) in
  let dropped :=
    if 100 <? excess
    then if IAudioBufferConfig.frameIntervalMs (_config m) =? 0
         then List.length q
         else Z.to_nat (excess / IAudioBufferConfig.frameIntervalMs (_config m))
    else 0%nat in
  let m' := _handleOverrun m in
  repr capacity (_buffer m') (drop dropped q)
  /\ _frameProcessor m' = _frameProcessor m
  /\ played m' = played m
  /\ pending m' = pending m
  /\ _isActive m' = _isActive m
  /\ _config m' = _config m
  /\ _nextSequenceNumber m' = _nextSequenceNumber m.
Proof.
  intros Hr Hfi. cbv zeta. unfold _handleOverrun. cbv zeta.
  destruct (with_monitor_fields recordOverrun m)
    as (Hb & Hc & Hfp & _ & Ha & _ & Hn & _ & _ & Hpe & _ & Hp).
  cbv zeta in *. set (m1 := with_monitor recordOverrun m) in *.
  unfold getCurrentBufferMs. rewrite Hb, Hc.
  rewrite (getTotalDurationMs_repr capacity capacity_pos _ _ Hr).
  destruct (Z.ltb_spec 100
              (RingBuffer.durations q
               - IAudioBufferConfig.maxBufferMs (_config m))) as [Hex|Hex].
  - set (framesToDrop := if _ =? 0 then RingBuffer._size _ else _).
    set (dropped := if _ =? 0 then List.length q else _).
    assert (Hd : framesToDrop = Z.of_nat dropped).
    { subst framesToDrop dropped.
      destruct (Z.eqb_spec (IAudioBufferConfig.frameIntervalMs (_config m)) 0).
      - apply (repr_size _ _ _ Hr).
      - rewrite Z2Nat.id; [done|]. apply Z.div_pos; lia. }
    rewrite Hd. cbn. split; [by apply repr_dropOldest|]. done.
  - rewrite Hb. split; [exact Hr|]. done.
Qed.

Lemma insertSilenceFrame_fields now (m : t QM) :
  0 <= IAudioBufferConfig.frameIntervalMs (_config m)
       * default 16000 (IAudioBufferConfig.sampleRate (_config m))
       / 1000 * _getBytesPerSample m ->
  exists m',
    _insertSilenceFrame env now m = Return m'
    /\ _buffer m' = RingBuffer.unshift (silence_of env now m) (_buffer m)
    /\ _nextSequenceNumber m' = _nextSequenceNumber m + 1
    /\ _config m' = _config m
    /\ _isActive m' = _isActive m
    /\ _lastPlaybackTime m' = _lastPlaybackTime m
    /\ pending m' = pending m
    /\ next_timer_id m' = next_timer_id m
    /\ played m' = played m.
Proof.
  intros Hbytes. unfold _insertSilenceFrame. cbv zeta.
  destruct (Z.ltb_spec
              (IAudioBufferConfig.frameIntervalMs (_config m)
               * default 16000 (IAudioBufferConfig.sampleRate (_config m))
               / 1000 * _getBytesPerSample m) 0) as [Hneg|_]; [lia|].
  eexists. split; [reflexivity|]. unfold silence_of.
  rewrite arrayBufferToBase64_agrees. cbn. repeat split; done.
Qed.

(** A tick of the playback loop below the minimum level. *)
Lemma startPlaybackLoop_underrun now (m : t QM) :
  _isActive m = true ->
  getCurrentBufferMs m < IAudioBufferConfig.minBufferMs (_config m) ->
  0 <= IAudioBufferConfig.frameIntervalMs (_config m)
       * default 16000 (IAudioBufferConfig.sampleRate (_config m))
       / 1000 * _getBytesPerSample m ->
  let m' := _startPlaybackLoop env now m in
  _buffer m' = RingBuffer.unshift (silence_of env now m) (_buffer m)
  /\ _nextSequenceNumber m' = _nextSequenceNumber m + 1
  /\ played m' = played m
  /\ pending m'
     = pending m
       ++ [{| timer_id := next_timer_id m;
              timer_delay :=
                Z.max 1
                  (IAudioBufferConfig.frameIntervalMs (_config m)
                   - (now - (_lastPlaybackTime m
                             + IAudioBufferConfig.frameIntervalMs
                                 (_config m))));
              timer_callback := playbackLoop |}]
  /\ _playbackTimer m' = Some (next_timer_id m)
  /\ _isActive m' = true.
Proof.
  intros Ha Hlow Hbytes. cbv zeta. unfold _startPlaybackLoop.
  rewrite Ha. cbn [negb]. cbv zeta.
  destruct (with_monitor_fields (updateBufferLevel (getCurrentBufferMs m)) m)
    as (Hb1 & Hc1 & _ & _ & Ha1 & Hl1 & Hn1 & _ & He1 & Hpe1 & Hid1 & Hp1).
  cbv zeta in *.
  set (m1 := with_monitor (updateBufferLevel (getCurrentBufferMs m)) m) in *.
  rewrite Hc1.
  destruct (Z.ltb_spec (getCurrentBufferMs m)
              (IAudioBufferConfig.minBufferMs (_config m))) as [_|]; [|lia].
  unfold _handleUnderrun.
  destruct (with_monitor_fields recordUnderrun m1)
    as (Hb2 & Hc2 & _ & _ & Ha2 & Hl2 & Hn2 & _ & He2 & Hpe2 & Hid2 & Hp2).
  cbv zeta in *. set (m2 := with_monitor recordUnderrun m1) in *.
  assert (Hsil : silence_of env now m2 = silence_of env now m).
  { unfold silence_of, _getBytesPerSample.
    by rewrite Hn2, Hn1, Hc2, Hc1, He2, He1. }
  destruct (insertSilenceFrame_fields now m2)
    as (m3 & -> & Hb3 & Hn3 & Hc3 & Ha3 & Hl3 & Hpe3 & Hid3 & Hp3).
  { unfold _getBytesPerSample in *. by rewrite Hc2, Hc1, He2, He1. }
  unfold _calculateNextInterval. cbn.
  rewrite Hb3, Hn3, Hc3, Ha3, Hl3, Hpe3, Hid3, Hp3, Hsil.
  rewrite Hb2, Hn2, Hc2, Ha2, Hl2, Hpe2, Hid2, Hp2.
  rewrite Hb1, Hn1, Hc1, Ha1, Hl1, Hpe1, Hid1, Hp1.
  repeat split; done.
Qed.

End ManagerCalls.

(** X18. A tick of the playback loop on an active manager whose buffer
    level is below [minBufferMs] is an underrun: one frame of silence
    is inserted in front of the frames held (the newest frame is lost
    when the buffer is full). It lasts [frameIntervalMs], takes the
    next silence sequence number, and its payload is the base64 text of
    [floor(frameIntervalMs x sampleRate / 1000) x bytesPerSample] zero
    bytes, which decodes to that many bytes. Nothing is played, and
    exactly one timeout is armed for the next tick. *)
Theorem X18_underrun_tick_inserts_silence
    {QM : Type} `{IQualityMonitor QM} (env : platform) (capacity : Z)
    (m : AudioBufferManager.t QM) (q : list IAudioFrame) (now : Z) :
  0 < capacity ->
  repr capacity (AudioBufferManager._buffer m) q ->
  AudioBufferManager._isActive m = true ->
  let config := AudioBufferManager._config m in
  let frameIntervalMs := IAudioBufferConfig.frameIntervalMs config in
  RingBuffer.durations q < IAudioBufferConfig.minBufferMs config ->
  let bytesNeeded :=
    frameIntervalMs * default 16000 (IAudioBufferConfig.sampleRate config)
    / 1000 * AudioBufferManager._getBytesPerSample m in
  0 <= bytesNeeded ->
  let text :=
    FrameProcessor._binaryToBase64 (btoa env)
      (repeat "000"%byte (Z.to_nat bytesNeeded)) in
  let silence :=
    {| sequenceNumber := AudioBufferManager._nextSequenceNumber m;
       data := {| audioData := AVString text;
                  isFirst := Some false; isFinal := Some false |};
       duration := frameIntervalMs;
       timestamp := now |} in
  let m' := AudioBufferManager._startPlaybackLoop env now m in
  repr capacity (AudioBufferManager._buffer m')
    (RingBuffer.queue_step capacity q (RingBuffer.Unshift silence))
  /\ (btoa env = None ->
      (FrameProcessor.estimatedBytes text == inject_Z bytesNeeded)%Q)
  /\ AudioBufferManager._nextSequenceNumber m'
     = AudioBufferManager._nextSequenceNumber m + 1
  /\ AudioBufferManager.played m' = AudioBufferManager.played m
  /\ AudioBufferManager.pending m'
     = AudioBufferManager.pending m
       ++ [{| AudioBufferManager.timer_id :=
                AudioBufferManager.next_timer_id m;
              AudioBufferManager.timer_delay :=
                Z.max 1
                  (frameIntervalMs
                   - (now - (AudioBufferManager._lastPlaybackTime m
                             + frameIntervalMs)));
              AudioBufferManager.timer_callback :=
                AudioBufferManager.playbackLoop |}]
  /\ AudioBufferManager._playbackTimer m'
     = Some (AudioBufferManager.next_timer_id m)
  /\ AudioBufferManager._isActive m' = true.
Proof.
  intros Hc Hr Ha. cbv zeta. intros Hlow Hbytes.
  rewrite <- (getTotalDurationMs_repr capacity Hc _ _ Hr) in Hlow.
  destruct (startPlaybackLoop_underrun env now m Ha Hlow Hbytes)
    as (Hb & Hn & Hp & Hpe & Ht & Ha').
  cbv zeta in *. rewrite Hb.
  split; [by apply (repr_unshift capacity Hc)|].
  split; [|done].
  intros Hbtoa. rewrite Hbtoa.
  set (n := IAudioBufferConfig.frameIntervalMs (AudioBufferManager._config m)
            * default 16000
                (IAudioBufferConfig.sampleRate (AudioBufferManager._config m))
            / 1000 * AudioBufferManager._getBytesPerSample m) in *.
  destruct (fallback_base64_size (repeat "000"%byte (Z.to_nat n)))
    as [Hlen Hpad].
  cbv zeta in Hlen, Hpad. unfold FrameProcessor.estimatedBytes.
  rewrite Hlen, Hpad, repeat_length, Z2Nat.id by done.
  set (k := (n + 2) / 3).
  unfold Z.sub. rewrite inject_Z_plus, inject_Z_opp, !inject_Z_mult.
  change (inject_Z 4) with 4%Q. change (inject_Z 3) with 3%Q. field.
Qed.


Lemma X18_underrun_witness :
  let m := sample_manager true [sample_frame 0 20] in
  let q := [sample_frame 0 20] in
  let config := AudioBufferManager._config m in
  let frameIntervalMs := IAudioBufferConfig.frameIntervalMs config in
  let bytesNeeded :=
    frameIntervalMs * default 16000 (IAudioBufferConfig.sampleRate config)
    / 1000 * AudioBufferManager._getBytesPerSample m in
  let text :=
    FrameProcessor._binaryToBase64 (btoa plain_platform)
      (repeat "000"%byte (Z.to_nat bytesNeeded)) in
  let silence :=
    {| sequenceNumber := AudioBufferManager._nextSequenceNumber m;
       data := {| audioData := AVString text;
                  isFirst := Some false; isFinal := Some false |};
       duration := frameIntervalMs;
       timestamp := 9 |} in
  let m' :=
    AudioBufferManager._startPlaybackLoop (H := fixed_monitor 0)
      plain_platform 9 m in
  repr 150 (AudioBufferManager._buffer m')
    (RingBuffer.queue_step 150 q (RingBuffer.Unshift silence))
  /\ (btoa plain_platform = None ->
      (FrameProcessor.estimatedBytes text == inject_Z bytesNeeded)%Q)
  /\ AudioBufferManager._nextSequenceNumber m'
     = AudioBufferManager._nextSequenceNumber m + 1
  /\ AudioBufferManager.played m' = AudioBufferManager.played m
  /\ AudioBufferManager.pending m'
     = AudioBufferManager.pending m
       ++ [{| AudioBufferManager.timer_id :=
                AudioBufferManager.next_timer_id m;
              AudioBufferManager.timer_delay :=
                Z.max 1
                  (frameIntervalMs
                   - (9 - (AudioBufferManager._lastPlaybackTime m
                           + frameIntervalMs)));
              AudioBufferManager.timer_callback :=
                AudioBufferManager.playbackLoop |}]
  /\ AudioBufferManager._playbackTimer m'
     = Some (AudioBufferManager.next_timer_id m)
  /\ AudioBufferManager._isActive m' = true.
Proof.
  cbv zeta.
  apply (X18_underrun_tick_inserts_silence (H := fixed_monitor 0)
           plain_platform 150 (sample_manager true [sample_frame 0 20])
           [sample_frame 0 20] 9).
  - lia.
  - apply (sample_manager_repr true [sample_frame 0 20]).
  - reflexivity.
  - vm_compute. reflexivity.
  - vm_compute. discriminate.
Defined.

Section StoppedManager.
Import AudioBufferManager.
Context {QM : Type} `{IQualityMonitor QM}.
Variable env : platform.

(** A timeout that fires on an inactive manager just goes. *)
Lemma fire_inactive timer now (m : t QM) :
  _isActive m = false ->
  fire env timer now m = clearTimeout (timer_id timer) m.
Proof.
  intros Ha. unfold fire. cbv zeta.
  set (m1 := clearTimeout _ _).
  assert (Ha1 : _isActive m1 = false) by exact Ha.
  destruct (timer_callback timer).
  - unfold run_checkBuffer. by rewrite Ha1, orb_true_r.
  - unfold _startPlaybackLoop. by rewrite Ha1.
Qed.

(** Timeouts that fire one after the other on an inactive manager
    change nothing but the list of pending timeouts, which loses
    them. *)
Lemma firings_inactive (timers : list (Z * Z)) : forall m : t QM,
  _isActive m = false ->
  let m' := run env (firings timers) m in
  _isActive m' = false
  /\ played m' = played m
  /\ _buffer m' = _buffer m
  /\ _playbackTimer m' = _playbackTimer m
  /\ next_timer_id m' = next_timer_id m
  /\ pending m'
     = List.filter
         (fun timer => negb (existsb (Z.eqb (timer_id timer)) timers.*1))
         (pending m).
Proof.
  induction timers as [|[id now] timers IH]; intros m Ha; cbv zeta.
  - cbn. repeat split; try done.
    induction (pending m) as [|timer l IHl]; [done|].
    cbn. by rewrite <- IHl.
  - change (run env (firings ((id, now) :: timers)) m)
      with (run env (firings timers) (happen env (Fires id) now m)).
    cbn [happen].
    set (m1 := match List.find _ (pending m) with
               | Some timer => fire env timer now m
               | None => m
               end).
    assert (H1 : _isActive m1 = false
                 /\ played m1 = played m
                 /\ _buffer m1 = _buffer m
                 /\ _playbackTimer m1 = _playbackTimer m
                 /\ next_timer_id m1 = next_timer_id m
                 /\ pending m1
                    = List.filter (fun timer => negb (timer_id timer =? id))
                        (pending m)).
    { subst m1. destruct (List.find _ (pending m)) as [timer|] eqn:Hfind.
      - rewrite fire_inactive by done.
        apply find_some in Hfind as [_ Hid]. apply Z.eqb_eq in Hid.
        cbn. rewrite Hid. done.
      - repeat split; try done.
        symmetry. apply forallb_filter_id, forallb_forall.
        intros timer Hin.
        by rewrite (find_none _ _ Hfind timer Hin). }
    destruct H1 as (Ha1 & Hp1 & Hb1 & Ht1 & Hn1 & Hpe1).
    destruct (IH m1 Ha1) as (Ha2 & Hp2 & Hb2 & Ht2 & Hn2 & Hpe2).
    cbv zeta in *. rewrite Ha2, Hp2, Hb2, Ht2, Hn2, Hpe2.
    rewrite Hp1, Hb1, Ht1, Hn1, Hpe1.
    repeat split; try done.
    clear. induction (pending m) as [|timer l IHl]; [done|].
    cbn [List.filter fmap list_fmap fst existsb].
    destruct (timer_id timer =? id); cbn [negb orb List.filter];
      [exact IHl|].
    destruct (existsb _ _); cbn [negb]; by rewrite IHl.
Qed.

End StoppedManager.

(** X19. [stopPlayback] cancels the playback: the manager is inactive,
    its buffer is empty and its level 0, the silence counter and the
    sequence number of the frame processor are back to 0, and the
    timeout of the playback loop is no longer pending. As long as
    playback is not started again, whichever timeouts fire afterwards,
    one after the other -- a buffer check left behind or a tick of the
    loop -- nothing is played, nothing is armed and the buffer stays
    empty: each timeout just goes. (A buffer check armed by an earlier
    [startPlayback] is not cancelled by [stopPlayback]; what it does
    when it fires after playback has been started again is outside of
    this property.) *)
Theorem X19_stopPlayback_cancels_playback
    {QM : Type} `{IQualityMonitor QM} (env : platform)
    (m : AudioBufferManager.t QM) (timer : AudioBufferManager.timeout)
    (now : Z) (timers : list (Z * Z)) :
  let m' := AudioBufferManager.stopPlayback m in
  let later := AudioBufferManager.run env (firings timers) m' in
  AudioBufferManager.isPlaying m' = false
  /\ RingBuffer.length (AudioBufferManager._buffer m') = 0
  /\ RingBuffer.frames (AudioBufferManager._buffer m') = []
  /\ AudioBufferManager.getCurrentBufferMs m' = 0
  /\ AudioBufferManager._nextSequenceNumber m' = 0
  /\ FrameProcessor._sequenceNumber <$> AudioBufferManager._frameProcessor m'
     = (fun _ => 0) <$> AudioBufferManager._frameProcessor m
  /\ AudioBufferManager.played m' = AudioBufferManager.played m
  /\ (forall id,
        AudioBufferManager._playbackTimer m = Some id -> id <> 0 ->
        AudioBufferManager._playbackTimer m' = None
        /\ Forall (fun pending => AudioBufferManager.timer_id pending <> id)
             (AudioBufferManager.pending m'))
  /\ AudioBufferManager.fire env timer now m'
     = AudioBufferManager.clearTimeout (AudioBufferManager.timer_id timer) m'
  /\ AudioBufferManager.isPlaying later = false
  /\ AudioBufferManager.played later = AudioBufferManager.played m
  /\ AudioBufferManager._buffer later = AudioBufferManager._buffer m'
  /\ AudioBufferManager.next_timer_id later
     = AudioBufferManager.next_timer_id m
  /\ AudioBufferManager.pending later
     = List.filter
         (fun timer =>
            negb (existsb (Z.eqb (AudioBufferManager.timer_id timer))
                    timers.*1))
         (AudioBufferManager.pending m').
Proof.
  cbv zeta.
  destruct (stopPlayback_fields m)
    as (Ha & Hb & Hn & Hfp & Hqm & Hc & Hp & Hid & Hpe & Ht).
  destruct (firings_inactive env timers (AudioBufferManager.stopPlayback m) Ha)
    as (Ha2 & Hp2 & Hb2 & _ & Hn2 & Hpe2).
  cbv zeta in *. unfold AudioBufferManager.isPlaying,
    AudioBufferManager.getCurrentBufferMs.
  rewrite Ha2, Hp2, Hb2, Hn2, Hpe2.
  rewrite Ha, Hb, Hn, Hfp, Hp, Hid.
  split; [done|]. split; [done|]. split; [done|]. split; [done|].
  split; [done|]. split.
  { by destruct (AudioBufferManager._frameProcessor m). }
  split; [done|]. split.
  { intros id Hid' Hne. rewrite Ht, Hpe, Hid'.
    destruct (Z.eqb_spec id 0); [done|]. split; [done|].
    apply List.Forall_forall. intros pending Hin.
    apply filter_In in Hin as [_ Hin].
    apply negb_true_iff in Hin. by apply Z.eqb_neq in Hin. }
  split; [by apply fire_inactive|]. done.
Qed.

(** X20. [enqueueFrames] on a manager with its frame processor and
    quality monitor, step by step on the queue of frames: the frames
    that [parseChunk] returns for the payload are appended (the oldest
    frame gives way when the buffer is full); then, when the level
    exceeds [maxBufferMs] by more than 100 ms, the oldest
    [floor(excess / frameIntervalMs)] frames are dropped (all of them
    when the frame interval is 0). The processor has moved on as
    [parseChunk] says; nothing is played, no timeout is armed, and the
    activity, the configuration and the silence counter are
    unchanged. *)
Theorem X20_enqueue_appends_then_trims
    {QM : Type} `{IQualityMonitor QM} (env : platform) (capacity : Z)
    (m : AudioBufferManager.t QM) (q : list IAudioFrame)
    (fp : FrameProcessor.t) (qm : QM) (payload : js_payload) (now : Z) :
  0 < capacity ->
  repr capacity (AudioBufferManager._buffer m) q ->
  AudioBufferManager._frameProcessor m = Some fp ->
  AudioBufferManager._qualityMonitor m = Some qm ->
  let config := AudioBufferManager._config m in
  0 <= IAudioBufferConfig.frameIntervalMs config ->
  let parsed := FrameProcessor.parseChunk (btoa env) payload now fp in
  let q1 := RingBuffer.queue_run capacity (RingBuffer.Push <$> parsed.1) q in
  let excess :=
    RingBuffer.durations q1 - IAudioBufferConfig.maxBufferMs config in
  let q2 :=
    if 100 <? excess
    then drop (if IAudioBufferConfig.frameIntervalMs config =? 0
               then List.length q1
               else Z.to_nat
                      (excess / IAudioBufferConfig.frameIntervalMs config))
           q1
    else q1 in
  let m' := AudioBufferManager.enqueueFrames env payload now m in
  repr capacity (AudioBufferManager._buffer m') q2
  /\ AudioBufferManager._frameProcessor m' = Some parsed.2
  /\ AudioBufferManager.played m' = AudioBufferManager.played m
  /\ AudioBufferManager.pending m' = AudioBufferManager.pending m
  /\ AudioBufferManager._isActive m' = AudioBufferManager._isActive m
  /\ AudioBufferManager._config m' = config
  /\ AudioBufferManager._nextSequenceNumber m'
     = AudioBufferManager._nextSequenceNumber m.
Proof.
  intros Hc Hr Hfp Hqm. cbv zeta. intros Hfi.
  unfold AudioBufferManager.enqueueFrames. rewrite Hfp, Hqm.
  set (parsed := FrameProcessor.parseChunk (btoa env) payload now fp).
  assert (Hloop :
    repr capacity
      (AudioBufferManager.enqueue_loop parsed.1
         (AudioBufferManager._buffer m) qm).1
      (RingBuffer.queue_run capacity (RingBuffer.Push <$> parsed.1) q)).
  { destruct (parseChunk_cases (btoa env) payload now fp)
      as [Hp|(frame & Hp & _)]; subst parsed; rewrite Hp; cbn.
    - done.
    - by apply (repr_push capacity Hc). }
  destruct parsed as [frames fp']. cbn [fst snd] in *.
  set (q1 := RingBuffer.queue_run capacity (RingBuffer.Push <$> frames) q) in *.
  destruct (AudioBufferManager.enqueue_loop frames
              (AudioBufferManager._buffer m) qm) as [buffer qm'].
  cbn [fst] in Hloop. cbv zeta.
  set (m1 := AudioBufferManager.set_frameProcessor (Some fp')
               (AudioBufferManager.set_buffer buffer m)).
  set (m2 := AudioBufferManager.set_qualityMonitor _ m1).
  assert (Hr2 : repr capacity (AudioBufferManager._buffer m2) q1)
    by exact Hloop.
  assert (Hlevel : AudioBufferManager.getCurrentBufferMs m1
                   = RingBuffer.durations q1).
  { unfold AudioBufferManager.getCurrentBufferMs.
    apply (getTotalDurationMs_repr capacity Hc). exact Hloop. }
  rewrite Hlevel. change (AudioBufferManager._config m2)
    with (AudioBufferManager._config m).
  destruct (handleOverrun_queue capacity Hc m2 q1 Hr2 Hfi)
    as (Hb3 & Hfp3 & Hp3 & Hpe3 & Ha3 & Hc3 & Hn3).
  cbv zeta in *.
  change (AudioBufferManager._config m2)
    with (AudioBufferManager._config m) in *.
  destruct (Z.ltb_spec (IAudioBufferConfig.maxBufferMs
                          (AudioBufferManager._config m))
              (RingBuffer.durations q1)) as [Hover|Hunder].
  - revert Hb3. destruct (100 <? _); intros Hb3; (split; [exact Hb3|]);
      rewrite Hfp3, Hp3, Hpe3, Ha3, Hc3, Hn3; done.
  - destruct (Z.ltb_spec 100
                (RingBuffer.durations q1
                 - IAudioBufferConfig.maxBufferMs
                     (AudioBufferManager._config m))); [lia|].
    split; [exact Hr2|]. done.
Qed.

Lemma X20_enqueue_witness :
  let m := sample_manager false [sample_frame 0 20] in
  let q := [sample_frame 0 20] in
  let payload := JSObject (JSAudio (AVString (str "AAAA"))) None None in
  let config := AudioBufferManager._config m in
  let parsed :=
    FrameProcessor.parseChunk (btoa plain_platform) payload 5
      FrameProcessor.new_default in
  let q1 := RingBuffer.queue_run 150 (RingBuffer.Push <$> parsed.1) q in
  let excess :=
    RingBuffer.durations q1 - IAudioBufferConfig.maxBufferMs config in
  let q2 :=
    if 100 <? excess
    then drop (if IAudioBufferConfig.frameIntervalMs config =? 0
               then List.length q1
               else Z.to_nat
                      (excess / IAudioBufferConfig.frameIntervalMs config))
           q1
    else q1 in
  let m' :=
    AudioBufferManager.enqueueFrames (H := fixed_monitor 0) plain_platform
      payload 5 m in
  repr 150 (AudioBufferManager._buffer m') q2
  /\ AudioBufferManager._frameProcessor m' = Some parsed.2
  /\ AudioBufferManager.played m' = AudioBufferManager.played m
  /\ AudioBufferManager.pending m' = AudioBufferManager.pending m
  /\ AudioBufferManager._isActive m' = AudioBufferManager._isActive m
  /\ AudioBufferManager._config m' = config
  /\ AudioBufferManager._nextSequenceNumber m'
     = AudioBufferManager._nextSequenceNumber m.
Proof.
  cbv zeta.
  apply (X20_enqueue_appends_then_trims (H := fixed_monitor 0)
           plain_platform 150 (sample_manager false [sample_frame 0 20])
           [sample_frame 0 20] FrameProcessor.new_default tt).
  - lia.
  - apply (sample_manager_repr false [sample_frame 0 20]).
  - reflexivity.
  - reflexivity.
  - simpl. lia.
Defined.

Lemma Qceiling_three_halves (a b : Z) :
  0 < b ->
  Qceiling (inject_Z a / inject_Z b * (15 # 10)) = - (- (3 * a) / (2 * b)).
Proof.
  intros Hb. unfold Qceiling. f_equal.
  rewrite <- Qfloor_div by lia. apply Qfloor_comp.
  rewrite inject_Z_opp, !inject_Z_mult.
  change (inject_Z 3) with 3%Q. change (inject_Z 2) with 2%Q.
  field. apply inject_Z_nonzero. lia.
Qed.

(** X21. The constructor, for a frame interval and a maximum level that
    are not negative. With a zero frame interval, or with more than
    [2^32 - 1] frames in one and a half times [maxBufferMs], the
    allocation of the buffer throws. Otherwise the manager is built with
    the merged configuration, inactive, with no timeout, nothing played
    and an empty buffer of
    [max(150, ceil(3 maxBufferMs / (2 frameIntervalMs)))] slots: room
    for at least one and a half times [maxBufferMs] of frames of one
    interval each. *)
Theorem X21_constructor_sizes_the_buffer
    {QM : Type} `{IQualityMonitor QM} (config : IAudioBufferConfig.partial) :
  let c :=
    IAudioBufferConfig.spread
      {| IAudioBufferConfig.targetBufferMs := 240;
         IAudioBufferConfig.minBufferMs := 120;
         IAudioBufferConfig.maxBufferMs := 480;
         IAudioBufferConfig.frameIntervalMs := 20;
         IAudioBufferConfig.sampleRate := Some 16000 |} config in
  let frameIntervalMs := IAudioBufferConfig.frameIntervalMs c in
  let maxBufferMs := IAudioBufferConfig.maxBufferMs c in
  0 <= frameIntervalMs ->
  0 <= maxBufferMs ->
  if (frameIntervalMs =? 0)
     || (2 * frameIntervalMs * (2 ^ 32 - 1) <? 3 * maxBufferMs)
  then exists msg, AudioBufferManager.new (QM := QM) config = Throw msg
  else
    exists m : AudioBufferManager.t QM,
      AudioBufferManager.new config = Return m
      /\ AudioBufferManager._config m = c
      /\ AudioBufferManager._frameProcessor m
         = Some (FrameProcessor.new frameIntervalMs
                   (default 16000 (IAudioBufferConfig.sampleRate c)) 2)
      /\ AudioBufferManager.isPlaying m = false
      /\ AudioBufferManager.pending m = []
      /\ AudioBufferManager.played m = []
      /\ RingBuffer.length (AudioBufferManager._buffer m) = 0
      /\ AudioBufferManager.getCurrentBufferMs m = 0
      /\ let capacity := RingBuffer.capacity (AudioBufferManager._buffer m) in
         capacity
         = Z.max 150 (- (- (3 * maxBufferMs) / (2 * frameIntervalMs)))
         /\ 150 <= capacity
         /\ 3 * maxBufferMs <= 2 * frameIntervalMs * capacity.
Proof.
  cbv zeta. set (c := IAudioBufferConfig.spread _ config).
  intros Hfi Hmax. unfold AudioBufferManager.new. cbv zeta. fold c.
  destruct (Z.eqb_spec (IAudioBufferConfig.frameIntervalMs c) 0) as [Hz|Hz].
  - cbn [orb]. destruct (Z.ltb_spec (IAudioBufferConfig.maxBufferMs c) 0);
      [lia|eauto].
  - cbn [orb]. rewrite Qceiling_three_halves by lia.
    unfold AudioBufferManager._defaultRingBufferCapacity.
    set (fi := IAudioBufferConfig.frameIntervalMs c) in *.
    set (maxMs := IAudioBufferConfig.maxBufferMs c) in *.
    set (frames := - (- (3 * maxMs) / (2 * fi))).
    assert (Hceil : 3 * maxMs <= 2 * fi * frames
                    /\ 2 * fi * (frames - 1) < 3 * maxMs).
    { subst frames.
      pose proof (Z.div_mod (- (3 * maxMs)) (2 * fi) ltac:(lia)) as Hdm.
      pose proof (Z.mod_pos_bound (- (3 * maxMs)) (2 * fi) ltac:(lia)) as Hm.
      split; nia. }
    assert (Hpow : 2 ^ 32 = 4294967296) by reflexivity.
    destruct (Z.ltb_spec (2 * fi * (2 ^ 32 - 1)) (3 * maxMs)) as [Hbig|Hok].
    + destruct (Z.ltb_spec (Z.max frames 150) (2 ^ 32)) as [Hlt|]; [|eauto].
      exfalso. pose proof (Z.le_max_l frames 150). nia.
    + destruct (Z.ltb_spec (Z.max frames 150) (2 ^ 32)) as [Hlt|Hge].
      * assert (Hroom : 3 * maxMs <= 2 * fi * Z.max frames 150)
          by (pose proof (Z.le_max_l frames 150); nia).
        eexists. split; [reflexivity|].
        unfold AudioBufferManager.isPlaying,
          AudioBufferManager.getCurrentBufferMs, RingBuffer.length,
          RingBuffer.capacity.
        cbn [AudioBufferManager._config AudioBufferManager._frameProcessor
             AudioBufferManager._isActive AudioBufferManager.pending
             AudioBufferManager.played AudioBufferManager._buffer
             RingBuffer.new RingBuffer._size RingBuffer._capacity].
        do 7 (split; [done|]). split; [lia|]. split; [lia|done].
      * exfalso. pose proof (Z.max_spec frames 150). nia.
Qed.

Lemma X21_constructor_witness :
  exists m : AudioBufferManager.t unit,
    AudioBufferManager.new (H := fixed_monitor 0) IAudioBufferConfig.no_change
    = Return m
    /\ RingBuffer.capacity (AudioBufferManager._buffer m) = 150.
Proof.
  pose proof (X21_constructor_sizes_the_buffer (H := fixed_monitor 0)
                IAudioBufferConfig.no_change ltac:(simpl; lia)
                ltac:(simpl; lia)) as Hnew.
  cbn [IAudioBufferConfig.spread IAudioBufferConfig.no_change default
       IAudioBufferConfig.frameIntervalMs IAudioBufferConfig.maxBufferMs
       IAudioBufferConfig.p_frameIntervalMs IAudioBufferConfig.p_maxBufferMs
       Z.eqb orb] in Hnew.
  change (2 * 20 * (2 ^ 32 - 1) <? 3 * 480) with false in Hnew.
  destruct Hnew as (m & Hm & _ & _ & _ & _ & _ & _ & _ & Hcap & _).
  exists m. split; [exact Hm|]. rewrite Hcap. reflexivity.
Defined.

(** ** The telemetry manager *)

Lemma last_n_length {A : Type} (n : nat) (l : list A) :
  List.length (last_n n l) = Nat.min n (List.length l).
Proof. unfold last_n. rewrite length_drop. lia. Qed.

Lemma push_capped_last_n (l : list Q) (value : Q) :
  TelemetryManager.push_capped (last_n 100 l) value = last_n 100 (l ++ [value]).
Proof.
  unfold TelemetryManager.push_capped, TelemetryManager.MAX_HISTORY_SIZE.
  cbv zeta. rewrite length_app, last_n_length. simpl List.length.
  unfold last_n. rewrite length_app. simpl List.length.
  destruct (Z.ltb_spec 100
              (Z.of_nat (Nat.min 100 (List.length l) + 1))) as [Hfull|Hroom].
  - rewrite drop_app_le by (rewrite length_drop; lia).
    rewrite drop_drop.
    rewrite (drop_app_le l) by lia.
    do 2 f_equal. lia.
  - replace (List.length l - 100)%nat with 0%nat by lia.
    replace (List.length l + 1 - 100)%nat with 0%nat by lia.
    by rewrite !drop_0.
Qed.

Section TelemetryFacts.
Import TelemetryManager.
Context {CB : Type}.

Lemma run_snoc (ops : list (op CB * Z)) o now (tm : t CB) :
  run (ops ++ [(o, now)]) tm = step o now (run ops tm).
Proof. unfold run. by rewrite foldl_app. Qed.

Lemma stopReporting_fields (tm : t CB) :
  let tm' := stopReporting tm in
  _chunksPlayed tm' = _chunksPlayed tm
  /\ _chunksDropped tm' = _chunksDropped tm
  /\ _bufferUnderruns tm' = _bufferUnderruns tm
  /\ _bufferOverruns tm' = _bufferOverruns tm
  /\ _latencyHistory tm' = _latencyHistory tm
  /\ _peakLatencyMs tm' = _peakLatencyMs tm
  /\ _jitterHistory tm' = _jitterHistory tm
  /\ _streamRestarts tm' = _streamRestarts tm
  /\ _callback tm' = _callback tm
  /\ next_interval_id tm' = next_interval_id tm
  /\ reported tm' = reported tm.
Proof.
  unfold stopReporting. destruct (_reportIntervalId tm) as [id|]; [|done].
  by destruct (id =? 0).
Qed.

Lemma tick_fields id now (tm : t CB) :
  let tm' := tick id now tm in
  _chunksPlayed tm' = _chunksPlayed tm
  /\ _chunksDropped tm' = _chunksDropped tm
  /\ _bufferUnderruns tm' = _bufferUnderruns tm
  /\ _bufferOverruns tm' = _bufferOverruns tm
  /\ _latencyHistory tm' = _latencyHistory tm
  /\ _peakLatencyMs tm' = _peakLatencyMs tm
  /\ _jitterHistory tm' = _jitterHistory tm
  /\ _streamRestarts tm' = _streamRestarts tm
  /\ _reportIntervalId tm' = _reportIntervalId tm
  /\ intervals tm' = intervals tm
  /\ next_interval_id tm' = next_interval_id tm.
Proof.
  unfold tick, report. destruct (existsb _ _); [|done].
  by destruct (_callback tm).
Qed.

(** The histories hold the last samples recorded. *)
Lemma run_histories (ops : list (op CB * Z)) (tm0 : t CB) :
  _latencyHistory tm0 = [] -> _jitterHistory tm0 = [] ->
  _latencyHistory (run ops tm0) = last_n 100 (latencies ops)
  /\ _jitterHistory (run ops tm0) = last_n 100 (jitters ops).
Proof.
  intros Hl0 Hj0. induction ops as [|[o now] ops IH] using rev_ind.
  - cbn [run foldl]. by rewrite Hl0, Hj0.
  - rewrite run_snoc. unfold latencies, jitters. rewrite !foldl_app.
    cbn [foldl]. fold (latencies ops) (jitters ops).
    destruct IH as [IHl IHj].
    destruct (stopReporting_fields (run ops tm0))
      as (_ & _ & _ & _ & Hsl & _ & Hsj & _).
    destruct o; cbn [step]; try (split; [exact IHl|exact IHj]).
    + cbn. rewrite IHl, IHj. by rewrite push_capped_last_n.
    + cbn. rewrite IHl, IHj. by rewrite push_capped_last_n.
    + unfold recordPlaybackStop. destruct (0 <? _); cbn; done.
    + unfold startReporting. cbv zeta.
      match goal with
      | |- context [stopReporting ?x] =>
          destruct (stopReporting_fields x)
            as (_ & _ & _ & _ & Hl' & _ & Hj' & _)
      end.
      cbv zeta in Hl', Hj'. cbn [_latencyHistory _jitterHistory].
      rewrite Hl', Hj'. split; [exact IHl|exact IHj].
    + cbv zeta in Hsl, Hsj. by rewrite Hsl, Hsj.
    + done.
    + unfold destroy. cbv zeta. cbn [_latencyHistory _jitterHistory].
      cbv zeta in Hsl, Hsj. by rewrite Hsl, Hsj.
    + destruct (tick_fields id now (run ops tm0))
        as (_ & _ & _ & _ & Htl & _ & Htj & _).
      cbv zeta in Htl, Htj. by rewrite Htl, Htj.
Qed.

End TelemetryFacts.

(** X22. The latency and jitter histories of a telemetry manager hold
    the last 100 samples recorded since the last [reset], in the order
    of their recording, whatever else was called in between; they never
    hold more than 100 samples. *)
Theorem X22_histories_hold_the_last_100_samples {CB : Type}
    (sessionId : option jsstring) (generated : jsstring) (now0 : Z)
    (ops : list (TelemetryManager.op CB * Z)) :
  let tm :=
    TelemetryManager.run ops (TelemetryManager.new sessionId generated now0) in
  TelemetryManager._latencyHistory tm = last_n 100 (latencies ops)
  /\ TelemetryManager._jitterHistory tm = last_n 100 (jitters ops)
  /\ (List.length (TelemetryManager._latencyHistory tm) <= 100)%nat
  /\ (List.length (TelemetryManager._jitterHistory tm) <= 100)%nat.
Proof.
  cbv zeta.
  destruct (run_histories ops (TelemetryManager.new sessionId generated now0)
              eq_refl eq_refl) as [Hl Hj].
  rewrite Hl, Hj, !last_n_length. repeat split; lia.
Qed.

Section TelemetryRuns.
Import TelemetryManager.
Context {CB : Type}.

Local Ltac tm_unfold :=
  unfold step, recordChunkPlayed, recordChunkDropped, recordUnderrun,
    recordOverrun, recordJitter, recordPlaybackStart, recordPlaybackStop,
    recordStreamRestart, updateBufferHealthState, startReporting,
    destroy, stopReporting, reset, tick, report, touch, _recordLatency;
  cbv zeta.

Local Ltac tm_fields :=
  cbn [_sessionId _chunksPlayed _chunksDropped _bufferUnderruns
       _bufferOverruns _latencyHistory _peakLatencyMs _jitterHistory
       _playbackStartTime _totalPlaybackDurationMs _streamRestarts
       _bufferHealthState _lastUpdatedAt _callback _reportIntervalId
       intervals next_interval_id reported] in *.

Lemma latencies_snoc (ops : list (op CB * Z)) o now :
  latencies (ops ++ [(o, now)])
  = match o with
    | Reset => []
    | RecordChunkPlayed latencyMs => latencies ops ++ [latencyMs]
    | _ => latencies ops
    end.
Proof. unfold latencies. rewrite foldl_app. by destruct o. Qed.

Lemma count_snoc (kind : op CB -> bool) (ops : list (op CB * Z)) o now :
  count_since_reset kind (ops ++ [(o, now)])
  = match o with
    | Reset => 0
    | _ =>
        if kind o then count_since_reset kind ops + 1
        else count_since_reset kind ops
    end.
Proof. unfold count_since_reset. rewrite foldl_app. by destruct o. Qed.

(** The counters count the events since the last [reset]. *)
Lemma run_counters (ops : list (op CB * Z)) (tm0 : t CB) :
  _chunksPlayed tm0 = 0 -> _chunksDropped tm0 = 0 ->
  _bufferUnderruns tm0 = 0 -> _bufferOverruns tm0 = 0 ->
  _streamRestarts tm0 = 0 ->
  let tm := run ops tm0 in
  _chunksPlayed tm = Z.of_nat (List.length (latencies ops))
  /\ _chunksDropped tm
     = count_since_reset
         (fun o => match o with RecordChunkDropped => true | _ => false end)
         ops
  /\ _bufferUnderruns tm
     = count_since_reset
         (fun o => match o with RecordUnderrun => true | _ => false end) ops
  /\ _bufferOverruns tm
     = count_since_reset
         (fun o => match o with RecordOverrun => true | _ => false end) ops
  /\ _streamRestarts tm
     = count_since_reset
         (fun o => match o with RecordStreamRestart => true | _ => false end)
         ops.
Proof.
  intros H1 H2 H3 H4 H5. cbv zeta.
  induction ops as [|[o now] ops IH] using rev_ind.
  - cbn. by rewrite H1, H2, H3, H4, H5.
  - rewrite run_snoc, latencies_snoc, !count_snoc.
    destruct IH as (I1 & I2 & I3 & I4 & I5).
    set (c1 := latencies ops) in *.
    set (c2 := count_since_reset _ ops) in I2 |- *.
    set (c3 := count_since_reset _ ops) in I3 |- *.
    set (c4 := count_since_reset _ ops) in I4 |- *.
    set (c5 := count_since_reset _ ops) in I5 |- *.
    clearbody c1 c2 c3 c4 c5.
    destruct o; tm_unfold; repeat case_match; tm_fields;
      rewrite ?length_app; cbn [List.length];
      rewrite ?I1, ?I2, ?I3, ?I4, ?I5; repeat split; try done; lia.
Qed.

(** The peak is the largest latency recorded since the last [reset],
    and 0 when none is positive. *)
Lemma run_peak (ops : list (op CB * Z)) (tm0 : t CB) :
  _peakLatencyMs tm0 = 0%Q ->
  let tm := run ops tm0 in
  Forall (fun latency => (latency <= _peakLatencyMs tm)%Q) (latencies ops)
  /\ (0 <= _peakLatencyMs tm)%Q
  /\ (_peakLatencyMs tm = 0%Q \/ In (_peakLatencyMs tm) (latencies ops)).
Proof.
  intros H0. cbv zeta.
  induction ops as [|[o now] ops IH] using rev_ind.
  - cbn. rewrite H0. repeat split; [constructor|lra|by left].
  - rewrite run_snoc, latencies_snoc. destruct IH as (I1 & I2 & I3).
    destruct o; tm_unfold; repeat case_match; tm_fields;
      try (split; [exact I1|split; [exact I2|exact I3]]).
    + (* a latency above the peak *)
      match goal with
      | Hb : negb (Qle_bool ?l ?p) = true |- _ =>
          apply negb_true_iff in Hb;
          assert (Hlt : (p < l)%Q)
            by (apply Qnot_le_lt; intros Hle; apply Qle_bool_iff in Hle;
                congruence)
      end.
      split; [|split].
      * apply Forall_app. split; [|constructor; [lra|constructor]].
        eapply Forall_impl; [exact I1|]. intros x Hx. cbv beta in Hx. lra.
      * lra.
      * right. apply in_or_app. right. by left.
    + (* a latency at most the peak *)
      match goal with
      | Hb : negb (Qle_bool ?l ?p) = false |- _ =>
          apply negb_false_iff, Qle_bool_iff in Hb
      end.
      split; [|split].
      * apply Forall_app. split; [exact I1|]. by constructor.
      * exact I2.
      * destruct I3 as [I3|I3]; [by left|right].
        apply in_or_app. by left.
    + repeat split; [constructor|lra|by left].
Qed.

(** At most one interval is set: the one that [_reportIntervalId]
    names. *)
Lemma run_intervals (ops : list (op CB * Z)) (tm0 : t CB) :
  _reportIntervalId tm0 = None -> intervals tm0 = [] ->
  0 < next_interval_id tm0 ->
  let tm := run ops tm0 in
  0 < next_interval_id tm
  /\ match _reportIntervalId tm with
     | Some id =>
         0 < id < next_interval_id tm
         /\ exists ms, intervals tm = [{| interval_id := id;
                                          interval_ms := ms |}]
     | None => intervals tm = []
     end.
Proof.
  intros H1 H2 H3. cbv zeta.
  induction ops as [|[o now] ops IH] using rev_ind.
  - cbn. by rewrite H1, H2.
  - rewrite run_snoc. destruct IH as (I1 & I2).
    set (tm := run ops tm0) in *.
    assert (Hstop : intervals (stopReporting tm) = []
                    /\ _reportIntervalId (stopReporting tm) = None
                    /\ next_interval_id (stopReporting tm)
                       = next_interval_id tm).
    { unfold stopReporting.
      revert I2. destruct (_reportIntervalId tm) as [id|] eqn:Hrid;
        intros I2; [|done].
      destruct I2 as (Hid & ms & Hms).
      destruct (Z.eqb_spec id 0); [lia|]. cbn. rewrite Hms. cbn.
      by rewrite Z.eqb_refl. }
    destruct Hstop as (Hs1 & Hs2 & Hs3).
    destruct o; cbn [step];
      try (split; [exact I1|exact I2]).
    + unfold recordPlaybackStop. destruct (0 <? _); split; done.
    + unfold startReporting. cbv zeta.
      match goal with
      | |- context [stopReporting ?x] =>
          assert (Hx : intervals (stopReporting x) = []
                       /\ next_interval_id (stopReporting x)
                          = next_interval_id tm)
      end.
      { unfold stopReporting. cbn.
        destruct (_reportIntervalId tm) as [id|]; [|done].
        destruct I2 as (Hid & ms & Hms).
        destruct (Z.eqb_spec id 0); [lia|]. cbn. rewrite Hms. cbn.
        by rewrite Z.eqb_refl. }
      destruct Hx as [Hx1 Hx2]. cbn. rewrite Hx1, Hx2.
      split; [lia|]. split; [lia|]. eauto.
    + rewrite Hs2, Hs3. done.
    + unfold destroy. cbn. rewrite Hs2, Hs3. done.
    + destruct (tick_fields id now tm)
        as (_ & _ & _ & _ & _ & _ & _ & _ & Ht1 & Ht2 & Ht3).
      cbv zeta in *. by rewrite Ht1, Ht2, Ht3.
Qed.

Lemma start_time now (tm : t CB) :
  _playbackStartTime (recordPlaybackStart now tm) = now.
Proof. done. Qed.

Lemma start_total now (tm : t CB) :
  _totalPlaybackDurationMs (recordPlaybackStart now tm)
  = _totalPlaybackDurationMs tm.
Proof. done. Qed.

Lemma stop_time now (tm : t CB) :
  _playbackStartTime (recordPlaybackStop now tm)
  = if 0 <? _playbackStartTime tm then 0 else _playbackStartTime tm.
Proof. unfold recordPlaybackStop. by destruct (0 <? _). Qed.

Lemma stop_total now (tm : t CB) :
  _totalPlaybackDurationMs (recordPlaybackStop now tm)
  = if 0 <? _playbackStartTime tm
    then _totalPlaybackDurationMs tm + (now - _playbackStartTime tm)
    else _totalPlaybackDurationMs tm.
Proof. unfold recordPlaybackStop. by destruct (0 <? _). Qed.

Lemma telemetry_total now (tm : t CB) :
  IAudioTelemetry.totalPlaybackDurationMs (getTelemetry now tm)
  = if 0 <? _playbackStartTime tm
    then _totalPlaybackDurationMs tm + (now - _playbackStartTime tm)
    else _totalPlaybackDurationMs tm.
Proof. done. Qed.

End TelemetryRuns.

(** X23. The counters of a telemetry manager count the events since
    the last [reset]: chunks played (one for each latency recorded, also
    beyond the 100 that the history keeps), chunks dropped, underruns,
    overruns and stream restarts; [getTelemetry] reports these
    counts. *)
Theorem X23_counters_count_events_since_reset {CB : Type}
    (sessionId : option jsstring) (generated : jsstring) (now0 now : Z)
    (ops : list (TelemetryManager.op CB * Z)) :
  let tm :=
    TelemetryManager.run ops (TelemetryManager.new sessionId generated now0) in
  let telemetry := TelemetryManager.getTelemetry now tm in
  IAudioTelemetry.chunksPlayed telemetry
  = Z.of_nat (List.length (latencies ops))
  /\ IAudioTelemetry.chunksDropped telemetry
     = count_since_reset
         (fun o => match o with
                   | TelemetryManager.RecordChunkDropped => true
                   | _ => false
                   end) ops
  /\ IAudioTelemetry.bufferUnderruns telemetry
     = count_since_reset
         (fun o => match o with
                   | TelemetryManager.RecordUnderrun => true
                   | _ => false
                   end) ops
  /\ IAudioTelemetry.bufferOverruns telemetry
     = count_since_reset
         (fun o => match o with
                   | TelemetryManager.RecordOverrun => true
                   | _ => false
                   end) ops
  /\ IAudioTelemetry.streamRestarts telemetry
     = count_since_reset
         (fun o => match o with
                   | TelemetryManager.RecordStreamRestart => true
                   | _ => false
                   end) ops.
Proof.
  cbv zeta.
  exact (run_counters ops (TelemetryManager.new sessionId generated now0)
           eq_refl eq_refl eq_refl eq_refl eq_refl).
Qed.

(** X24. The peak latency that [getTelemetry] reports is at least every
    latency recorded since the last [reset]; it is never negative, and
    it is one of these latencies unless it is 0. *)
Theorem X24_peak_bounds_latencies {CB : Type}
    (sessionId : option jsstring) (generated : jsstring) (now0 now : Z)
    (ops : list (TelemetryManager.op CB * Z)) :
  let tm :=
    TelemetryManager.run ops (TelemetryManager.new sessionId generated now0) in
  let telemetry := TelemetryManager.getTelemetry now tm in
  let peak := IAudioTelemetry.peakLatencyMs telemetry in
  Forall (fun latency => (latency <= peak)%Q) (latencies ops)
  /\ (0 <= peak)%Q
  /\ (peak = 0%Q \/ In peak (latencies ops)).
Proof.
  cbv zeta.
  set (tm0 := TelemetryManager.new (CB := CB) sessionId generated now0).
  exact (run_peak ops tm0 eq_refl).
Qed.

(** X25. Playback time. After [recordPlaybackStart] at a positive time,
    [getTelemetry] adds the time elapsed since then to the total; a
    [recordPlaybackStop] adds the time between start and stop to the
    total, once: a further stop adds nothing, nor does a stop without a
    start. A second start while playing forgets the first one. *)
Theorem X25_playback_time_accounting {CB : Type}
    (tm : TelemetryManager.t CB) (start again stop later now : Z) :
  0 < start ->
  0 < again ->
  let total := TelemetryManager._totalPlaybackDurationMs tm in
  let playing := TelemetryManager.recordPlaybackStart start tm in
  let stopped := TelemetryManager.recordPlaybackStop stop playing in
  IAudioTelemetry.totalPlaybackDurationMs
    (TelemetryManager.getTelemetry now playing) = total + (now - start)
  /\ TelemetryManager._totalPlaybackDurationMs stopped
     = total + (stop - start)
  /\ IAudioTelemetry.totalPlaybackDurationMs
       (TelemetryManager.getTelemetry now stopped) = total + (stop - start)
  /\ TelemetryManager._totalPlaybackDurationMs
       (TelemetryManager.recordPlaybackStop later stopped)
     = total + (stop - start)
  /\ TelemetryManager._totalPlaybackDurationMs
       (TelemetryManager.recordPlaybackStop stop
          (TelemetryManager.recordPlaybackStart again playing))
     = total + (stop - again)
  /\ (TelemetryManager._playbackStartTime tm = 0 ->
      TelemetryManager._totalPlaybackDurationMs
        (TelemetryManager.recordPlaybackStop stop tm) = total).
Proof.
  intros Hs Ha. cbv zeta.
  rewrite !telemetry_total.
  repeat rewrite ?stop_total, ?stop_time, ?start_total, ?start_time.
  destruct (Z.ltb_spec 0 start); [|lia].
  destruct (Z.ltb_spec 0 again); [|lia].
  cbn [Z.ltb Z.compare].
  repeat split; try done. by intros ->.
Qed.

Lemma X25_playback_time_witness :
  let tm := TelemetryManager.new (CB := unit) None (str "session-1") 1000 in
  let total := TelemetryManager._totalPlaybackDurationMs tm in
  let playing := TelemetryManager.recordPlaybackStart 1500 tm in
  let stopped := TelemetryManager.recordPlaybackStop 4000 playing in
  IAudioTelemetry.totalPlaybackDurationMs
    (TelemetryManager.getTelemetry 3000 playing) = total + (3000 - 1500)
  /\ TelemetryManager._totalPlaybackDurationMs stopped
     = total + (4000 - 1500)
  /\ IAudioTelemetry.totalPlaybackDurationMs
       (TelemetryManager.getTelemetry 3000 stopped) = total + (4000 - 1500)
  /\ TelemetryManager._totalPlaybackDurationMs
       (TelemetryManager.recordPlaybackStop 5000 stopped)
     = total + (4000 - 1500)
  /\ TelemetryManager._totalPlaybackDurationMs
       (TelemetryManager.recordPlaybackStop 4000
          (TelemetryManager.recordPlaybackStart 2000 playing))
     = total + (4000 - 2000)
  /\ (TelemetryManager._playbackStartTime tm = 0 ->
      TelemetryManager._totalPlaybackDurationMs
        (TelemetryManager.recordPlaybackStop 4000 tm) = total).
Proof.
  cbv zeta.
  apply (X25_playback_time_accounting
           (TelemetryManager.new (CB := unit) None (str "session-1") 1000)
           1500 2000 4000 5000 3000); lia.
Defined.

(** X26. Whatever is called, a telemetry manager has at most one
    interval set, the one that it remembers, so that a snapshot is
    reported at most once per period; an interval that elapses hands
    one snapshot to the callback of the last [startReporting], and
    changes nothing else. After [stopReporting] or [destroy] no interval
    is left, and an elapsing interval reports nothing. *)
Theorem X26_one_reporting_interval_at_most {CB : Type}
    (sessionId : option jsstring) (generated : jsstring) (now0 now : Z)
    (ops : list (TelemetryManager.op CB * Z)) (id : Z) :
  let tm :=
    TelemetryManager.run ops (TelemetryManager.new sessionId generated now0) in
  (List.length (TelemetryManager.intervals tm) <= 1)%nat
  /\ (forall i, In i (TelemetryManager.intervals tm) ->
        TelemetryManager._reportIntervalId tm
        = Some (TelemetryManager.interval_id i)
        /\ 0 < TelemetryManager.interval_id i)
  /\ (TelemetryManager._reportIntervalId tm = None ->
      TelemetryManager.intervals tm = [])
  /\ TelemetryManager.intervals (TelemetryManager.stopReporting tm) = []
  /\ TelemetryManager.intervals (TelemetryManager.destroy tm) = []
  /\ TelemetryManager.tick id now (TelemetryManager.stopReporting tm)
     = TelemetryManager.stopReporting tm
  /\ TelemetryManager.tick id now (TelemetryManager.destroy tm)
     = TelemetryManager.destroy tm
  /\ TelemetryManager.reported (TelemetryManager.tick id now tm)
     = TelemetryManager.reported tm
       ++ match TelemetryManager._callback tm with
          | Some callback =>
              if decide (TelemetryManager._reportIntervalId tm = Some id)
              then [(callback, TelemetryManager.getTelemetry now tm)]
              else []
          | None => []
          end.
Proof.
  cbv zeta.
  set (tm0 := TelemetryManager.new (CB := CB) sessionId generated now0).
  destruct (run_intervals ops tm0 eq_refl eq_refl ltac:(simpl; lia))
    as (Hnext & Hinv).
  cbv zeta in *. set (tm := TelemetryManager.run ops tm0) in *.
  assert (Hstop : TelemetryManager.intervals
                    (TelemetryManager.stopReporting tm) = []).
  { unfold TelemetryManager.stopReporting.
    revert Hinv.
    destruct (TelemetryManager._reportIntervalId tm) as [rid|] eqn:Hrid;
      intros Hinv; [|done].
    destruct Hinv as (Hid & ms & Hms).
    destruct (Z.eqb_spec rid 0); [lia|]. cbn. rewrite Hms. cbn.
    by rewrite Z.eqb_refl. }
  assert (Htick : forall x : TelemetryManager.t CB,
            TelemetryManager.intervals x = [] ->
            TelemetryManager.tick id now x = x).
  { intros x Hx. unfold TelemetryManager.tick. by rewrite Hx. }
  split; [|split; [|split; [|split; [|split; [|split; [|split]]]]]].
  - revert Hinv.
    destruct (TelemetryManager._reportIntervalId tm) as [rid|]; intros Hinv.
    + destruct Hinv as (_ & ms & ->). simpl. lia.
    + rewrite Hinv. simpl. lia.
  - intros i Hi. revert Hinv.
    destruct (TelemetryManager._reportIntervalId tm) as [rid|]; intros Hinv.
    + destruct Hinv as (Hid & ms & Hms). rewrite Hms in Hi.
      destruct Hi as [<-|[]]. cbn. split; [done|lia].
    + rewrite Hinv in Hi. done.
  - intros Hnone. by rewrite Hnone in Hinv.
  - exact Hstop.
  - exact Hstop.
  - by apply Htick.
  - by apply Htick.
  - unfold TelemetryManager.tick, TelemetryManager.report. revert Hinv.
    destruct (TelemetryManager._reportIntervalId tm) as [rid|]; intros Hinv.
    + destruct Hinv as (Hid & ms & Hms). rewrite Hms. cbn.
      destruct (Z.eqb_spec rid id) as [->|Hne]; cbn.
      * destruct (TelemetryManager._callback tm); cbn;
          [|by rewrite app_nil_r].
        by destruct (decide (Some id = Some id)).
      * destruct (TelemetryManager._callback tm); cbn;
          [|by rewrite app_nil_r].
        destruct (decide (Some rid = Some id)) as [[=]|]; [done|].
        by rewrite app_nil_r.
    + rewrite Hinv. cbn.
      destruct (TelemetryManager._callback tm); cbn; by rewrite app_nil_r.
Qed.
